(** * dyPolyChord: dynamic nested sampling driver and run merger

    A shallow embedding of

    - [dypypolychord/__init__.py] ([run_dynamic_polychord]): the
      checkpointed exploration loop, the live-point schedule and the
      choice of the resume checkpoint;
    - [dyPolyChord/output_processing.py] ([process_dypolychord_run],
      [combine_resumed_dyn_run]): the merge of the exploratory and the
      dynamic run.

    Python objects that are mutated through a reference (the settings
    object, the run dictionaries) live in an explicit store; exceptions
    are an outcome of the computation, and the store survives them. *)

From Stdlib Require Import ZArith QArith String List Lia.
From stdpp Require Import base list gmap strings sorting pretty.

Open Scope Z_scope.

(** ** Numbers

    Log-likelihoods and thread bounds are doubles.  The code only ever
    compares them (for equality and for order), so a finite value is
    represented by an integer code that preserves both, and [-np.inf]
    by [NInf].  NaN and [+inf] are outside the model.  The schedule
    array [nlives_array] is arithmetic on doubles; it is modelled with
    exact rationals. *)

Inductive fl : Type :=
  | NInf
  | Fin (x : Z).

#[global] Instance fl_eq_dec : EqDecision fl.
Proof. solve_decision. Defined.

Definition fl_to_option (x : fl) : option Z :=
  match x with NInf => None | Fin z => Some z end.

Definition fl_of_option (o : option Z) : fl :=
  match o with None => NInf | Some z => Fin z end.

#[global] Instance fl_countable : Countable fl.
Proof.
  apply (inj_countable' fl_to_option fl_of_option). by intros [].
Defined.

(** [a <= b] on doubles. *)
Definition fl_leb (a b : fl) : bool :=
  match a, b with
  | NInf, _ => true
  | Fin _, NInf => false
  | Fin x, Fin y => x <=? y
  end.

Definition fl_le (a b : fl) : Prop := fl_leb a b = true.

(** [a < b] on doubles. *)
Definition fl_ltb (a b : fl) : bool := negb (fl_leb b a).

#[global] Instance fl_le_dec : RelDecision fl_le.
Proof. intros a b. unfold fl_le. apply _. Defined.

(** [a < b] on the rationals that stand for doubles. *)
Definition Qltb (a b : Q) : bool := negb (Qle_bool b a).

(** [int(x)]: truncation towards zero. *)
Definition py_int (x : Q) : Z := Z.quot (Qnum x) (Zpos (Qden x)).

(** ** Exceptions *)

(** An [AssertionError] carries the place of the [assert] that failed,
    as the traceback does. *)

Inductive exn : Type :=
  | AssertionError (site : string)
  | IndexError
  | KeyError (key : string)
  | TypeError
  | ValueError
  | ZeroDivisionError.

(** The outcome of a computation: a value, an exception, or a loop that
    has not finished within the fuel it was given. *)
Inductive res (A : Type) : Type :=
  | Ok (a : A)
  | Raise (e : exn)
  | OutOfFuel.

Arguments Ok {A} a.
Arguments Raise {A} e.
Arguments OutOfFuel {A}.

Definition res_bind {A B} (r : res A) (k : A → res B) : res B :=
  match r with
  | Ok a => k a
  | Raise e => Raise e
  | OutOfFuel => OutOfFuel
  end.

#[global] Instance res_ret : MRet res := λ A a, Ok a.
#[global] Instance res_mbind : MBind res := λ A B k r, res_bind r k.

Definition is_Ok {A} (r : res A) : Prop := ∃ a, r = Ok a.

(** [assert c] at the place [site]. *)
Definition assert_that (c : bool) (site : string) : res unit :=
  if c then Ok tt else Raise (AssertionError site).

(** [l[i]] for a non-negative index. *)
Definition index {A} (l : list A) (i : nat) : res A :=
  match l !! i with
  | Some x => Ok x
  | None => Raise IndexError
  end.

(** ** numpy on one-dimensional arrays *)

(** The indices, counted from [i], at which [p] holds. *)
Fixpoint where_from {A} (p : A → bool) (i : nat) (l : list A) : list nat :=
  match l with
  | [] => []
  | x :: l' =>
      if p x then i :: where_from p (S i) l' else where_from p (S i) l'
  end.

(** [np.where(cond)[0]]: the indices at which the condition holds, in
    increasing order. *)
Definition np_where {A} (p : A → bool) (l : list A) : list nat :=
  where_from p 0 l.

(** Insertion into a strictly increasing list. *)
Fixpoint insert_uniq (x : Z) (l : list Z) : list Z :=
  match l with
  | [] => [x]
  | y :: l' =>
      if x <? y then x :: l
      else if x =? y then l
      else y :: insert_uniq x l'
  end.

(** [np.unique(a)]: the sorted distinct values. *)
Definition np_unique (l : list Z) : list Z := foldr insert_uniq [] l.

(** The list without the entries whose index, counted from [i], is in
    [inds]. *)
Fixpoint delete_from {A} (i : nat) (inds : list nat) (l : list A) : list A :=
  match l with
  | [] => []
  | x :: l' =>
      if bool_decide (i ∈ inds) then delete_from (S i) inds l'
      else x :: delete_from (S i) inds l'
  end.

(** [np.delete(a, inds)] (along axis 0): an index out of range raises. *)
Definition np_delete {A} (l : list A) (inds : list nat) : res (list A) :=
  if forallb (λ i, i <? length l)%nat inds then Ok (delete_from 0 inds l)
  else Raise IndexError.

(** [np.array_equal(a, b)] *)
Definition array_equal (a b : list fl) : bool := bool_decide (a = b).

(** ** The schedule calculator and the resume selector
    ([run_dynamic_polychord], lines 106-130) *)

(** Line 107-112: the scaled target.  [n] is [init_run['logl'].shape[0]].
    The products and the quotient are numpy's, on doubles and with
    rounding: [double_mul x c] stands for the double [x * c] and
    [double_div x c] for the double [x / c], for a double [x] and an
    integer [c].  The model takes them as given and holds the finite
    doubles as the rationals they are.  A division by [ninit = 0] would
    give [inf] or [nan]; it is not reached, since the exploration loop
    returns only with [ninit >= 1]. *)
Definition scale_w_rel (double_mul double_div : Q → Z → Q) (w_rel : list Q)
    (max_ndead_in : Z) (n : nat) (nlive_const ninit : Z) : res (list Q) :=
  if 0 <? max_ndead_in then
    Ok ((λ w, double_mul w (max_ndead_in - Z.of_nat n)) <$> w_rel)
  else
    Ok ((λ w, double_div
                (double_mul (double_mul w (Z.of_nat n)) (nlive_const - ninit))
                ninit) <$> w_rel).

(** Line 114: [np.where(nlives_array > ninit)[0][0]]. *)
Definition peak_start (nlives_array : list Q) (ninit : Z) : res nat :=
  match head (np_where (λ x, Qltb (inject_Z ninit) x) nlives_array) with
  | Some i => Ok i
  | None => Raise IndexError
  end.

(** Line 115: [nlives_array[:peak_start_ind] = ninit]. *)
Definition clamp_before (nlives_array : list Q) (peak_start_ind : nat)
    (ninit : Z) : list Q :=
  replicate (min peak_start_ind (length nlives_array)) (inject_Z ninit)
    ++ drop peak_start_ind nlives_array.

(** Lines 118-119: [dyn_nlive_step * np.asarray(range(n // dyn_nlive_step))]. *)
Definition stride_steps (n : nat) (dyn_nlive_step : Z) : res (list Z) :=
  if dyn_nlive_step =? 0 then Raise ZeroDivisionError
  else Ok ((λ j, dyn_nlive_step * Z.of_nat j)
             <$> seq 0 (Z.to_nat (Z.of_nat n `div` dyn_nlive_step))).

(** [a[j]] for an integer [j] that may be negative. *)
Definition index_Z {A} (l : list A) (j : Z) : res A :=
  if 0 <=? j then index l (Z.to_nat j)
  else if - Z.of_nat (length l) <=? j
       then index l (Z.to_nat (Z.of_nat (length l) + j))
       else Raise IndexError.

(** The key of the seed entry, [-1. * 10e100]. *)
Definition seed_key : fl := Fin (- 10 ^ 101).

(** Lines 120-125: one iteration of the loop over [enumerate(steps[:-1])]. *)
Definition nlives_dict_step (nlives_array : list Q) (logl : list fl)
    (steps : list Z) (d : gmap fl Z) (i : nat) (step : Z) : res (gmap fl Z) :=
  next ← index steps (S i);
  v ← index_Z nlives_array next;
  let nlive_i := py_int v in
  if 1 <=? nlive_i then
    key ← index_Z logl step;
    Ok (<[key := nlive_i]> d)
  else Ok d.

Fixpoint nlives_dict_loop (nlives_array : list Q) (logl : list fl)
    (steps : list Z) (d : gmap fl Z) (i : nat) (todo : list Z)
    : res (gmap fl Z) :=
  match todo with
  | [] => Ok d
  | step :: todo' =>
      d' ← nlives_dict_step nlives_array logl steps d i step;
      nlives_dict_loop nlives_array logl steps d' (S i) todo'
  end.

(** Lines 117-125. [n_w] is [w_rel.shape[0]]; [steps[:-1]] drops the last
    stride position. *)
Definition make_nlives_dict (nlives_array : list Q) (logl : list fl)
    (n_w : nat) (dyn_nlive_step ninit : Z) : res (gmap fl Z) :=
  steps ← stride_steps n_w dyn_nlive_step;
  nlives_dict_loop nlives_array logl steps {[ seed_key := ninit ]} 0
    (take (length steps - 1) steps).

(** Lines 127-130: the resume selector. *)
Definition resume_select (step_ndead : list Z) (peak_start_ind : nat)
    : res Z :=
  let resume_steps := (λ x, x - 1) <$> step_ndead in
  match last (np_where (λ s, s <? Z.of_nat peak_start_ind) resume_steps) with
  | Some i => index step_ndead i
  | None => Raise IndexError
  end.

(** What the loop of lines 120-125 does at position [i] of a stride of
    [s], read off the arrays: the pair it stores, if it stores one. *)
Definition emitted (nlives_array : list Q) (logl : list fl) (s i : nat)
    : option (fl * Z) :=
  key ← logl !! (s * i)%nat;
  v ← nlives_array !! (s * S i)%nat;
  if 1 <=? py_int v then Some (key, py_int v) else None.

Definition store_emitted (d : gmap fl Z) (e : option (fl * Z)) : gmap fl Z :=
  match e with
  | Some (k, v) => <[k := v]> d
  | None => d
  end.

(** ** State and exceptions

    A computation over a state [S]: it returns an outcome and the state
    it leaves behind, also when it raises. *)

Definition M (S A : Type) : Type := S → res A * S.

#[global] Instance M_ret {S} : MRet (M S) := λ A a s, (Ok a, s).

#[global] Instance M_bind {S} : MBind (M S) := λ A B k c s,
  match c s with
  | (Ok a, s') => k a s'
  | (Raise e, s') => (Raise e, s')
  | (OutOfFuel, s') => (OutOfFuel, s')
  end.

(** A computation that does not touch the state. *)
Definition lift {S A} (r : res A) : M S A := λ s, (r, s).

Definition raise {S A} (e : exn) : M S A := lift (Raise e).

Definition get_state {S} : M S S := λ s, (Ok s, s).

Definition modify_state {S} (f : S → S) : M S unit := λ s, (Ok tt, f s).

(** ** Data model *)

(** Values stored in a run's [output] dictionary. *)
Inductive pyval : Type :=
  | PNone
  | PInt (n : Z)
  | PStr (s : string).

#[global] Instance pyval_eq_dec : EqDecision pyval.
Proof. solve_decision. Defined.

(** A nested sampling run in the nestcheck format: a dictionary of
    arrays with one row per sample, the bounds of every thread, and the
    sampler's output information. *)
Record Run : Type := mkRun {
  theta : list (list Q);
  logl : list fl;
  nlive_array : list Z;
  thread_labels : list Z;
  thread_min_max : list (fl * fl);
  output : gmap string pyval
}.

(** The PolyChord settings object (the attributes the driver uses). *)
Record Settings : Type := mkSettings {
  file_root : string;
  base_dir : string;
  nlive : Z;
  nlives : gmap fl Z;
  read_resume : bool;
  write_resume : bool;
  max_ndead : Z
}.

Definition set_file_root (v : string) (s : Settings) : Settings :=
  mkSettings v (base_dir s) (nlive s) (nlives s) (read_resume s)
    (write_resume s) (max_ndead s).
Definition set_nlive (v : Z) (s : Settings) : Settings :=
  mkSettings (file_root s) (base_dir s) v (nlives s) (read_resume s)
    (write_resume s) (max_ndead s).
Definition set_nlives (v : gmap fl Z) (s : Settings) : Settings :=
  mkSettings (file_root s) (base_dir s) (nlive s) v (read_resume s)
    (write_resume s) (max_ndead s).
Definition set_read_resume (v : bool) (s : Settings) : Settings :=
  mkSettings (file_root s) (base_dir s) (nlive s) (nlives s) v
    (write_resume s) (max_ndead s).
Definition set_write_resume (v : bool) (s : Settings) : Settings :=
  mkSettings (file_root s) (base_dir s) (nlive s) (nlives s) (read_resume s)
    v (max_ndead s).
Definition set_max_ndead (v : Z) (s : Settings) : Settings :=
  mkSettings (file_root s) (base_dir s) (nlive s) (nlives s) (read_resume s)
    (write_resume s) v.

(** What [PyPolyChord.run_polychord] returns. *)
Record Output : Type := mkOutput {
  ndead : Z;
  nlike : Z
}.

(** The keyword arguments of [run_dynamic_polychord]; [kw_other] are the
    names of the keywords that are left once the known ones are popped.
    [ndims], [nderived], [likelihood] and [prior] are only handed to the
    sampler and are part of it here. *)
Record kwargs : Type := mkKwargs {
  kw_ninit : option Z;
  kw_init_step : option Z;
  kw_dyn_nlive_step : option Z;
  kw_nlive_const : option Z;
  kw_other : list string
}.

(** An object reference: the position of the object in the store. *)
Definition loc : Type := nat.

(** ** The driver, [run_dynamic_polychord] *)

Module Driver.
Section driver.
(** The file system and the sampler's own state. *)
Variable World : Type.

(** The state of the driver: the settings objects and the world. *)
Record state : Type := mkState {
  heap : list Settings;
  world : World
}.

(** External collaborators.  [run_polychord] reads the settings object
    it is handed; [process_polychord_run] reads the files under a root
    path. *)
Variable run_polychord : Settings → World → res Output * World.
Variable process_polychord_run : string → World → res Run.
Variable get_logx : list Z → list Q.
Variable rel_posterior_mass : list Q → list fl → list Q.
Variable double_mul : Q → Z → Q.
Variable double_div : Q → Z → Q.
Variable copyfile : string → string → World → res unit * World.
Variable remove : string → World → res unit * World.
Variable save_info : Settings → Output → option Z → World → res unit * World.
Variable comm_rank : Z.

(** An effect on the world alone. *)
Definition ext {A} (f : World → res A * World) : M state A := λ σ,
  let '(r, w) := f (world σ) in (r, mkState (heap σ) w).

(** Reading an attribute goes through the reference. *)
Definition read (l : loc) : M state Settings := λ σ,
  (index (heap σ) l, σ).

(** [obj.attr = v] *)
Definition setattr (l : loc) (f : Settings → Settings) : M state unit :=
  s ← read l;
  modify_state (λ σ, mkState (<[l := f s]> (heap σ)) (world σ)).

(** [copy.deepcopy(obj)]: a new object with the same attribute values. *)
Definition deepcopy (l : loc) : M state loc :=
  s ← read l;
  σ ← get_state;
  modify_state (λ σ, mkState (heap σ ++ [s]) (world σ));;
  mret (length (heap σ)).

(** The local variables that the exploration loop updates. *)
Record loop_vars : Type := mkVars {
  v_step_ndead : list Z;
  v_runs_at_resumes : gmap Z Run;
  v_add_points : bool;
  v_output : option Output
}.

(** Lines 78-98: the body of [while add_points]. *)
Definition explore_iter (pc_settings : loc) (ninit init_step : Z)
    (vs : loop_vars) : M state loop_vars :=
  let step_ndead := v_step_ndead vs in
  (if bool_decide (length step_ndead = 1%nat)
   then setattr pc_settings (set_read_resume true) else mret tt);;
  setattr pc_settings
    (set_max_ndead ((Z.of_nat (length step_ndead) + 1) * init_step));;
  s ← read pc_settings;
  output ← ext (run_polychord s);
  s ← read pc_settings;
  let step_ndead := step_ndead ++ [ndead output - nlive s] in
  run ← ext (λ w, (process_polychord_run
                     (base_dir s +:+ "/" +:+ file_root s) w, w));
  lift (assert_that
          (bool_decide (Z.of_nat (length (thread_labels run)) = ndead output))
          "__init__.py:87");;
  lift (assert_that
          (bool_decide
             (Z.of_nat (length (np_unique (thread_labels run))) = ninit))
          "__init__.py:88");;
  let runs_at_resumes := <[ndead output := run]> (v_runs_at_resumes vs) in
  last_step ← lift (index_Z step_ndead (-1));
  ext (copyfile (base_dir s +:+ "/" +:+ file_root s +:+ ".resume")
         (base_dir s +:+ "/" +:+ file_root s +:+ "_"
            +:+ pretty last_step +:+ ".resume"));;
  add_points ←
    (if (2 <=? length step_ndead)%nat then
       a ← lift (index_Z step_ndead (-1));
       b ← lift (index_Z step_ndead (-2));
       mret (if a =? b + 1 then false else v_add_points vs)
     else mret (v_add_points vs));
  mret (mkVars step_ndead runs_at_resumes add_points (Some output)).

(** Lines 77-98: [while add_points]. *)
Fixpoint explore_loop (fuel : nat) (pc_settings : loc) (ninit init_step : Z)
    (vs : loop_vars) : M state loop_vars :=
  if v_add_points vs then
    match fuel with
    | O => lift OutOfFuel
    | S fuel' =>
        vs' ← explore_iter pc_settings ninit init_step vs;
        explore_loop fuel' pc_settings ninit init_step vs'
    end
  else mret vs.

(** Lines 148-151: [for snd in step_ndead: os.remove(...)]. *)
Fixpoint remove_resumes (prefix : string) (step_ndead : list Z)
    : M state unit :=
  match step_ndead with
  | [] => mret tt
  | snd :: rest =>
      ext (remove (prefix +:+ "_init_" +:+ pretty snd +:+ ".resume"));;
      remove_resumes prefix rest
  end.

Definition run_dynamic_polychord (fuel : nat) (pc_settings_in : loc)
    (kw : kwargs) : M state unit :=
  s_in ← read pc_settings_in;
  let ninit := default 10 (kw_ninit kw) in
  let init_step := default ninit (kw_init_step kw) in
  let dyn_nlive_step := default 1 (kw_dyn_nlive_step kw) in
  let nlive_const := default (nlive s_in) (kw_nlive_const kw) in
  (if bool_decide (kw_other kw = []) then mret tt else raise TypeError);;
  s_in ← read pc_settings_in;
  lift (assert_that (bool_decide (nlives s_in = ∅)) "__init__.py:65");;
  lift (assert_that (negb (read_resume s_in)) "__init__.py:66");;
  (* do initial run *)
  pc_settings ← deepcopy pc_settings_in;
  s_in ← read pc_settings_in;
  setattr pc_settings (set_file_root (file_root s_in +:+ "_init"));;
  setattr pc_settings (set_nlive ninit);;
  setattr pc_settings (set_write_resume true);;
  setattr pc_settings (set_read_resume false);;
  vs ← explore_loop fuel pc_settings ninit init_step
         (mkVars [] ∅ true None);
  let step_ndead := v_step_ndead vs in
  s ← read pc_settings;
  init_run ← ext (λ w, (process_polychord_run
                          (base_dir s +:+ "/" +:+ file_root s) w, w));
  (* work out a new allocation of live points *)
  pc_settings ← deepcopy pc_settings_in;
  let logx_init := get_logx (nlive_array init_run) in
  let w_rel := rel_posterior_mass logx_init (logl init_run) in
  s_in ← read pc_settings_in;
  nlives_array ← lift (scale_w_rel double_mul double_div w_rel
                         (max_ndead s_in)
                         (length (logl init_run)) nlive_const ninit);
  peak_start_ind ← lift (peak_start nlives_array ninit);
  let nlives_array := clamp_before nlives_array peak_start_ind ninit in
  nlives_dict ← lift (make_nlives_dict nlives_array (logl init_run)
                        (length w_rel) dyn_nlive_step ninit);
  resume_ndead ← lift (resume_select step_ndead peak_start_ind);
  setattr pc_settings (set_nlive dyn_nlive_step);;
  setattr pc_settings (set_nlives nlives_dict);;
  setattr pc_settings (set_read_resume true);;
  s ← read pc_settings;
  ext (copyfile (base_dir s +:+ "/" +:+ file_root s +:+ "_init_"
                   +:+ pretty resume_ndead +:+ ".resume")
         (base_dir s +:+ "/" +:+ file_root s +:+ "_dyn.resume"));;
  s_in ← read pc_settings_in;
  setattr pc_settings (set_file_root (file_root s_in +:+ "_dyn"));;
  s ← read pc_settings;
  dyn_output ← ext (run_polychord s);
  if comm_rank =? 0 then
    s_in ← read pc_settings_in;
    remove_resumes (base_dir s_in +:+ "/" +:+ file_root s_in) step_ndead;;
    s ← read pc_settings;
    ext (save_info s dyn_output (Some resume_ndead))
  else mret tt.

(** Lines 21-43: [run_standard_polychord].  The sampler is handed the
    caller's settings object itself. *)
Definition run_standard_polychord (pc_settings : loc) (other : list string)
    : M state unit :=
  s ← read pc_settings;
  lift (assert_that (bool_decide (nlives s = ∅)) "__init__.py:32");;
  s ← read pc_settings;
  output ← ext (run_polychord s);
  if comm_rank =? 0 then
    s ← read pc_settings;
    ext (save_info s output None)
  else mret tt.

(** The frame property of a computation [c]: it leaves every object of
    [h0] as it is, whatever its outcome, and a value it returns satisfies
    [Q]. *)
Definition keeps (h0 : list Settings) {A} (c : M state A) (Q : A → Prop)
    : Prop :=
  ∀ σ, h0 `prefix_of` heap σ →
       h0 `prefix_of` heap (c σ).2 ∧ ∀ a, (c σ).1 = Ok a → Q a.
End driver.
End Driver.

(** The history ends with two counts that differ by exactly one. *)
Definition ends_plus_one (h : list Z) : Prop :=
  ∃ pre a, h = pre ++ [a; a + 1].

(** The value of an outcome, or a default. *)
Definition value_of {A} (d : A) (r : res A) : A :=
  match r with Ok a => a | _ => d end.

(** ** A synthetic sampler

    A collaborator for running the driver on a concrete input: the state
    of the world is the number of sampler calls made so far; the sampler
    reports the dead counts 60, 110, 111 (with [ninit = 10] live points
    that is the step history 50, 100, 101) and the loader returns a run
    with that many samples on ten threads. *)

Module Synthetic.
Definition reported : list Z := [60; 110; 111].

Definition syn_run_polychord (s : Settings) (calls : nat) : res Output * nat :=
  (Ok (mkOutput (nth calls reported 0) 0), S calls).

Definition run_of (n : nat) : Run :=
  mkRun (replicate n [])
        ((λ i, Fin (Z.of_nat i)) <$> seq 0 n)
        (replicate n 10)
        ((λ i, Z.of_nat (i mod 10)) <$> seq 0 n)
        (replicate 10 (NInf, Fin (Z.of_nat n)))
        ∅.

Definition syn_process_polychord_run (root : string) (calls : nat) : res Run :=
  Ok (run_of (Z.to_nat (nth (calls - 1) reported 0))).

Definition syn_get_logx (nlive_array : list Z) : list Q :=
  (λ _, 0%Q) <$> nlive_array.

(** All the posterior mass on the samples 60 to 79. *)
Definition syn_rel_posterior_mass (logx : list Q) (logl : list fl) : list Q :=
  (λ i, if (60 <=? i)%nat && (i <? 80)%nat then 1 # 20 else 0)%Q
    <$> seq 0 (length logl).

(** The arithmetic of the synthetic run: exact products and quotients. *)
Definition syn_double_mul (x : Q) (c : Z) : Q := (x * inject_Z c)%Q.

Definition syn_double_div (x : Q) (c : Z) : Q := (x / inject_Z c)%Q.

Definition syn_copyfile (src dst : string) (calls : nat) : res unit * nat :=
  (Ok tt, calls).

Definition syn_remove (path : string) (calls : nat) : res unit * nat :=
  (Ok tt, calls).

Definition syn_save_info (s : Settings) (o : Output) (resume_ndead : option Z)
    (calls : nat) : res unit * nat :=
  (Ok tt, calls).

Definition settings_in : Settings :=
  mkSettings "gauss" "chains" 200 ∅ false false 1000.

Definition no_kwargs : kwargs := mkKwargs None (Some 50) None None [].

Definition syn_explore_iter :=
  Driver.explore_iter nat syn_run_polychord syn_process_polychord_run
    syn_copyfile.

Definition syn_explore_loop :=
  Driver.explore_loop nat syn_run_polychord syn_process_polychord_run
    syn_copyfile.

Definition syn_run_dynamic_polychord :=
  Driver.run_dynamic_polychord nat syn_run_polychord syn_process_polychord_run
    syn_get_logx syn_rel_posterior_mass syn_double_mul syn_double_div
    syn_copyfile syn_remove syn_save_info 0.

(** The state before the third iteration of the exploration loop. *)
Definition vars2 : Driver.loop_vars := Driver.mkVars [50; 100] ∅ true None.

Definition state2 : Driver.state nat :=
  Driver.mkState nat
    [settings_in; mkSettings "gauss_init" "chains" 10 ∅ true true 100] 2%nat.

Definition vars3 : Driver.loop_vars :=
  value_of vars2 (syn_explore_iter 1%nat 10 50 vars2 state2).1.

Definition state3 : Driver.state nat :=
  (syn_explore_iter 1%nat 10 50 vars2 state2).2.
End Synthetic.

(** ** Threads and their combination (nestcheck) *)

Definition site_birth_point : string := "nestcheck:birth point".

Definition set_theta (v : list (list Q)) (r : Run) : Run :=
  mkRun v (logl r) (nlive_array r) (thread_labels r) (thread_min_max r)
    (output r).
Definition set_logl (v : list fl) (r : Run) : Run :=
  mkRun (theta r) v (nlive_array r) (thread_labels r) (thread_min_max r)
    (output r).
Definition set_nlive_array (v : list Z) (r : Run) : Run :=
  mkRun (theta r) (logl r) v (thread_labels r) (thread_min_max r) (output r).
Definition set_thread_labels (v : list Z) (r : Run) : Run :=
  mkRun (theta r) (logl r) (nlive_array r) v (thread_min_max r) (output r).
Definition set_thread_min_max (v : list (fl * fl)) (r : Run) : Run :=
  mkRun (theta r) (logl r) (nlive_array r) (thread_labels r) v (output r).
Definition set_output (v : gmap string pyval) (r : Run) : Run :=
  mkRun (theta r) (logl r) (nlive_array r) (thread_labels r)
    (thread_min_max r) v.

(** One row of a run: a dead point. *)
Record Sample : Type := mkSample {
  s_logl : fl;
  s_label : Z;
  s_nlive : Z;
  s_theta : list Q
}.

(** A thread: its samples and its birth and death bounds. *)
Record Thread : Type := mkThread {
  th_samples : list Sample;
  th_min_max : fl * fl
}.

Fixpoint zip_samples (ls : list fl) (labs nl : list Z) (th : list (list Q))
    : list Sample :=
  match ls, labs, nl, th with
  | l :: ls', b :: labs', n :: nl', t :: th' =>
      mkSample l b n t :: zip_samples ls' labs' nl' th'
  | _, _, _, _ => []
  end.

(** The rows of a run; the four arrays must have one entry per sample. *)
Definition run_samples (r : Run) : res (list Sample) :=
  if bool_decide (length (thread_labels r) = length (logl r)
                  ∧ length (nlive_array r) = length (logl r)
                  ∧ length (theta r) = length (logl r))
  then Ok (zip_samples (logl r) (thread_labels r) (nlive_array r) (theta r))
  else Raise ValueError.

Fixpoint threads_from (samples : list Sample) (tmm : list (fl * fl))
    (i : nat) (labs : list Z) : res (list Thread) :=
  match labs with
  | [] => Ok []
  | th_lab :: rest =>
      bounds ← index tmm i;
      ths ← threads_from samples tmm (S i) rest;
      Ok (mkThread (filter (λ x, s_label x = th_lab) samples) bounds :: ths)
  end.

(** Modelled from the spec: [nestcheck.ns_run_utils.get_run_threads],
    which is not part of the repository.  A run is split into its
    threads: the samples of the i-th distinct thread label, with row [i]
    of [thread_min_max] as their bounds (section 3, Thread and Run). *)
Definition get_run_threads (r : Run) : res (list Thread) :=
  samples ← run_samples r;
  threads_from samples (thread_min_max r) 0 (np_unique (thread_labels r)).

Definition sample_le (a b : Sample) : Prop := fl_le (s_logl a) (s_logl b).

#[global] Instance sample_le_dec : RelDecision sample_le.
Proof. intros a b. unfold sample_le. apply _. Defined.

(** The samples of the threads, each labelled with the position of its
    thread. *)
Definition labelled_samples (threads : list Thread) : list Sample :=
  mjoin (imap (λ i t, (λ x, mkSample (s_logl x) (Z.of_nat i) (s_nlive x)
                              (s_theta x)) <$> th_samples t) threads).

(** The number of threads whose bounds cover a log-likelihood. *)
Definition coverage (bounds : list (fl * fl)) (l : fl) : Z :=
  Z.of_nat (length (filter (λ b, fl_ltb b.1 l && fl_leb l b.2 = true) bounds)).

(** Modelled from the spec: [nestcheck.ns_run_utils.combine_threads],
    which is not part of the repository (section 4.4): the threads are
    concatenated, the samples ordered by log-likelihood, [nlive_array]
    re-derived by counting thread coverage, and every birth bound must
    be [-inf] or the log-likelihood of a sample of the merged set. *)
Definition combine_threads (threads : list Thread) (assert_birth_point : bool)
    : res Run :=
  let bounds := th_min_max <$> threads in
  let samples := merge_sort sample_le (labelled_samples threads) in
  let logls := s_logl <$> samples in
  assert_that
    (negb assert_birth_point
     || forallb (λ b, bool_decide (b.1 = NInf) || bool_decide (b.1 ∈ logls))
          bounds)
    site_birth_point;;
  Ok (mkRun (s_theta <$> samples) logls (coverage bounds <$> logls)
        (s_label <$> samples) bounds ∅).

(** Modelled from the spec: [nestcheck.ns_run_utils.combine_ns_runs] on
    two runs (section 4.4, independent case): the thread collections of
    both runs are concatenated and combined. *)
Definition combine_ns_runs (a b : Run) : res Run :=
  ta ← get_run_threads a;
  tb ← get_run_threads b;
  combine_threads (ta ++ tb) false.

(** ** The merge, [output_processing.py] *)

(** [a[:k]] and [a[k:]] for an integer [k]: a negative [k] counts from
    the end. *)
Definition slice_to {A} (k : Z) (l : list A) : list A :=
  if 0 <=? k then take (Z.to_nat k) l
  else take (length l - Z.to_nat (- k)) l.

Definition slice_from {A} (k : Z) (l : list A) : list A :=
  if 0 <=? k then drop (Z.to_nat k) l
  else drop (length l - Z.to_nat (- k)) l.

(** [tmm[i, 0] = v] *)
Definition set_birth (tmm : list (fl * fl)) (i : nat) (v : fl)
    : res (list (fl * fl)) :=
  row ← index tmm i;
  Ok (<[i := (v, row.2)]> tmm).

(** [a[inds] = v] *)
Definition set_at {A} (a : list A) (inds : list nat) (v : A) : list A :=
  foldr (λ j acc, <[j := v]> acc) a inds.

Definition eqb_Z (a : Z) : Z → bool := λ x, bool_decide (x = a).
Definition eqb_fl (a : fl) : fl → bool := λ x, bool_decide (x = a).

Definition site_prefix : string := "output_processing.py:91".
Definition site_live : string := "output_processing.py:106".
Definition site_birth : string := "output_processing.py:124".
Definition site_death : string := "output_processing.py:125".
Definition site_nan : string := "output_processing.py:126".

Module Merge.
(** The store of run dictionaries. *)
Abbreviation store := (list Run).

Definition readr (l : loc) : M store Run := λ σ, (index σ l, σ).

(** [run[key] = v], where [v] is computed from the run. *)
Definition setitem (l : loc) (f : Run → Run) : M store unit :=
  r ← readr l;
  modify_state (λ σ, <[l := f r]> σ).

(** A newly loaded run dictionary. *)
Definition alloc (r : Run) : M store loc := λ σ, (Ok (length σ), σ ++ [r]).

(** Lines 91-95: the shared prefix is checked and cut off. *)
Definition truncate_init (init dyn : loc) (resume_ndead : Z) : M store unit :=
  i ← readr init;
  d ← readr dyn;
  lift (assert_that
          (array_equal (slice_to resume_ndead (logl i))
             (slice_to resume_ndead (logl d)))
          site_prefix);;
  setitem init (λ r, set_theta (slice_from resume_ndead (theta r)) r);;
  setitem init (λ r, set_nlive_array (slice_from resume_ndead (nlive_array r)) r);;
  setitem init (λ r, set_logl (slice_from resume_ndead (logl r)) r);;
  setitem init (λ r, set_thread_labels
                       (slice_from resume_ndead (thread_labels r)) r).

(** Lines 100-108: the loop over [enumerate(np.unique(thread_labels))]. *)
Fixpoint live_loop (init dyn : loc) (i : nat) (labs : list Z)
    (live_inds empty_thread_inds : list nat)
    : M store (list nat * list nat) :=
  match labs with
  | [] => mret (live_inds, empty_thread_inds)
  | th_lab :: rest =>
      r ← readr init;
      let th_inds := np_where (eqb_Z th_lab) (thread_labels r) in
      th0 ← lift (index th_inds 0);
      let live_inds := live_inds ++ [th0] in
      r ← readr init;
      live_logl ← lift (index (logl r) th0);
      let empty_thread_inds :=
        if bool_decide (length th_inds = 1%nat)
        then empty_thread_inds ++ [i] else empty_thread_inds in
      d ← readr dyn;
      lift (assert_that
              (bool_decide
                 (length (np_where (eqb_fl live_logl) (logl d)) = 1%nat))
              site_live);;
      r ← readr init;
      tmm ← lift (set_birth (thread_min_max r) i live_logl);
      setitem init (set_thread_min_max tmm);;
      live_loop init dyn (S i) rest live_inds empty_thread_inds
  end.

(** Lines 110-112. *)
Definition delete_live (init : loc) (live_inds : list nat) : M store unit :=
  r ← readr init;
  v ← lift (np_delete (theta r) live_inds);
  setitem init (set_theta v);;
  r ← readr init;
  v ← lift (np_delete (nlive_array r) live_inds);
  setitem init (set_nlive_array v);;
  r ← readr init;
  v ← lift (np_delete (logl r) live_inds);
  setitem init (set_logl v);;
  r ← readr init;
  v ← lift (np_delete (thread_labels r) live_inds);
  setitem init (set_thread_labels v).

(** Lines 120-125: the loop that renumbers the threads. *)
Fixpoint relabel_loop (init : loc) (i : nat) (labs : list Z)
    (thread_labels_new : list (option Z)) : M store (list (option Z)) :=
  match labs with
  | [] => mret thread_labels_new
  | th_lab :: rest =>
      r ← readr init;
      let inds := np_where (eqb_Z th_lab) (thread_labels r) in
      let thread_labels_new :=
        set_at thread_labels_new inds (Some (Z.of_nat i)) in
      r ← readr init;
      row ← lift (index (thread_min_max r) i);
      i0 ← lift (index inds 0);
      l0 ← lift (index (logl r) i0);
      lift (assert_that (fl_leb row.1 l0) site_birth);;
      r ← readr init;
      row ← lift (index (thread_min_max r) i);
      i1 ← lift (index_Z inds (-1));
      l1 ← lift (index (logl r) i1);
      lift (assert_that (bool_decide (row.2 = l1)) site_death);;
      relabel_loop init (S i) rest thread_labels_new
  end.

(** Lines 115-127: the threads that are now empty are removed. *)
Definition drop_empty_threads (init : loc) (empty_thread_inds : list nat)
    : M store unit :=
  r ← readr init;
  tmm ← lift (np_delete (thread_min_max r) empty_thread_inds);
  setitem init (set_thread_min_max tmm);;
  r ← readr init;
  let thread_labels_new := replicate (length (thread_labels r)) None in
  r ← readr init;
  thread_labels_new ←
    relabel_loop init 0 (np_unique (thread_labels r)) thread_labels_new;
  lift (assert_that (forallb (λ x : option Z, bool_decide (is_Some x))
                       thread_labels_new) site_nan);;
  setitem init (set_thread_labels (default 0 <$> thread_labels_new)).

(** Lines 109-135: the live points are deleted and the runs combined. *)
Definition merge_tail (init dyn : loc) (live_inds empty_thread_inds : list nat)
    : M store Run :=
  delete_live init live_inds;;
  (if bool_decide (empty_thread_inds = []) then mret tt
   else drop_empty_threads init empty_thread_inds);;
  r ← readr init;
  d ← readr dyn;
  setitem init (set_thread_labels
                  ((λ x, x + Z.of_nat (length (thread_min_max d)))
                     <$> thread_labels r));;
  d ← readr dyn;
  threads_dyn ← lift (get_run_threads d);
  r ← readr init;
  threads_init ← lift (get_run_threads r);
  lift (combine_threads (threads_dyn ++ threads_init) true).

(** Lines 82-135. *)
Definition combine_resumed_dyn_run (init dyn : loc) (resume_ndead : Z)
    : M store Run :=
  truncate_init init dyn resume_ndead;;
  r ← readr init;
  '(live_inds, empty_thread_inds) ←
    live_loop init dyn 0 (np_unique (thread_labels r)) [] [];
  merge_tail init dyn live_inds empty_thread_inds.
End Merge.

(** Strictly increasing integers. *)
Definition increasing (l : list Z) : Prop := StronglySorted Z.lt l.

(** ** What the merge leaves in the exploratory run

    Descriptions of the effect of the phases of
    [combine_resumed_dyn_run] on the run dictionary [init], used to state
    what the function does to it. *)

(** The store in which the object [init] holds the run [i]. *)
Definition with_run (σ : list Run) (init : loc) (i : Run) : list Run :=
  <[init := i]> σ.

(** After lines 93-95. *)
Definition truncated (k : Z) (i : Run) : Run :=
  mkRun (slice_from k (theta i)) (slice_from k (logl i))
    (slice_from k (nlive_array i)) (slice_from k (thread_labels i))
    (thread_min_max i) (output i).

(** The first sample of a thread. *)
Definition th_first (labels : list Z) (lab : Z) : option nat :=
  head (np_where (eqb_Z lab) labels).

(** The live-at-resume points: the first sample of every thread. *)
Definition live_inds_of (labels : list Z) : list nat :=
  omap (th_first labels) (np_unique labels).

(** The log-likelihood of the live point of a thread. *)
Definition live_logl_of (labels : list Z) (logls : list fl) (lab : Z)
    : option fl :=
  j ← th_first labels lab; logls !! j.

(** The positions, counted from [i], of the threads that have a single
    sample. *)
Fixpoint empty_inds_from (labels : list Z) (i : nat) (labs : list Z)
    : list nat :=
  match labs with
  | [] => []
  | lab :: rest =>
      (if bool_decide (length (np_where (eqb_Z lab) labels) = 1%nat)
       then [i] else []) ++ empty_inds_from labels (S i) rest
  end.

(** The bounds once the birth of every thread is set to the
    log-likelihood of its live point. *)
Fixpoint births_from (labels : list Z) (logls : list fl) (i : nat)
    (labs : list Z) (tmm : list (fl * fl)) : list (fl * fl) :=
  match labs with
  | [] => tmm
  | lab :: rest =>
      match live_logl_of labels logls lab, tmm !! i with
      | Some v, Some row =>
          births_from labels logls (S i) rest (<[i := (v, row.2)]> tmm)
      | _, _ => tmm
      end
  end.

(** The new labels that the loop of lines 120-125 computes. *)
Fixpoint relabelled (labels : list Z) (i : nat) (labs : list Z)
    (thread_labels_new : list (option Z)) : list (option Z) :=
  match labs with
  | [] => thread_labels_new
  | lab :: rest =>
      relabelled labels (S i) rest
        (set_at thread_labels_new (np_where (eqb_Z lab) labels)
           (Some (Z.of_nat i)))
  end.

(** The exceptions of the loop of lines 120-125. *)
Definition relabel_error (e : exn) : Prop :=
  e = IndexError ∨ e = AssertionError site_birth
  ∨ e = AssertionError site_death.

(** The exceptions of the loaders and of the combination of threads. *)
Definition combine_error (e : exn) : Prop :=
  e = IndexError ∨ e = ValueError ∨ e = AssertionError site_birth_point.

(** The labels after lines 119-127. *)
Definition relabel_all (labels : list Z) : list Z :=
  default 0 <$> relabelled labels 0 (np_unique labels)
                  (replicate (length labels) None).

(** After lines 110-112. *)
Definition live_deleted (live_inds : list nat) (i : Run) : Run :=
  mkRun (delete_from 0 live_inds (theta i)) (delete_from 0 live_inds (logl i))
    (delete_from 0 live_inds (nlive_array i))
    (delete_from 0 live_inds (thread_labels i))
    (thread_min_max i) (output i).

(** After lines 110-130, with [T] threads in [dyn]. *)
Definition tail_merged (T : nat) (live_inds empty_thread_inds : list nat)
    (i : Run) : Run :=
  let j := live_deleted live_inds i in
  mkRun (theta j) (logl j) (nlive_array j)
    ((λ x, x + Z.of_nat T)
       <$> (if bool_decide (empty_thread_inds = []) then thread_labels j
            else relabel_all (thread_labels j)))
    (if bool_decide (empty_thread_inds = []) then thread_min_max j
     else delete_from 0 empty_thread_inds (thread_min_max j))
    (output j).

(** The live point of the thread [lab] occurs exactly once in [dyn]. *)
Definition live_once (labels : list Z) (logls dyn_logl : list fl) (lab : Z)
    : Prop :=
  ∃ v, live_logl_of labels logls lab = Some v ∧
       length (np_where (eqb_fl v) dyn_logl) = 1%nat.

(** The live point of the thread [lab] occurs in [dyn] not at all or
    more than once. *)
Definition live_not_once (labels : list Z) (logls dyn_logl : list fl) (lab : Z)
    : Prop :=
  ∃ v, live_logl_of labels logls lab = Some v ∧
       length (np_where (eqb_fl v) dyn_logl) ≠ 1%nat.

(** ** The effect of the merge, position by position

    What [combine_resumed_dyn_run] leaves in [init], said without the
    functions of the model: with [drop], the positions of a list, and
    counts. *)

(** The position [j] holds the first sample of its thread: its label
    does not occur before. *)
Definition first_of_thread (labels : list Z) (j : nat) : Prop :=
  match labels !! j with
  | Some lab => lab ∉ take j labels
  | None => False
  end.

#[global] Instance first_of_thread_dec (labels : list Z) (j : nat) :
  Decision (first_of_thread labels j).
Proof. unfold first_of_thread. destruct (labels !! j); apply _. Defined.

(** The list [l] without the positions that satisfy [P]. *)
Definition without {A} (P : nat → Prop) `{!∀ j, Decision (P j)} (l : list A)
    : list A :=
  (filter (λ p : nat * A, ¬ P p.1) (imap pair l)).*2.

(** The list [l] without the first sample of every thread. *)
Definition without_live (labels : list Z) {A} (l : list A) : list A :=
  without (first_of_thread labels) l.





(** ** Loading and merging, [process_dypolychord_run] *)

(** The keyword arguments of [process_dypolychord_run]: [dynamic_goal]
    must be given (its value may be [None]), [logl_warn_only] may be. *)
Record pkwargs : Type := mkPkwargs {
  pk_dynamic_goal : option pyval;
  pk_logl_warn_only : option bool;
  pk_other : list string
}.

(** [d[key]] for an entry that holds an integer. *)
Definition get_int (d : gmap string pyval) (key : string) : res Z :=
  match d !! key with
  | Some (PInt n) => Ok n
  | Some _ => Raise TypeError
  | None => Raise (KeyError key)
  end.

(** [np.all(run['thread_min_max'][:, 0] == -np.inf)] *)
Definition all_born_at_start (r : Run) : bool :=
  forallb (λ b : fl * fl, bool_decide (b.1 = NInf)) (thread_min_max r).

Definition site_init_birth : string := "output_processing.py:47".
Definition site_dyn_birth : string := "output_processing.py:56".

Module Processing.
Import Merge.
Section processing.
(** External collaborators: the loader of a run (file root, directory,
    [logl_warn_only]), the loader of the pickled information of the
    dynamic run, [os.path.join], and nestcheck's check of a run. *)
Variable process_polychord_run : string → string → bool → res Run.
Variable pickle_load : string → res (gmap string pyval).
Variable path_join : string → string → string.
Variable check_ns_run : Run → res unit.

(** [combine_resumed_dyn_run(init, dyn, resume_ndead)] for the value that
    the information holds.  With [None], the slice [[:None]] of line 91
    is the whole array and the slices [[None:]] of lines 92-94 are the
    slices [[0:]]; a string is not a slice bound. *)
Definition combine_resumed_with (init dyn : loc) (resume_ndead : pyval)
    : M store Run :=
  match resume_ndead with
  | PInt n => combine_resumed_dyn_run init dyn n
  | PNone =>
      i ← readr init;
      d ← readr dyn;
      lift (assert_that (array_equal (logl i) (logl d)) site_prefix);;
      combine_resumed_dyn_run init dyn 0
  | PStr _ => raise TypeError
  end.

(** Lines 58-69: the two ways of combining the runs. *)
Definition combine_runs (init dyn : loc) (dyn_info : gmap string pyval)
    : M store (Run * gmap string pyval) :=
  match dyn_info !! "resume_ndead" with
  | None =>
      i ← readr init;
      d ← readr dyn;
      run ← lift (combine_ns_runs i d);
      i ← readr init;
      a ← lift (get_int (output i) "nlike");
      d ← readr dyn;
      b ← lift (get_int (output d) "nlike");
      mret (run, <["nlike" := PInt (a + b)]> dyn_info)
  | Some resume_ndead =>
      run ← combine_resumed_with init dyn resume_ndead;
      i ← readr init;
      a ← lift (get_int (output i) "nlike");
      d ← readr dyn;
      b ← lift (get_int (output d) "nlike");
      c ← lift (get_int dyn_info "resume_nlike");
      mret (run, <["nlike" := PInt (a + b - c)]> dyn_info)
  end.

(** Lines 36-79. *)
Definition process_dypolychord_run (file_root base_dir : string)
    (kw : pkwargs) : M store Run :=
  dynamic_goal ← lift (match pk_dynamic_goal kw with
                       | Some v => Ok v
                       | None => Raise (KeyError "dynamic_goal")
                       end);
  let logl_warn_only := default false (pk_logl_warn_only kw) in
  (if bool_decide (pk_other kw = []) then mret tt else raise TypeError);;
  init_run ← lift (process_polychord_run (file_root +:+ "_init") base_dir
                     logl_warn_only);
  init ← alloc init_run;
  i ← readr init;
  lift (assert_that (all_born_at_start i) site_init_birth);;
  dyn_run ← lift (process_polychord_run (file_root +:+ "_dyn") base_dir
                    logl_warn_only);
  dyn ← alloc dyn_run;
  dyn_info ← lift (pickle_load (path_join base_dir (file_root +:+ "_dyn_info")));
  (if bool_decide (dynamic_goal = PInt 0) then
     d ← readr dyn;
     lift (assert_that (all_born_at_start d) site_dyn_birth)
   else mret tt);;
  '(run, dyn_info) ← combine_runs init dyn dyn_info;
  i ← readr init;
  init_nlike ← lift (get_int (output i) "nlike");
  d ← readr dyn;
  dyn_nlike ← lift (get_int (output d) "nlike");
  let info :=
    <["dyn_nlike" := PInt dyn_nlike]>
      (<["init_nlike" := PInt init_nlike]>
         (<["dynamic_goal" := dynamic_goal]>
            (<["base_dir" := PStr base_dir]>
               (<["file_root" := PStr file_root]> dyn_info)))) in
  let run := set_output info run in
  lift (check_ns_run run);;
  mret run.
End processing.
End Processing.

(** ** Synthetic runs for the merge *)

Module MergeExamples.
Definition run_of_logl (ls labs : list Z) (tmm : list (fl * fl)) : Run :=
  mkRun ((λ _, []) <$> ls) (Fin <$> ls) ((λ _, 2) <$> ls) labs tmm ∅.

(** An exploratory run of two threads, and a dynamic run resumed from
    it after two dead points: they share the samples 10 and 20, and the
    points 30 and 40 were live at the resume. *)
Definition init_a : Run :=
  run_of_logl [10; 20; 30; 40; 50; 60; 70; 80] [0; 1; 0; 1; 0; 1; 0; 1]
    [(NInf, Fin 70); (NInf, Fin 80)].

Definition dyn_a : Run :=
  run_of_logl [10; 20; 30; 40; 45; 47; 55; 90] [0; 1; 0; 1; 0; 1; 0; 1]
    [(NInf, Fin 55); (NInf, Fin 90)].

(** A dynamic run in which the live point 40 does not occur. *)
Definition dyn_c : Run :=
  run_of_logl [10; 20; 30; 45; 47; 55; 90] [0; 1; 0; 1; 0; 1; 0]
    [(NInf, Fin 90); (NInf, Fin 55)].

(** Two runs whose common prefix is exactly 10, 20: the dynamic run goes
    on with 25, then come the points 30 and 40 that were live at the
    resume, and both runs hold a sample with log-likelihood 50. *)
Definition init_b : Run :=
  run_of_logl [10; 20; 30; 40; 50] [0; 1; 0; 1; 0]
    [(NInf, Fin 50); (NInf, Fin 40)].

Definition dyn_b : Run :=
  run_of_logl [10; 20; 25; 30; 40; 50] [0; 1; 2; 0; 1; 0]
    [(NInf, Fin 50); (NInf, Fin 40); (Fin 20, Fin 25)].

(** The merged run and the store after merging [init_a] and [dyn_a]. *)
Definition result_a : res Run * list Run :=
  Merge.combine_resumed_dyn_run 0%nat 1%nat 2 [init_a; dyn_a].

Definition merged_a : Run := value_of init_a result_a.1.

(** The outcome and the store after merging [init_a] and [dyn_c]. *)
Definition result_c : res Run * list Run :=
  Merge.combine_resumed_dyn_run 0%nat 1%nat 2 [init_a; dyn_c].

(** The merged run of [init_b] and [dyn_b]. *)
Definition merged_b : Run :=
  mkRun (replicate 7 []) (Fin <$> [10; 20; 25; 30; 40; 50; 50])
    [2; 2; 3; 2; 3; 2; 2] [0; 1; 2; 0; 1; 3; 0]
    [(NInf, Fin 50); (NInf, Fin 40); (Fin 20, Fin 25); (Fin 30, Fin 50)] ∅.
End MergeExamples.

(** ** The root of the file names, [settings_root] *)

(** The keyword arguments of [settings_root]: an entry is [None] when
    the keyword is not given.  [sk_other] are the names of the keywords
    that are left once the known ones are popped. *)
Record skwargs : Type := mkSkwargs {
  sk_prior_scale : option pyval;
  sk_dynamic_goal : option pyval;
  sk_nlive_const : option pyval;
  sk_nrepeats : option pyval;
  sk_ninit : option pyval;
  sk_init_step : option pyval;
  sk_other : list string
}.

(** [str(v)] for the values of the model. *)
Definition py_str (v : pyval) : string :=
  match v with
  | PNone => "None"
  | PInt n => pretty n
  | PStr s => s
  end.

(** [kwargs.pop(key)] *)
Definition pop_required (o : option pyval) (key : string) : res pyval :=
  match o with
  | Some v => Ok v
  | None => Raise (KeyError key)
  end.

Definition site_ninit : string := "output_processing.py:25".
Definition site_init_step : string := "output_processing.py:28".

(** Lines 12-33. *)
Definition settings_root (likelihood_name prior_name : string) (ndims : Z)
    (kw : skwargs) : res string :=
  prior_scale ← pop_required (sk_prior_scale kw) "prior_scale";
  dynamic_goal ← pop_required (sk_dynamic_goal kw) "dynamic_goal";
  nlive_const ← pop_required (sk_nlive_const kw) "nlive_const";
  nrepeats ← pop_required (sk_nrepeats kw) "nrepeats";
  let ninit := default PNone (sk_ninit kw) in
  let init_step := default PNone (sk_init_step kw) in
  (if bool_decide (sk_other kw = []) then Ok tt else Raise TypeError);;
  let root :=
    likelihood_name +:+ "_" +:+ prior_name +:+ "_" +:+ py_str prior_scale in
  let root := root +:+ "_dg" +:+ py_str dynamic_goal in
  root ←
    (if bool_decide (dynamic_goal = PNone) then Ok root
     else
       assert_that (negb (bool_decide (ninit = PNone))) site_ninit;;
       let root := root +:+ "_" +:+ py_str ninit +:+ "init" in
       if bool_decide (dynamic_goal = PInt 0) then Ok root
       else
         assert_that (negb (bool_decide (init_step = PNone))) site_init_step;;
         Ok (root +:+ "_" +:+ py_str init_step +:+ "is"));
  let root := root +:+ "_" +:+ pretty ndims +:+ "d" in
  let root := root +:+ "_" +:+ py_str nlive_const +:+ "nlive" in
  let root := root +:+ "_" +:+ py_str nrepeats +:+ "nrepeats" in
  Ok root.

(** ** Descriptions of an iteration of the exploration loop *)

(** The settings the sampler is called with in the iteration that
    follows the step history [h]: the cap is extended by [init_step],
    and the second call is the first one that resumes. *)
Definition call_settings (init_step : Z) (h : list Z) (s0 : Settings)
    : Settings :=
  set_max_ndead ((Z.of_nat (length h) + 1) * init_step)
    (if bool_decide (length h = 1%nat) then set_read_resume true s0 else s0).

(** [add_points] after the test of lines 96-98 on the history [h]. *)
Definition next_add_points (h : list Z) (add_points : bool) : bool :=
  match reverse h with
  | b :: a :: _ => if b =? a + 1 then false else add_points
  | _ => add_points
  end.

(** The caps of the first [n] sub-runs: [init_step], [2 * init_step],
    ... *)
Definition caps (init_step : Z) (n : nat) : list Z :=
  (λ j, (Z.of_nat j + 1) * init_step) <$> seq 0 n.

(** ** Synthetic loaders *)

Module ProcessingExamples.
(** An exploratory run with a thread that starts part way through. *)
Definition init_late : Run :=
  MergeExamples.run_of_logl [1; 2; 3; 4; 5] [0; 1; 0; 1; 0]
    [(NInf, Fin 5); (Fin 1, Fin 4)].

Definition ex_process_polychord_run (root dir : string) (logl_warn_only : bool)
    : res Run :=
  if bool_decide (root = "gauss_init") then Ok init_late
  else Ok MergeExamples.dyn_b.

Definition ex_pickle_load (path : string) : res (gmap string pyval) :=
  Ok {[ "resume_ndead" := PInt 2; "resume_nlike" := PInt 0 ]}.

Definition ex_path_join (a b : string) : string := a +:+ "/" +:+ b.

Definition ex_check_ns_run (r : Run) : res unit := Ok tt.

Definition kw_goal1 : pkwargs := mkPkwargs (Some (PInt 1)) None [].
End ProcessingExamples.

(** The attributes that the loop does not assign. *)
Definition same_static (s s' : Settings) : Prop :=
  file_root s' = file_root s ∧ base_dir s' = base_dir s ∧
  nlive s' = nlive s ∧ nlives s' = nlives s ∧
  write_resume s' = write_resume s.

(** The six entries that lines 61-75 write into the output. *)
Definition written_keys : list string :=
  ["nlike"; "file_root"; "base_dir"; "dynamic_goal"; "init_nlike";
   "dyn_nlike"].

(** ** The calls of a dynamic run to its collaborators

    The external collaborators with a log of the calls that the driver
    makes to the sampler, to [shutil.copyfile], to [os.remove] and to
    [save_info], in order.  The log records the call, not its
    outcome. *)

Inductive io_op : Type :=
  | Sampled (s : Settings)
  | Copied (src dst : string)
  | Removed (path : string)
  | Saved (s : Settings) (o : Output) (resume_ndead : option Z).

Module Logged.
Section logged.
Variable World : Type.
Variable run_polychord : Settings → World → res Output * World.
Variable process_polychord_run : string → World → res Run.
Variable get_logx : list Z → list Q.
Variable rel_posterior_mass : list Q → list fl → list Q.
Variable double_mul : Q → Z → Q.
Variable double_div : Q → Z → Q.
Variable copyfile : string → string → World → res unit * World.
Variable remove : string → World → res unit * World.
Variable save_info : Settings → Output → option Z → World → res unit * World.
Variable comm_rank : Z.

Definition log_run_polychord (s : Settings) (wl : World * list io_op)
    : res Output * (World * list io_op) :=
  let '(r, w') := run_polychord s wl.1 in (r, (w', wl.2 ++ [Sampled s])).

Definition log_process_polychord_run (root : string)
    (wl : World * list io_op) : res Run :=
  process_polychord_run root wl.1.

Definition log_copyfile (src dst : string) (wl : World * list io_op)
    : res unit * (World * list io_op) :=
  let '(r, w') := copyfile src dst wl.1 in
  (r, (w', wl.2 ++ [Copied src dst])).

Definition log_remove (path : string) (wl : World * list io_op)
    : res unit * (World * list io_op) :=
  let '(r, w') := remove path wl.1 in (r, (w', wl.2 ++ [Removed path])).

Definition log_save_info (s : Settings) (o : Output) (resume_ndead : option Z)
    (wl : World * list io_op) : res unit * (World * list io_op) :=
  let '(r, w') := save_info s o resume_ndead wl.1 in
  (r, (w', wl.2 ++ [Saved s o resume_ndead])).

(** [run_dynamic_polychord] on the logging collaborators. *)
Definition run_dynamic_polychord_logged (fuel : nat) (pc_settings_in : loc)
    (kw : kwargs) : M (Driver.state (World * list io_op)) unit :=
  Driver.run_dynamic_polychord (World * list io_op) log_run_polychord
    log_process_polychord_run get_logx rel_posterior_mass double_mul
    double_div log_copyfile
    log_remove log_save_info comm_rank fuel pc_settings_in kw.
End logged.

(** The checkpoint copy for the dead count [n] of the run with the
    settings [s_in]. *)
Definition checkpoint (s_in : Settings) (n : Z) : string :=
  base_dir s_in +:+ "/" +:+ file_root s_in +:+ "_init_" +:+ pretty n
    +:+ ".resume".

(** The settings of the sampler call of the iteration [k] (from 0) of a
    loop on the settings [s0]: the cap grows by [init_step], and every
    call but the first resumes. *)
Definition call_of (init_step : Z) (s0 : Settings) (k : nat) : Settings :=
  mkSettings (file_root s0) (base_dir s0) (nlive s0) (nlives s0)
    (bool_decide (1 ≤ k)%nat) (write_resume s0)
    ((Z.of_nat k + 1) * init_step).

(** The calls of the iterations [k], [k + 1], ... of the loop that
    appended the counts [steps] to the history: the sampler, then the
    checkpoint copy. *)
Fixpoint loop_ops (call : nat → Settings) (src : string) (dst : Z → string)
    (k : nat) (steps : list Z) : list io_op :=
  match steps with
  | [] => []
  | n :: rest =>
      Sampled (call k) :: Copied src (dst n)
        :: loop_ops call src dst (S k) rest
  end.

(** The settings of the exploratory run before the loop (lines 70-74). *)
Definition exploratory_settings (s_in : Settings) (ninit : Z) : Settings :=
  mkSettings (file_root s_in +:+ "_init") (base_dir s_in) ninit ∅ false true
    (max_ndead s_in).
End Logged.

(** ** Further synthetic collaborators *)

Module MoreExamples.
(** A sampler that is always cut off by its cap. *)
Definition capped_run_polychord (s : Settings) (calls : nat)
    : res Output * nat :=
  (Ok (mkOutput (max_ndead s + nlive s) 0), S calls).

(** The run on disk after [calls] calls of the capped sampler with two
    live points and a step of 1: [calls + 2] samples in two threads. *)
Definition capped_process_polychord_run (root : string) (calls : nat)
    : res Run :=
  Ok (mkRun (replicate (calls + 2) [])
        ((λ i, Fin (Z.of_nat i)) <$> seq 0 (calls + 2))
        (replicate (calls + 2) 2)
        ((λ i, Z.of_nat (i mod 2)) <$> seq 0 (calls + 2))
        [(NInf, Fin 0); (NInf, Fin 1)] ∅).

Definition capped_settings : Settings :=
  mkSettings "gauss_init" "chains" 2 ∅ false true 0.

(** The runs [init_a] and [dyn_a] with their numbers of likelihood
    calls, and the information of a dynamic run resumed after two dead
    points. *)
Definition init_ok : Run :=
  set_output {[ "nlike" := PInt 300 ]} MergeExamples.init_a.

Definition dyn_ok : Run :=
  set_output {[ "nlike" := PInt 500 ]} MergeExamples.dyn_a.

Definition ok_process_polychord_run (root dir : string)
    (logl_warn_only : bool) : res Run :=
  if bool_decide (root = "gauss_init") then Ok init_ok else Ok dyn_ok.

Definition ok_pickle_load (path : string) : res (gmap string pyval) :=
  Ok {[ "resume_ndead" := PInt 2; "resume_nlike" := PInt 120;
        "seed" := PInt 7 ]}.

Definition ok_result : res Run * list Run :=
  Processing.process_dypolychord_run ok_process_polychord_run ok_pickle_load
    ProcessingExamples.ex_path_join ProcessingExamples.ex_check_ns_run
    "gauss" "chains" ProcessingExamples.kw_goal1 [].

(** The synthetic dynamic run with a log of its file operations. *)
Definition logged_result : res unit * Driver.state (nat * list io_op) :=
  Logged.run_dynamic_polychord_logged nat Synthetic.syn_run_polychord
    Synthetic.syn_process_polychord_run Synthetic.syn_get_logx
    Synthetic.syn_rel_posterior_mass Synthetic.syn_double_mul
    Synthetic.syn_double_div Synthetic.syn_copyfile
    Synthetic.syn_remove Synthetic.syn_save_info 0 3 0%nat
    Synthetic.no_kwargs
    (Driver.mkState (nat * list io_op) [Synthetic.settings_in] (0%nat, [])).

(** A caller whose budget of 100 dead points is used up by the
    exploratory run of 111 samples, and the exploration on these
    settings with a log of the calls. *)
Definition settings_small : Settings :=
  mkSettings "gauss" "chains" 200 ∅ false false 100.

Definition small_loop
    : res Driver.loop_vars * Driver.state (nat * list io_op) :=
  Driver.explore_loop (nat * list io_op)
    (Logged.log_run_polychord nat Synthetic.syn_run_polychord)
    (Logged.log_process_polychord_run nat Synthetic.syn_process_polychord_run)
    (Logged.log_copyfile nat Synthetic.syn_copyfile) 3 1%nat 10 50
    (Driver.mkVars [] ∅ true None)
    (Driver.mkState (nat * list io_op)
       [settings_small; Logged.exploratory_settings settings_small 10]
       (0%nat, [])).

Definition small_array : list Q :=
  value_of []
    (scale_w_rel Synthetic.syn_double_mul Synthetic.syn_double_div
       (Synthetic.syn_rel_posterior_mass
          (Synthetic.syn_get_logx (nlive_array (Synthetic.run_of 111)))
          (logl (Synthetic.run_of 111)))
       100 111 200 10).
End MoreExamples.


(** * Properties of the model *)

(** ** Facts about the numpy helpers *)

Lemma where_from_elem {A} (p : A → bool) (l : list A) (i j : nat) :
  j ∈ where_from p i l ↔
  ∃ k x, j = (i + k)%nat ∧ l !! k = Some x ∧ p x = true.
Proof.
  revert i. induction l as [|y l IH]; intros i; simpl.
  - split; [by intros ?%elem_of_nil | by intros (k & x & _ & ? & _)].
  - destruct (p y) eqn:Hy; [rewrite elem_of_cons|]; rewrite IH; split.
    + intros [->|(k & x & -> & Hk & Hx)].
      * exists 0%nat, y. split; [lia | done].
      * exists (S k), x. split; [lia | done].
    + intros (k & x & -> & Hk & Hx). destruct k as [|k]; simpl in Hk.
      * left. lia.
      * right. exists k, x. split; [lia | done].
    + intros (k & x & -> & Hk & Hx). exists (S k), x. split; [lia | done].
    + intros (k & x & -> & Hk & Hx). destruct k as [|k]; simpl in Hk.
      * congruence.
      * exists k, x. split; [lia | done].
Qed.

Lemma where_from_lower {A} (p : A → bool) (l : list A) (i j : nat) :
  j ∈ where_from p i l → (i ≤ j)%nat.
Proof. rewrite where_from_elem. intros (k & x & -> & _). lia. Qed.

Lemma where_from_head {A} (p : A → bool) (l : list A) (i j : nat) :
  head (where_from p i l) = Some j ↔
  ∃ k x, j = (i + k)%nat ∧ l !! k = Some x ∧ p x = true ∧
         ∀ k' x', (k' < k)%nat → l !! k' = Some x' → p x' = false.
Proof.
  revert i. induction l as [|y l IH]; intros i; simpl.
  - split; [done | by intros (k & x & _ & ? & _)].
  - destruct (p y) eqn:Hy; simpl.
    + split.
      * intros [= <-]. exists 0%nat, y. repeat split; [lia | done | lia].
      * intros (k & x & -> & Hk & Hx & Hmin). destruct k as [|k].
        -- f_equal. lia.
        -- specialize (Hmin 0%nat y). simpl in Hmin.
           rewrite Hmin in Hy; [done | lia | done].
    + rewrite IH. split.
      * intros (k & x & -> & Hk & Hx & Hmin). exists (S k), x.
        repeat split; [lia | done | done |].
        intros [|k'] x' Hlt Hk'; simpl in Hk'; [congruence|].
        apply (Hmin k'); [lia | done].
      * intros (k & x & -> & Hk & Hx & Hmin). destruct k as [|k].
        -- simpl in Hk. congruence.
        -- exists k, x. repeat split; [lia | done | done |].
           intros k' x' Hlt Hk'. apply (Hmin (S k')); [lia | done].
Qed.

Lemma where_from_nil {A} (p : A → bool) (l : list A) (i : nat) :
  where_from p i l = [] ↔ ∀ x, x ∈ l → p x = false.
Proof.
  revert i. induction l as [|y l IH]; intros i; simpl.
  - split; [by intros _ x ?%elem_of_nil | done].
  - destruct (p y) eqn:Hy.
    + split; [done|]. intros H. rewrite H in Hy; [done | by left].
    + rewrite IH. split.
      * intros H x [->|Hx]%elem_of_cons; auto.
      * intros H x Hx. apply H. by right.
Qed.

Lemma where_from_last {A} (p : A → bool) (l : list A) (i j : nat) :
  last (where_from p i l) = Some j ↔
  ∃ k x, j = (i + k)%nat ∧ l !! k = Some x ∧ p x = true ∧
         ∀ k' x', (k < k')%nat → l !! k' = Some x' → p x' = false.
Proof.
  revert i j. induction l as [|y l IH]; intros i j; simpl.
  - split; [done | by intros (k & x & _ & ? & _)].
  - destruct (p y) eqn:Hy.
    + rewrite last_cons.
      destruct (last (where_from p (S i) l)) as [j'|] eqn:Hl.
      * apply IH in Hl as (k & x & -> & Hk & Hx & Hmax). split.
        -- intros [= <-]. exists (S k), x.
           repeat split; [lia | done | done |].
           intros [|k'] x' Hlt Hk'; [lia|]. apply (Hmax k'); [lia | done].
        -- intros (k0 & x0 & -> & Hk0 & Hx0 & Hmax0). f_equal.
           destruct (decide (k0 = S k)) as [->|Hne]; [lia|].
           destruct (decide (k0 < S k)%nat).
           ++ rewrite (Hmax0 (S k) x) in Hx; [done | lia | done].
           ++ destruct k0 as [|k0]; [lia|].
              rewrite (Hmax k0 x0) in Hx0; [done | lia | done].
      * apply last_None in Hl. rewrite where_from_nil in Hl. split.
        -- intros [= <-]. exists 0%nat, y.
           split; [lia|]. split; [done|]. split; [done|].
           intros [|k'] x' Hlt Hk'; [lia|]. apply Hl.
           by eapply list_elem_of_lookup_2.
        -- intros (k & x & -> & Hk & Hx & _). destruct k as [|k].
           ++ f_equal. lia.
           ++ rewrite Hl in Hx; [done|]. by eapply list_elem_of_lookup_2.
    + rewrite IH. split.
      * intros (k & x & -> & Hk & Hx & Hmax). exists (S k), x.
        repeat split; [lia | done | done |].
        intros [|k'] x' Hlt Hk'; [lia|]. apply (Hmax k'); [lia | done].
      * intros (k & x & -> & Hk & Hx & Hmax). destruct k as [|k].
        -- simpl in Hk. congruence.
        -- exists k, x. repeat split; [lia | done | done |].
           intros k' x' Hlt Hk'. apply (Hmax (S k')); [lia | done].
Qed.

(** ** The resume selector *)

Lemma index_Ok {A} (l : list A) (i : nat) (x : A) :
  index l i = Ok x ↔ l !! i = Some x.
Proof. unfold index. destruct (l !! i); split; congruence. Qed.

Lemma index_Raise {A} (l : list A) (i : nat) (e : exn) :
  index l i = Raise e → e = IndexError ∧ l !! i = None.
Proof. unfold index. destruct (l !! i); [done|]. by intros [= <-]. Qed.

(** C3. The resume selector returns the dead count of the latest
    checkpoint of the history whose dead count minus one is strictly
    below the peak-onset index, and it raises (an [IndexError], no
    default) exactly when no checkpoint of the history qualifies. *)
Theorem resume_select_latest (step_ndead : list Z) (peak_start_ind : nat) :
  (∀ d, resume_select step_ndead peak_start_ind = Ok d ↔
        ∃ i, step_ndead !! i = Some d ∧ d - 1 < Z.of_nat peak_start_ind ∧
             ∀ j d', (i < j)%nat → step_ndead !! j = Some d' →
                     ¬ d' - 1 < Z.of_nat peak_start_ind) ∧
  ((∀ d, d ∈ step_ndead → ¬ d - 1 < Z.of_nat peak_start_ind) ↔
   resume_select step_ndead peak_start_ind = Raise IndexError) ∧
  (∀ e, resume_select step_ndead peak_start_ind = Raise e → e = IndexError) ∧
  resume_select step_ndead peak_start_ind ≠ OutOfFuel.
Proof.
  unfold resume_select, np_where.
  set (p := λ s : Z, s <? Z.of_nat peak_start_ind).
  set (rs := (λ x : Z, x - 1) <$> step_ndead).
  assert (Hrs : ∀ k x, rs !! k = Some x ↔
                 ∃ d, step_ndead !! k = Some d ∧ x = d - 1).
  { intros k x. unfold rs. rewrite list_lookup_fmap.
    destruct (step_ndead !! k) as [d|]; simpl; split.
    - intros [= <-]. by exists d.
    - by intros (d' & [= <-] & ->).
    - done.
    - by intros (? & ? & _). }
  destruct (last (where_from p 0 rs)) as [i|] eqn:Hl.
  - apply where_from_last in Hl as (k & x & -> & Hk & Hx & Hmax).
    simpl. apply Hrs in Hk as (d0 & Hd0 & ->).
    unfold p in Hx. apply Z.ltb_lt in Hx.
    assert (Hlater : ∀ j d', (k < j)%nat → step_ndead !! j = Some d' →
                             ¬ d' - 1 < Z.of_nat peak_start_ind).
    { intros j d' Hlt Hj Hc.
      assert (Hf : p (d' - 1) = false).
      { apply (Hmax j); [done|]. apply Hrs. by exists d'. }
      unfold p in Hf. apply Z.ltb_ge in Hf. lia. }
    unfold index. rewrite Hd0. repeat split.
    + intros [= <-]. exists k. done.
    + intros (i & Hi & Hlt & Hmax'). f_equal.
      destruct (decide (i = k)) as [->|Hne]; [congruence|].
      destruct (decide (i < k)%nat).
      * exfalso. by apply (Hmax' k d0).
      * exfalso. apply (Hlater i d); [lia | done | done].
    + intros Hnone. exfalso. apply (Hnone d0); [|done].
      by eapply list_elem_of_lookup_2.
    + done.
    + done.
    + done.
  - apply last_None in Hl. rewrite where_from_nil in Hl. repeat split.
    + done.
    + intros (i & Hi & Hlt & _). exfalso.
      assert (Hf : p (d - 1) = false).
      { apply Hl. apply list_elem_of_lookup. exists i. apply Hrs. by exists d. }
      unfold p in Hf. apply Z.ltb_ge in Hf. lia.
    + intros _ d Hd Hc.
      assert (Hf : p (d - 1) = false).
      { apply Hl. unfold rs. apply list_elem_of_fmap. by exists d. }
      unfold p in Hf. apply Z.ltb_ge in Hf. lia.
    + by intros e [= <-].
    + done.
Qed.

(** C4 (as stated). For the history [10, 20, 30, 40] and peak-onset
    index 25 the selector does not return the checkpoint at dead count
    30: 30 - 1 = 29 is not below 25. *)
Lemma resume_select_example_not_30 :
  resume_select [10; 20; 30; 40] 25 ≠ Ok 30.
Proof. vm_compute. discriminate. Qed.

(** C4 (amended). For the history [10, 20, 30, 40] and peak-onset index
    25 the selector returns the checkpoint at dead count 20, the latest
    one with dead count minus one below 25. *)
Theorem resume_select_example :
  resume_select [10; 20; 30; 40] 25 = Ok 20.
Proof. reflexivity. Qed.

(** ** The schedule floor *)

Lemma Qltb_lt (a b : Q) : Qltb a b = true ↔ (a < b)%Q.
Proof.
  unfold Qltb. rewrite negb_true_iff. split.
  - intros H. apply Qnot_le_lt. intros Hle.
    apply Qle_bool_iff in Hle. congruence.
  - intros H. destruct (Qle_bool b a) eqn:E; [|done].
    apply Qle_bool_iff in E. exfalso. by apply (Qlt_not_le a b).
Qed.

Lemma Qltb_ge (a b : Q) : Qltb a b = false ↔ (b <= a)%Q.
Proof.
  unfold Qltb. rewrite negb_false_iff. apply Qle_bool_iff.
Qed.

(** C5. When the schedule calculator finds the peak-onset index [p]
    (the first index at which the scaled target exceeds [ninit]), the
    array after line 115 holds exactly [ninit] at every index strictly
    before [p], and is unchanged from [p] on. *)
Theorem clamp_before_floor (nlives_array : list Q) (ninit : Z) (p : nat) :
  peak_start nlives_array ninit = Ok p →
  (∃ x, nlives_array !! p = Some x ∧ (inject_Z ninit < x)%Q) ∧
  (∀ i x, (i < p)%nat → nlives_array !! i = Some x → (x <= inject_Z ninit)%Q) ∧
  (∀ i, (i < p)%nat →
        clamp_before nlives_array p ninit !! i = Some (inject_Z ninit)) ∧
  (∀ i, (p ≤ i)%nat →
        clamp_before nlives_array p ninit !! i = nlives_array !! i) ∧
  length (clamp_before nlives_array p ninit) = length nlives_array.
Proof.
  unfold peak_start, np_where.
  destruct (head _) as [i0|] eqn:Hh; [|done]. intros [= ->].
  apply where_from_head in Hh as (k & x & -> & Hk & Hx & Hmin). simpl.
  assert (Hlen : (k < length nlives_array)%nat) by by eapply lookup_lt_Some.
  unfold clamp_before. rewrite Nat.min_l by lia. repeat split.
  - exists x. split; [done|]. by apply Qltb_lt.
  - intros i y Hi Hy. apply Qltb_ge. by apply (Hmin i).
  - intros i Hi. rewrite lookup_app_l by (rewrite length_replicate; lia).
    by apply lookup_replicate_2.
  - intros i Hi. rewrite lookup_app_r by (rewrite length_replicate; lia).
    rewrite length_replicate, lookup_drop. f_equal. lia.
  - rewrite length_app, length_replicate, length_drop. lia.
Qed.

(** The floor on a concrete scaled target: the peak starts at index 2. *)
Lemma clamp_before_floor_witness :
  peak_start [1 # 2; 3; 11; 4; 12]%Q 10 = Ok 2%nat ∧
  clamp_before [1 # 2; 3; 11; 4; 12]%Q 2 10 !! 1%nat = Some (inject_Z 10).
Proof.
  split; [reflexivity|].
  apply (clamp_before_floor [1 # 2; 3; 11; 4; 12]%Q 10 2); [reflexivity | lia].
Defined.

(** ** The sparse schedule *)

Lemma index_Z_nat {A} (l : list A) (j : nat) :
  index_Z l (Z.of_nat j) = index l j.
Proof.
  unfold index_Z. destruct (0 <=? Z.of_nat j) eqn:E.
  - by rewrite Nat2Z.id.
  - apply Z.leb_gt in E. lia.
Qed.

Section schedule.
Variables (nlives_array : list Q) (logl : list fl) (s m : nat).
Hypothesis Hs : (0 < s)%nat.
Hypothesis Hm : (s * m ≤ length logl)%nat.
Hypothesis Hlen : length nlives_array = length logl.

Local Abbreviation steps :=
  ((λ j, Z.of_nat s * Z.of_nat j) <$> seq 0 m).

Lemma steps_lookup (j : nat) :
  (j < m)%nat → steps !! j = Some (Z.of_nat (s * j)).
Proof.
  intros Hj. unfold steps. rewrite list_lookup_fmap, lookup_seq_lt by done.
  simpl. f_equal. lia.
Qed.

Lemma stride_in_range (j : nat) : (j < m)%nat → (s * j < length logl)%nat.
Proof. intros Hj. nia. Qed.

Lemma nlives_dict_step_emitted (d : gmap fl Z) (i : nat) :
  (S i < m)%nat →
  nlives_dict_step nlives_array logl steps d i (Z.of_nat (s * i)) =
  Ok (store_emitted d (emitted nlives_array logl s i)).
Proof.
  intros Hi. unfold nlives_dict_step, emitted.
  unfold index at 1. rewrite (steps_lookup (S i)) by done. simpl.
  rewrite !index_Z_nat.
  destruct (lookup_lt_is_Some_2 nlives_array (s * S i)) as [v Hv].
  { rewrite Hlen. by apply stride_in_range. }
  destruct (lookup_lt_is_Some_2 logl (s * i)) as [key Hkey].
  { apply stride_in_range. lia. }
  unfold index. rewrite Hv, Hkey. simpl.
  by destruct (1 <=? py_int v).
Qed.

Lemma nlives_dict_loop_emitted (n i : nat) (d : gmap fl Z) :
  (i + n < m)%nat ∨ n = 0%nat →
  nlives_dict_loop nlives_array logl steps d i
    ((λ j, Z.of_nat (s * j)) <$> seq i n) =
  Ok (foldl (λ d j, store_emitted d (emitted nlives_array logl s j)) d
        (seq i n)).
Proof.
  revert i d. induction n as [|n IH]; intros i d Hn; simpl; [done|].
  rewrite nlives_dict_step_emitted by lia. simpl.
  apply IH. lia.
Qed.

Lemma take_steps :
  take (length steps - 1) steps =
  (λ j, Z.of_nat (s * j)) <$> seq 0 (m - 1).
Proof.
  unfold steps. rewrite length_fmap, length_seq, <- fmap_take, take_seq.
  rewrite Nat.min_l by lia. apply list_fmap_ext. intros _ j _. lia.
Qed.

Local Abbreviation dict_of d n :=
  (foldl (λ acc j, store_emitted acc (emitted nlives_array logl s j)) d
     (seq 0 n)).

Lemma dict_of_S (d : gmap fl Z) (n : nat) :
  dict_of d (S n) = store_emitted (dict_of d n) (emitted nlives_array logl s n).
Proof. by rewrite seq_S, foldl_app. Qed.

(** Every entry was either there before the loop or stored by it. *)
Lemma dict_of_sound (d : gmap fl Z) (n : nat) (k : fl) (c : Z) :
  dict_of d n !! k = Some c →
  d !! k = Some c ∨
  ∃ j, (j < n)%nat ∧ emitted nlives_array logl s j = Some (k, c).
Proof.
  induction n as [|n IH]; [by left|].
  rewrite dict_of_S.
  destruct (emitted nlives_array logl s n) as [[k' c']|] eqn:He; simpl.
  - rewrite lookup_insert. case_decide as Hk.
    + intros [= <-]. subst k'. right. exists n. split; [lia | done].
    + intros [?|(j & ? & ?)]%IH; [by left|]. right. exists j.
      split; [lia | done].
  - intros [?|(j & ? & ?)]%IH; [by left|]. right. exists j.
    split; [lia | done].
Qed.

(** A key that is not the sample of a stride position is not touched. *)
Lemma dict_of_other (d : gmap fl Z) (n : nat) (k : fl) :
  (∀ j, (j < n)%nat → logl !! (s * j)%nat ≠ Some k) →
  dict_of d n !! k = d !! k.
Proof.
  induction n as [|n IH]; intros Hk; [done|].
  rewrite dict_of_S.
  destruct (emitted nlives_array logl s n) as [[k' c']|] eqn:He; simpl.
  - rewrite lookup_insert_ne; [apply IH; intros j Hj; apply Hk; lia|].
    intros ->. apply (Hk n); [lia|]. unfold emitted in He.
    destruct (logl !! (s * n)%nat) as [key|]; [|done]. simpl in He.
    destruct (nlives_array !! (s * S n)%nat) as [v|]; [|done]. simpl in He.
    destruct (1 <=? py_int v); by simplify_eq.
  - apply IH. intros j Hj. apply Hk. lia.
Qed.

Hypothesis Hnodup : NoDup logl.

Lemma stride_key_inj (i j : nat) (k : fl) :
  logl !! (s * i)%nat = Some k → logl !! (s * j)%nat = Some k → i = j.
Proof.
  intros Hi Hj. pose proof (NoDup_lookup _ _ _ _ Hnodup Hi Hj). nia.
Qed.

(** With pairwise distinct samples, the key of position [i] holds what
    the loop stored at position [i], or what was there before. *)
Lemma dict_of_at (d : gmap fl Z) (n i : nat) (k : fl) :
  (i < n)%nat → logl !! (s * i)%nat = Some k →
  dict_of d n !! k =
  match emitted nlives_array logl s i with
  | Some (_, c) => Some c
  | None => d !! k
  end.
Proof.
  induction n as [|n IH]; intros Hi Hk; [lia|].
  rewrite dict_of_S. destruct (decide (i = n)) as [->|Hne].
  - pose proof Hk as Hk'. unfold emitted. unfold emitted. rewrite Hk'. simpl.
    destruct (nlives_array !! (s * S n)%nat) as [v|] eqn:Hv; simpl.
    + destruct (1 <=? py_int v); simpl.
      * by rewrite lookup_insert_eq.
      * apply dict_of_other. intros j Hj Hc.
        pose proof (stride_key_inj _ _ _ Hc Hk). lia.
    + apply dict_of_other. intros j Hj Hc.
      pose proof (stride_key_inj _ _ _ Hc Hk). lia.
  - rewrite <- IH by (done || lia).
    destruct (emitted nlives_array logl s n) as [[k' c']|] eqn:He; [|done].
    simpl. apply lookup_insert_ne. intros ->. apply Hne.
    unfold emitted in He.
    destruct (logl !! (s * n)%nat) as [key|] eqn:Hn; [|done]. simpl in He.
    destruct (nlives_array !! (s * S n)%nat) as [v|]; [|done]. simpl in He.
    destruct (1 <=? py_int v); [|done]. simplify_eq.
    by apply (stride_key_inj _ _ k).
Qed.
End schedule.


Lemma emitted_Some (nlives_array : list Q) (logl : list fl) (s i : nat)
    (k : fl) (c : Z) :
  emitted nlives_array logl s i = Some (k, c) ↔
  ∃ v, logl !! (s * i)%nat = Some k ∧ nlives_array !! (s * S i)%nat = Some v ∧
       c = py_int v ∧ 1 ≤ c.
Proof.
  unfold emitted. destruct (logl !! (s * i)%nat) as [key|]; simpl.
  2:{ split; [done | by intros (? & ? & _)]. }
  destruct (nlives_array !! (s * S i)%nat) as [v|]; simpl.
  2:{ split; [done | by intros (? & _ & ? & _)]. }
  destruct (1 <=? py_int v) eqn:E.
  - apply Z.leb_le in E. split.
    + intros [= <- <-]. by exists v.
    + by intros (v' & [= <-] & [= <-] & -> & _).
  - apply Z.leb_gt in E. split; [done|].
    intros (v' & _ & [= <-] & -> & ?). lia.
Qed.

Lemma make_nlives_dict_fold (nlives_array : list Q) (logl : list fl)
    (dyn_nlive_step ninit : Z) :
  0 < dyn_nlive_step → length nlives_array = length logl →
  make_nlives_dict nlives_array logl (length logl) dyn_nlive_step ninit =
  Ok (foldl (λ d j, store_emitted d
                      (emitted nlives_array logl (Z.to_nat dyn_nlive_step) j))
        {[ seed_key := ninit ]}
        (seq 0 (Z.to_nat (Z.of_nat (length logl) `div` dyn_nlive_step) - 1))).
Proof.
  intros Hpos Hlen. unfold make_nlives_dict, stride_steps.
  destruct (dyn_nlive_step =? 0) eqn:E; [apply Z.eqb_eq in E; lia|]. simpl.
  set (s := Z.to_nat dyn_nlive_step).
  set (m := Z.to_nat (Z.of_nat (length logl) `div` dyn_nlive_step)).
  assert (Hm : (s * m ≤ length logl)%nat).
  { pose proof (Z.mul_div_le (Z.of_nat (length logl)) dyn_nlive_step Hpos).
    pose proof (Z.div_pos (Z.of_nat (length logl)) dyn_nlive_step).
    unfold s, m. lia. }
  assert (Hs : (0 < s)%nat) by (unfold s; lia).
  replace (λ j : nat, dyn_nlive_step * Z.of_nat j)
    with (λ j : nat, Z.of_nat s * Z.of_nat j).
  2:{ unfold s. by rewrite Z2Nat.id by lia. }
  rewrite (take_steps nlives_array logl s m Hs Hm Hlen).
  apply (nlives_dict_loop_emitted nlives_array logl s m Hs Hm Hlen).
  destruct m; [right|left]; lia.
Qed.

(** C6. With a positive stride, pairwise distinct sample log-likelihoods
    that all lie above the seed key, and [ninit >= 1], the schedule is
    built without an exception and
    - holds the seed entry, [seed_key] mapped to [ninit];
    - for every stride position [i] that has a successor, maps the key
      [logl[step_i]] to [int(nlives_array[step_(i+1)])] when that is at
      least 1, and has no entry at that key otherwise;
    - has only counts of at least 1;
    - has no other entries than the seed and those of the stride
      positions. *)
Theorem nlives_dict_lookahead (nlives_array : list Q) (logl : list fl)
    (dyn_nlive_step ninit : Z) :
  0 < dyn_nlive_step →
  length nlives_array = length logl →
  NoDup logl →
  Forall (λ x, fl_ltb seed_key x = true) logl →
  1 ≤ ninit →
  ∃ dict,
    make_nlives_dict nlives_array logl (length logl) dyn_nlive_step ninit
      = Ok dict ∧
    dict !! seed_key = Some ninit ∧
    (∀ i : nat,
       Z.of_nat i + 1 < Z.of_nat (length logl) `div` dyn_nlive_step →
       ∃ key v,
         logl !! Z.to_nat (dyn_nlive_step * Z.of_nat i) = Some key ∧
         nlives_array !! Z.to_nat (dyn_nlive_step * (Z.of_nat i + 1)) = Some v ∧
         dict !! key = if 1 <=? py_int v then Some (py_int v) else None) ∧
    (∀ key c, dict !! key = Some c → 1 ≤ c) ∧
    (∀ key c, dict !! key = Some c → key ≠ seed_key →
       ∃ (i : nat) v,
         Z.of_nat i + 1 < Z.of_nat (length logl) `div` dyn_nlive_step ∧
         logl !! Z.to_nat (dyn_nlive_step * Z.of_nat i) = Some key ∧
         nlives_array !! Z.to_nat (dyn_nlive_step * (Z.of_nat i + 1)) = Some v ∧
         c = py_int v).
Proof.
  intros Hpos Hlen Hnodup Habove Hninit.
  eexists. split; [by apply make_nlives_dict_fold|].
  set (s := Z.to_nat dyn_nlive_step).
  set (m := Z.to_nat (Z.of_nat (length logl) `div` dyn_nlive_step)).
  assert (Hm : (s * m ≤ length logl)%nat).
  { pose proof (Z.mul_div_le (Z.of_nat (length logl)) dyn_nlive_step Hpos).
    pose proof (Z.div_pos (Z.of_nat (length logl)) dyn_nlive_step).
    unfold s, m. lia. }
  assert (Hs : (0 < s)%nat) by (unfold s; lia).
  assert (Hix : ∀ i : nat, Z.to_nat (dyn_nlive_step * Z.of_nat i) = (s * i)%nat)
    by (intros i; unfold s; lia).
  assert (Hix' : ∀ i : nat,
            Z.to_nat (dyn_nlive_step * (Z.of_nat i + 1)) = (s * S i)%nat)
    by (intros i; unfold s; lia).
  assert (Hseed : ∀ j, logl !! j ≠ Some seed_key).
  { intros j Hj. rewrite Forall_forall in Habove.
    apply list_elem_of_lookup_2 in Hj. apply Habove in Hj.
    vm_compute in Hj. done. }
  split; [|split; [|split]].
  - rewrite (dict_of_other nlives_array logl s m Hs Hm Hlen)
      by (intros j _; apply Hseed).
    apply lookup_singleton_eq.
  - intros i Hi.
    assert (Him : (S i < m)%nat) by (unfold m; lia).
    destruct (lookup_lt_is_Some_2 logl (s * i)) as [key Hkey]; [nia|].
    destruct (lookup_lt_is_Some_2 nlives_array (s * S i)) as [v Hv]; [nia|].
    exists key, v. rewrite Hix, Hix'. split; [done|]. split; [done|].
    rewrite (dict_of_at nlives_array logl s m Hs Hm Hlen Hnodup _ _ i key)
      by (done || lia).
    unfold emitted. rewrite Hkey, Hv. simpl.
    destruct (1 <=? py_int v); [done|].
    apply lookup_singleton_ne. intros Heq. apply (Hseed (s * i)%nat).
    by rewrite Heq.
  - intros key c Hd.
    apply (dict_of_sound nlives_array logl s m Hs Hm Hlen) in Hd
      as [Hd|(j & Hj & He)].
    + apply lookup_singleton_Some in Hd as [_ <-]. done.
    + apply emitted_Some in He as (v & _ & _ & _ & ?). done.
  - intros key c Hd Hne.
    apply (dict_of_sound nlives_array logl s m Hs Hm Hlen) in Hd
      as [Hd|(j & Hj & He)].
    + apply lookup_singleton_Some in Hd as [<- _]. done.
    + apply emitted_Some in He as (v & Hk & Hv & -> & _).
      exists j, v. rewrite Hix, Hix'. split; [unfold m in Hj; lia | done].
Qed.

(** The schedule of a scaled target of five samples with stride 1: the
    target 1/2 at index 3 gives no entry at the key of index 2. *)
Lemma nlives_dict_lookahead_witness :
  ∃ dict,
    make_nlives_dict [10; 10; 12; 1 # 2; 30]%Q (Fin <$> [1; 2; 3; 4; 5]) 5 1 10
      = Ok dict ∧
    dict !! seed_key = Some 10 ∧
    dict !! Fin 2 = Some 12 ∧
    dict !! Fin 3 = None ∧
    (∀ key c, dict !! key = Some c → 1 ≤ c).
Proof.
  destruct (nlives_dict_lookahead [10; 10; 12; 1 # 2; 30]%Q
              (Fin <$> [1; 2; 3; 4; 5]) 1 10)
    as (dict & Hdict & Hseed & Hat & Hpos & _).
  - lia.
  - reflexivity.
  - apply (bool_decide_unpack _). vm_compute. reflexivity.
  - apply (bool_decide_unpack _). vm_compute. reflexivity.
  - lia.
  - exists dict. split; [exact Hdict|]. split; [exact Hseed|].
    split; [|split; [|exact Hpos]].
    + destruct (Hat 1%nat) as (key & v & Hkey & Hv & Hd);
        [vm_compute; reflexivity|].
      injection Hkey as <-. injection Hv as <-. exact Hd.
    + destruct (Hat 2%nat) as (key & v & Hkey & Hv & Hd);
        [vm_compute; reflexivity|].
      injection Hkey as <-. injection Hv as <-. exact Hd.
Defined.

(** ** The state monad *)

Lemma bind_unfold {S A B} (c : M S A) (k : A → M S B) (s : S) :
  (c ≫= k) s =
  match c s with
  | (Ok a, s') => k a s'
  | (Raise e, s') => (Raise e, s')
  | (OutOfFuel, s') => (OutOfFuel, s')
  end.
Proof. reflexivity. Qed.

Lemma bind_Ok {S A B} (c : M S A) (k : A → M S B) (s s' : S) (b : B) :
  (c ≫= k) s = (Ok b, s') ↔
  ∃ a s1, c s = (Ok a, s1) ∧ k a s1 = (Ok b, s').
Proof.
  rewrite bind_unfold. destruct (c s) as [[a|e|] s1]; split.
  - intros H. by exists a, s1.
  - by intros (a' & s1' & [= <- <-] & H).
  - done.
  - by intros (? & ? & ? & _).
  - done.
  - by intros (? & ? & ? & _).
Qed.

Lemma lift_Ok {S A} (r : res A) (s s' : S) (a : A) :
  lift r s = (Ok a, s') ↔ r = Ok a ∧ s' = s.
Proof. unfold lift. split; [by intros [= -> ->] | by intros [-> ->]]. Qed.

Lemma assert_that_Ok (c : bool) (site : string) (u : unit) :
  assert_that c site = Ok u ↔ c = true.
Proof. unfold assert_that. destruct c, u; split; congruence. Qed.

Module DriverFacts.
Import Driver.

(** ** The exploration loop *)

Section exploration.
Context {World : Type}.
Variable run_polychord : Settings → World → res Output * World.
Variable process_polychord_run : string → World → res Run.
Variable copyfile : string → string → World → res unit * World.

Local Abbreviation explore_iter :=
  (explore_iter World run_polychord process_polychord_run copyfile).
Local Abbreviation explore_loop :=
  (explore_loop World run_polychord process_polychord_run copyfile).

Lemma index_Z_last (l : list Z) (x : Z) : index_Z (l ++ [x]) (-1) = Ok x.
Proof.
  unfold index_Z. simpl. rewrite length_app. simpl.
  destruct (_ <=? -1) eqn:E; [|apply Z.leb_gt in E; lia].
  unfold index.
  replace (Z.to_nat (Z.of_nat (length l + 1) + -1)) with (length l) by lia.
  by rewrite list_lookup_middle.
Qed.

Lemma index_Z_last_but_one (l : list Z) (x y : Z) :
  index_Z (l ++ [x; y]) (-2) = Ok x.
Proof.
  unfold index_Z. simpl. rewrite length_app. simpl.
  destruct (_ <=? -2) eqn:E; [|apply Z.leb_gt in E; lia].
  unfold index.
  replace (Z.to_nat (Z.of_nat (length l + 2) + -2)) with (length l) by lia.
  by rewrite list_lookup_middle.
Qed.

Lemma ends_plus_one_snoc (l : list Z) (x y : Z) :
  ends_plus_one ((l ++ [x]) ++ [y]) ↔ y = x + 1.
Proof.
  rewrite <- app_assoc. simpl. split.
  - intros (pre & a & H).
    change [x; y] with ([x] ++ [y]) in H.
    change [a; a + 1] with ([a] ++ [a + 1]) in H.
    rewrite !app_assoc in H.
    apply app_inj_tail in H as [H ->]. apply app_inj_tail in H as [_ ->].
    done.
  - intros ->. by exists l, x.
Qed.

Lemma ends_plus_one_short (x : Z) : ¬ ends_plus_one [x].
Proof.
  intros (pre & a & H). apply (f_equal length) in H.
  rewrite length_app in H. simpl in H. lia.
Qed.

(** What one iteration does to the local variables. *)
Lemma explore_iter_vars (pc_settings : loc) (ninit init_step : Z)
    (vs vs' : loop_vars) (σ σ' : state World) :
  explore_iter pc_settings ninit init_step vs σ = (Ok vs', σ') →
  ∃ out s,
    heap World σ' !! pc_settings = Some s ∧
    v_output vs' = Some out ∧
    v_step_ndead vs' = v_step_ndead vs ++ [ndead out - nlive s] ∧
    v_add_points vs' =
      (if (2 <=? length (v_step_ndead vs'))%nat then
         match index_Z (v_step_ndead vs') (-1),
               index_Z (v_step_ndead vs') (-2) with
         | Ok a, Ok b => if a =? b + 1 then false else v_add_points vs
         | _, _ => v_add_points vs
         end
       else v_add_points vs).
Proof.
  unfold explore_iter. intros H.
  apply bind_Ok in H as (? & σ1 & _ & H).
  apply bind_Ok in H as (? & σ2 & _ & H).
  apply bind_Ok in H as (s1 & σ3 & _ & H).
  apply bind_Ok in H as (out & σ4 & Hout & H).
  apply bind_Ok in H as (s & σ5 & Hs & H).
  unfold read in Hs. injection Hs as Hs <-. apply index_Ok in Hs.
  apply bind_Ok in H as (run & σ6 & Hrun & H).
  unfold ext in Hrun. simpl in Hrun. injection Hrun as _ <-.
  apply bind_Ok in H as (? & σ7 & [_ ->]%lift_Ok & H).
  apply bind_Ok in H as (? & σ8 & [_ ->]%lift_Ok & H).
  apply bind_Ok in H as (last_step & σ9 & [_ ->]%lift_Ok & H).
  apply bind_Ok in H as (? & σ10 & Hcopy & H).
  unfold ext in Hcopy. simpl in Hcopy.
  destruct (copyfile _ _ _) as [r w]. injection Hcopy as _ <-.
  apply bind_Ok in H as (ap & σ11 & Hap & H).
  injection H as <- <-. exists out, s.
  cbn [v_step_ndead v_add_points v_output].
  split; [|split; [done|split; [done|]]].
  - destruct (2 <=? _)%nat.
    + apply bind_Ok in Hap as (? & ? & [_ ->]%lift_Ok & Hap).
      apply bind_Ok in Hap as (? & ? & [_ ->]%lift_Ok & Hap).
      by injection Hap as _ <-.
    + by injection Hap as _ <-.
  - destruct (2 <=? _)%nat.
    + apply bind_Ok in Hap as (a & ? & [-> ->]%lift_Ok & Hap).
      apply bind_Ok in Hap as (b & ? & [-> ->]%lift_Ok & Hap).
      by injection Hap as <- _.
    + by injection Hap as <- _.
Qed.

(** C2. An iteration of the exploration loop that completes appends one
    count to the step history, and it ends the loop (clears
    [add_points]) if and only if the history then ends with two counts
    [a] and [a + 1], that is [step_ndead[-1] == step_ndead[-2] + 1];
    the loop goes on with the next iteration exactly when it does not.
    In terms of the sampler: with [prev] the count recorded by the
    previous iteration (its cap, when that sub-run ran into its cap), the
    loop ends exactly when the reported dead count is [prev] plus the
    live count [ninit] of the settings plus one.
    For the history [50, 100, 101] the loop goes on after the first and
    the second iteration and stops after the third. *)
Theorem explore_iter_stop (pc_settings : loc) (ninit init_step : Z)
    (vs vs' : loop_vars) (σ σ' : state World) :
  v_add_points vs = true →
  explore_iter pc_settings ninit init_step vs σ = (Ok vs', σ') →
  (∃ d, v_step_ndead vs' = v_step_ndead vs ++ [d]) ∧
  (v_add_points vs' = false ↔ ends_plus_one (v_step_ndead vs')) ∧
  (∀ fuel,
     explore_loop (S fuel) pc_settings ninit init_step vs σ =
     if v_add_points vs' then
       explore_loop fuel pc_settings ninit init_step vs' σ'
     else (Ok vs', σ')) ∧
  (∃ out s,
     heap World σ' !! pc_settings = Some s ∧ v_output vs' = Some out ∧
     ∀ prev, last (v_step_ndead vs) = Some prev →
             (v_add_points vs' = false ↔ ndead out = prev + nlive s + 1)) ∧
  (v_step_ndead vs' = [50] → v_add_points vs' = true) ∧
  (v_step_ndead vs' = [50; 100] → v_add_points vs' = true) ∧
  (v_step_ndead vs' = [50; 100; 101] → v_add_points vs' = false).
Proof.
  intros Hap Hiter.
  destruct (explore_iter_vars _ _ _ _ _ _ _ Hiter)
    as (out & s & Hs & Hout & Hh & Hflag).
  rewrite Hap in Hflag.
  assert (Hiff : v_add_points vs' = false ↔ ends_plus_one (v_step_ndead vs')).
  { rewrite Hflag, Hh.
    destruct (v_step_ndead vs) as [|x l _] using rev_ind.
    - simpl. split; [done|]. by intros ?%ends_plus_one_short.
    - replace (2 <=? _)%nat with true
        by (symmetry; apply Nat.leb_le; rewrite !length_app; simpl; lia).
      rewrite index_Z_last, ends_plus_one_snoc, <- app_assoc.
      cbn [app]. rewrite index_Z_last_but_one.
      destruct (_ =? _) eqn:E.
      + apply Z.eqb_eq in E. by split.
      + apply Z.eqb_neq in E. by split. }
  split; [by eexists|]. split; [done|]. split; [|split; [|split; [|split]]].
  - intros fuel. simpl. rewrite Hap, bind_unfold, Hiter.
    destruct fuel; simpl; by destruct (v_add_points vs').
  - exists out, s. split; [done|]. split; [done|].
    intros prev [l Hl]%last_Some. rewrite Hiff, Hh, Hl, ends_plus_one_snoc.
    lia.
  - intros H50. apply not_false_iff_true. rewrite Hiff, H50.
    apply ends_plus_one_short.
  - intros H. apply not_false_iff_true. rewrite Hiff, H.
    change [50; 100] with (([] ++ [50]) ++ [100]).
    rewrite ends_plus_one_snoc. lia.
  - intros H. rewrite Hiff, H. by exists [50], 100.
Qed.
End exploration.

(** ** The caller's settings object *)

Section frame.
Context {World : Type}.
Variable run_polychord : Settings → World → res Output * World.
Variable process_polychord_run : string → World → res Run.
Variable get_logx : list Z → list Q.
Variable rel_posterior_mass : list Q → list fl → list Q.
Variable double_mul : Q → Z → Q.
Variable double_div : Q → Z → Q.
Variable copyfile : string → string → World → res unit * World.
Variable remove : string → World → res unit * World.
Variable save_info : Settings → Output → option Z → World → res unit * World.
Variable comm_rank : Z.

(** The objects [h0] that exist when the driver is called. *)
Variable h0 : list Settings.

Local Abbreviation keeps := (Driver.keeps World h0).

Lemma keeps_ret {A} (a : A) (Q : A → Prop) : Q a → keeps (mret a) Q.
Proof. intros HQ σ Hσ. split; [done|]. by intros a' [= <-]. Qed.

Lemma keeps_bind {A B} (c : M (state World) A) (k : A → M (state World) B)
    (Q : A → Prop) (R : B → Prop) :
  keeps c Q → (∀ a, Q a → keeps (k a) R) → keeps (c ≫= k) R.
Proof.
  intros Hc Hk σ Hσ. rewrite bind_unfold.
  destruct (Hc σ Hσ) as [Hpre HQ].
  destruct (c σ) as [[a|e|] σ1]; simpl in *; [|done..].
  apply (Hk a); [by apply HQ | done].
Qed.

Lemma keeps_any {A} (c : M (state World) A) (Q : A → Prop) :
  keeps c Q → keeps c (λ _, True).
Proof. intros Hc σ Hσ. split; [by apply Hc | done]. Qed.

Lemma keeps_lift {A} (r : res A) : keeps (lift r) (λ _, True).
Proof. by intros σ Hσ. Qed.

Lemma keeps_ext {A} (f : World → res A * World) :
  keeps (ext World f) (λ _, True).
Proof.
  intros σ Hσ. unfold ext. by destruct (f (world World σ)) as [r w].
Qed.

Lemma keeps_read (l : loc) : keeps (read World l) (λ _, True).
Proof. by intros σ Hσ. Qed.

(** Assigning an attribute of an object that is not one of [h0]. *)
Lemma keeps_setattr (l : loc) (f : Settings → Settings) :
  (length h0 ≤ l)%nat → keeps (setattr World l f) (λ _, True).
Proof.
  intros Hl σ Hσ. split; [|done]. unfold setattr. rewrite bind_unfold.
  unfold read. destruct (index (heap World σ) l); simpl; [|done..].
  destruct Hσ as [k ->]. exists (<[(l - length h0)%nat := f a]> k).
  by rewrite insert_app_r_alt.
Qed.

(** The copy is a new object. *)
Lemma keeps_deepcopy (l : loc) :
  keeps (deepcopy World l) (λ l', (length h0 ≤ l')%nat).
Proof.
  intros σ Hσ. unfold deepcopy. rewrite bind_unfold.
  unfold read. destruct (index (heap World σ) l); simpl; [|done..].
  split.
  - by apply prefix_app_r.
  - intros l' [= <-]. by apply prefix_length.
Qed.

Ltac keeps_seq :=
  repeat first
    [ apply keeps_ret; exact I
    | eapply keeps_bind;
      [ first [ apply keeps_lift | apply keeps_ext | apply keeps_read
              | apply keeps_setattr; assumption
              | apply keeps_deepcopy ]
      | intros ? ? ] ].

Lemma keeps_explore_iter (pc_settings : loc) (ninit init_step : Z)
    (vs : loop_vars) :
  (length h0 ≤ pc_settings)%nat →
  keeps (explore_iter World run_polychord process_polychord_run copyfile
           pc_settings ninit init_step vs) (λ _, True).
Proof.
  intros Hpc. unfold explore_iter.
  eapply keeps_bind with (Q := λ _, True).
  { case_bool_decide; [by apply keeps_setattr | by apply keeps_ret]. }
  intros _ _. keeps_seq.
  eapply keeps_bind with (Q := λ _, True); [|intros; by apply keeps_ret].
  destruct (2 <=? _)%nat; keeps_seq.
Qed.

Lemma keeps_explore_loop (fuel : nat) (pc_settings : loc)
    (ninit init_step : Z) (vs : loop_vars) :
  (length h0 ≤ pc_settings)%nat →
  keeps (explore_loop World run_polychord process_polychord_run copyfile
           fuel pc_settings ninit init_step vs) (λ _, True).
Proof.
  intros Hpc. revert vs. induction fuel as [|fuel IH]; intros vs; simpl.
  - destruct (v_add_points vs); [apply keeps_lift | by apply keeps_ret].
  - destruct (v_add_points vs); [|by apply keeps_ret].
    eapply keeps_bind; [by apply keeps_explore_iter|]. intros vs' _. apply IH.
Qed.

Lemma keeps_remove_resumes (prefix : string) (step_ndead : list Z) :
  keeps (remove_resumes World remove prefix step_ndead) (λ _, True).
Proof.
  induction step_ndead as [|snd rest IH]; simpl.
  - by apply keeps_ret.
  - eapply keeps_bind; [apply keeps_ext|]. intros _ _. apply IH.
Qed.

Lemma keeps_run_dynamic_polychord (fuel : nat) (pc_settings_in : loc)
    (kw : kwargs) :
  keeps (run_dynamic_polychord World run_polychord process_polychord_run
           get_logx rel_posterior_mass double_mul double_div copyfile remove
           save_info comm_rank
           fuel pc_settings_in kw) (λ _, True).
Proof.
  unfold run_dynamic_polychord.
  eapply keeps_bind; [apply keeps_read|]. intros s_in _.
  eapply keeps_bind with (Q := λ _, True).
  { case_bool_decide; [by apply keeps_ret | apply keeps_lift]. }
  intros _ _.
  do 3 (eapply keeps_bind; [first [apply keeps_read | apply keeps_lift]|];
        intros ? _).
  eapply keeps_bind; [apply keeps_deepcopy|]. intros pc1 Hpc1. simpl in Hpc1.
  do 5 (eapply keeps_bind;
        [first [apply keeps_read | by apply keeps_setattr]|]; intros ? _).
  eapply keeps_bind; [by apply keeps_explore_loop|]. intros vs _.
  do 2 (eapply keeps_bind; [first [apply keeps_read | apply keeps_ext]|];
        intros ? _).
  eapply keeps_bind; [apply keeps_deepcopy|]. intros pc2 Hpc2. simpl in Hpc2.
  keeps_seq.
  destruct (comm_rank =? 0); [|by apply keeps_ret].
  eapply keeps_bind; [apply keeps_read|]. intros ? _.
  eapply keeps_bind; [apply keeps_remove_resumes|]. intros ? _.
  eapply keeps_bind; [apply keeps_read|]. intros ? _.
  apply keeps_ext.
Qed.
End frame.

(** C8. Whatever the sampler and the other collaborators do, however
    long the exploration loop runs and however the call ends, the store
    after [run_dynamic_polychord] holds every settings object that
    existed before the call with the attribute values it had; in
    particular the object [pc_settings_in] refers to is not modified.
    All assignments go to the two deep copies. *)
Theorem run_dynamic_polychord_frame {World : Type}
    (run_polychord : Settings → World → res Output * World)
    (process_polychord_run : string → World → res Run)
    (get_logx : list Z → list Q)
    (rel_posterior_mass : list Q → list fl → list Q)
    (double_mul double_div : Q → Z → Q)
    (copyfile : string → string → World → res unit * World)
    (remove : string → World → res unit * World)
    (save_info : Settings → Output → option Z → World → res unit * World)
    (comm_rank : Z) (fuel : nat) (pc_settings_in : loc) (kw : kwargs)
    (σ : state World) :
  let σ' := (run_dynamic_polychord World run_polychord process_polychord_run
               get_logx rel_posterior_mass double_mul double_div copyfile
               remove save_info comm_rank
               fuel pc_settings_in kw σ).2 in
  heap World σ `prefix_of` heap World σ' ∧
  (∀ l s, heap World σ !! l = Some s → heap World σ' !! l = Some s) ∧
  (∀ s, heap World σ !! pc_settings_in = Some s →
        heap World σ' !! pc_settings_in = Some s).
Proof.
  intros σ'.
  assert (Hpre : heap World σ `prefix_of` heap World σ').
  { by apply (keeps_run_dynamic_polychord run_polychord process_polychord_run
                get_logx rel_posterior_mass double_mul double_div copyfile
                remove save_info
                comm_rank (heap World σ) fuel pc_settings_in kw σ). }
  split; [done|].
  assert (Hall : ∀ l s, heap World σ !! l = Some s →
                        heap World σ' !! l = Some s).
  { intros l s Hl. by eapply prefix_lookup_Some. }
  split; [done|]. intros s. apply Hall.
Qed.
End DriverFacts.

(** ** The driver on the synthetic sampler *)

Module SyntheticRuns.
Import Driver Synthetic.

(** The stop test at the third iteration of the synthetic run, from the
    history [50, 100]. *)
Lemma explore_iter_stop_witness :
  syn_explore_iter 1%nat 10 50 vars2 state2 = (Ok vars3, state3) ∧
  v_step_ndead vars3 = [50; 100; 101] ∧
  (v_add_points vars3 = false ↔ ends_plus_one (v_step_ndead vars3)) ∧
  v_add_points vars3 = false.
Proof.
  assert (H : syn_explore_iter 1%nat 10 50 vars2 state2 = (Ok vars3, state3))
    by (vm_compute; reflexivity).
  split; [exact H|]. split; [vm_compute; reflexivity|].
  destruct (DriverFacts.explore_iter_stop syn_run_polychord
              syn_process_polychord_run syn_copyfile 1%nat 10 50 vars2 vars3
              state2 state3 eq_refl H)
    as (_ & Hiff & _ & _ & _ & _ & Hstop).
  split; [exact Hiff|]. apply Hstop. vm_compute; reflexivity.
Defined.

(** The whole exploration loop on the synthetic sampler: three
    iterations are needed and suffice. *)
Example explore_loop_synthetic :
  let σ0 := mkState nat
              [settings_in; mkSettings "gauss_init" "chains" 10 ∅ false true 0]
              0%nat in
  let vs0 := mkVars [] ∅ true None in
  (syn_explore_loop 2 1%nat 10 50 vs0 σ0).1 = OutOfFuel ∧
  v_step_ndead (value_of vs0 (syn_explore_loop 3 1%nat 10 50 vs0 σ0).1)
    = [50; 100; 101].
Proof. split; vm_compute; reflexivity. Qed.

(** The driver on the synthetic sampler returns, and leaves three
    settings objects: the caller's, untouched, and the two copies. *)
Example run_dynamic_polychord_synthetic :
  let r := syn_run_dynamic_polychord 3 0%nat no_kwargs
             (mkState nat [settings_in] 0%nat) in
  r.1 = Ok tt ∧
  (λ s, (file_root s, nlive s, read_resume s, max_ndead s))
    <$> heap nat r.2
  = [("gauss", 200, false, 1000); ("gauss_init", 10, true, 150);
     ("gauss_dyn", 1, true, 1000)] ∧
  heap nat r.2 !! 0%nat = Some settings_in.
Proof. repeat split; vm_compute; reflexivity. Qed.

(** The frame property at the synthetic run. *)
Lemma run_dynamic_polychord_frame_witness :
  heap nat (syn_run_dynamic_polychord 3 0%nat no_kwargs
              (mkState nat [settings_in] 0%nat)).2 !! 0%nat
  = Some settings_in.
Proof.
  apply (DriverFacts.run_dynamic_polychord_frame syn_run_polychord
           syn_process_polychord_run syn_get_logx syn_rel_posterior_mass
           syn_double_mul syn_double_div syn_copyfile syn_remove
           syn_save_info 0 3 0%nat no_kwargs
           (mkState nat [settings_in] 0%nat)).
  reflexivity.
Defined.
End SyntheticRuns.

(** ** More facts about the numpy helpers *)

Lemma insert_uniq_elem (x y : Z) (l : list Z) :
  y ∈ insert_uniq x l ↔ y = x ∨ y ∈ l.
Proof.
  induction l as [|z l IH]; simpl.
  - rewrite list_elem_of_singleton, elem_of_nil. tauto.
  - destruct (x <? z) eqn:E1; [by rewrite elem_of_cons|].
    destruct (x =? z) eqn:E2.
    + apply Z.eqb_eq in E2 as ->. rewrite elem_of_cons. tauto.
    + rewrite !elem_of_cons, IH. tauto.
Qed.

Lemma insert_uniq_increasing (x : Z) (l : list Z) :
  increasing l → increasing (insert_uniq x l).
Proof.
  unfold increasing. induction l as [|z l IH]; simpl; intros Hl.
  - by repeat constructor.
  - apply StronglySorted_inv in Hl as [Hl Hz].
    destruct (x <? z) eqn:E1.
    + apply Z.ltb_lt in E1. constructor; [by constructor|].
      constructor; [done|]. eapply Forall_impl; [exact Hz|].
      simpl. intros. lia.
    + destruct (x =? z) eqn:E2; [by constructor|].
      apply Z.ltb_ge in E1. apply Z.eqb_neq in E2.
      constructor; [by apply IH|].
      apply Forall_forall. intros y [->|Hy]%insert_uniq_elem; [lia|].
      rewrite Forall_forall in Hz. by apply Hz.
Qed.

Lemma np_unique_elem (x : Z) (l : list Z) : x ∈ np_unique l ↔ x ∈ l.
Proof.
  unfold np_unique. induction l as [|y l IH]; simpl; [done|].
  rewrite insert_uniq_elem, elem_of_cons, IH. done.
Qed.

Lemma np_unique_increasing (l : list Z) : increasing (np_unique l).
Proof.
  unfold np_unique. induction l as [|y l IH]; simpl.
  - constructor.
  - by apply insert_uniq_increasing.
Qed.

Lemma increasing_NoDup (l : list Z) : increasing l → NoDup l.
Proof.
  unfold increasing. induction 1 as [|x l Hl IH Hx]; constructor; [|done].
  intros Hin. rewrite Forall_forall in Hx. specialize (Hx x Hin). lia.
Qed.

Lemma np_unique_NoDup (l : list Z) : NoDup (np_unique l).
Proof. apply increasing_NoDup, np_unique_increasing. Qed.

Lemma delete_from_length {A} (l : list A) (inds : list nat) (i : nat) :
  (length (delete_from i inds l)
   + length (filter (λ j, j ∈ inds) (seq i (length l))))%nat = length l.
Proof.
  revert i. induction l as [|x l IH]; intros i; simpl; [done|].
  rewrite filter_cons. specialize (IH (S i)).
  case_bool_decide; case_decide; simpl; try done; lia.
Qed.

Lemma np_delete_length {A} (l l' : list A) (inds : list nat) :
  NoDup inds → np_delete l inds = Ok l' →
  (length l' + length inds)%nat = length l.
Proof.
  unfold np_delete. intros Hnd.
  destruct (forallb _ inds) eqn:Hall; [|done]. intros [= <-].
  etransitivity; [|apply (delete_from_length l inds 0)]. f_equal.
  apply Permutation_length, NoDup_Permutation; [done | |].
  - apply NoDup_filter, NoDup_seq.
  - intros j. rewrite list_elem_of_filter, elem_of_seq. split.
    + intros Hj. split; [done|].
      rewrite forallb_forall in Hall. apply list_elem_of_In, Hall in Hj.
      apply Nat.ltb_lt in Hj. lia.
    + by intros [? _].
Qed.

Lemma np_delete_Ok {A B} (l : list A) (l' : list B) (inds : list nat) :
  length l = length l' → is_Ok (np_delete l inds) → is_Ok (np_delete l' inds).
Proof.
  unfold np_delete. intros <-. destruct (forallb _ inds).
  - intros _. by eexists.
  - by intros [? ?].
Qed.

(** Splitting a list by the value of a key, one class after the other,
    rearranges it. *)
Lemma filter_classes {A} (f : A → Z) (l : list A) (keys : list Z) :
  NoDup keys →
  mjoin ((λ k, filter (λ x, f x = k) l) <$> keys)
  ≡ₚ filter (λ x, f x ∈ keys) l.
Proof.
  induction 1 as [|k keys Hk Hnd IH]; simpl.
  - induction l as [|x l IHl]; [done|]. rewrite filter_cons.
    case_decide as H; [by apply elem_of_nil in H | done].
  - rewrite IH. clear IH. induction l as [|x l IHl]; [done|].
    rewrite !filter_cons.
    destruct (decide (f x = k)) as [Hx|Hx].
    + rewrite (decide_True (P := f x ∈ k :: keys)) by (subst; by left).
      rewrite (decide_False (P := f x ∈ keys)) by (subst; done).
      simpl. by f_equiv.
    + destruct (decide (f x ∈ keys)) as [Hin|Hin].
      * rewrite (decide_True (P := f x ∈ k :: keys)) by by right.
        rewrite <- Permutation_middle. by f_equiv.
      * rewrite (decide_False (P := f x ∈ k :: keys)); [done|].
        intros [?|?]%elem_of_cons; done.
Qed.

(** ** Threads *)

Lemma res_bind_Ok {A B} (r : res A) (k : A → res B) (b : B) :
  r ≫= k = Ok b ↔ ∃ a, r = Ok a ∧ k a = Ok b.
Proof.
  destruct r as [a|e|]; simpl; split.
  - intros H. by exists a.
  - by intros (a' & [= <-] & H).
  - done.
  - by intros (? & ? & _).
  - done.
  - by intros (? & ? & _).
Qed.

Lemma zip_samples_logl (ls : list fl) (labs nl : list Z) (th : list (list Q)) :
  length labs = length ls → length nl = length ls → length th = length ls →
  s_logl <$> zip_samples ls labs nl th = ls ∧
  s_label <$> zip_samples ls labs nl th = labs.
Proof.
  revert labs nl th.
  induction ls as [|l ls IH]; intros [|b labs] [|n nl] [|t th]; simpl;
    try done.
  intros [= H1] [= H2] [= H3]. destruct (IH labs nl th H1 H2 H3) as [E1 E2].
  split; f_equal; assumption.
Qed.

Lemma run_samples_Ok (r : Run) (samples : list Sample) :
  run_samples r = Ok samples →
  s_logl <$> samples = logl r ∧ s_label <$> samples = thread_labels r.
Proof.
  unfold run_samples. case_bool_decide as H; [|done].
  destruct H as (H1 & H2 & H3). intros [= <-]. by apply zip_samples_logl.
Qed.

Lemma threads_from_Ok (samples : list Sample) (tmm : list (fl * fl))
    (i : nat) (labs : list Z) (ths : list Thread) :
  threads_from samples tmm i labs = Ok ths →
  th_samples <$> ths = (λ k, filter (λ x, s_label x = k) samples) <$> labs.
Proof.
  revert i ths. induction labs as [|lab labs IH]; intros i ths; simpl.
  - by intros [= <-].
  - intros (bounds & _ & H)%res_bind_Ok.
    apply res_bind_Ok in H as (ths' & Hths' & [= <-]).
    simpl. f_equal. by eapply IH.
Qed.

(** The threads of a run hold every sample of the run, once. *)
Lemma get_run_threads_samples (r : Run) (ths : list Thread) :
  get_run_threads r = Ok ths →
  s_logl <$> mjoin (th_samples <$> ths) ≡ₚ logl r.
Proof.
  unfold get_run_threads. intros (samples & Hs & Hth)%res_bind_Ok.
  apply threads_from_Ok in Hth. rewrite Hth.
  apply run_samples_Ok in Hs as [<- Hlab].
  rewrite (filter_classes s_label samples _ (np_unique_NoDup _)).
  assert (Hgen : ∀ (keys : list Z) (l : list Sample),
            (∀ x, x ∈ l → s_label x ∈ keys) →
            filter (λ x, s_label x ∈ keys) l = l).
  { intros keys l Hl. induction l as [|y l IHl]; [done|].
    rewrite filter_cons, decide_True by (apply Hl; by left).
    f_equal. apply IHl. intros z Hz. apply Hl. by right. }
  rewrite Hgen; [done|].
  intros y Hy. apply np_unique_elem. rewrite <- Hlab.
  apply list_elem_of_fmap. by exists y.
Qed.

Lemma labelled_samples_logl (ths : list Thread) :
  s_logl <$> labelled_samples ths = s_logl <$> mjoin (th_samples <$> ths).
Proof.
  unfold labelled_samples.
  assert (Hgen : ∀ (g : nat → Z) (ths : list Thread),
    s_logl <$> mjoin (imap (λ i t, (λ x, mkSample (s_logl x) (g i) (s_nlive x)
                                           (s_theta x)) <$> th_samples t) ths)
    = s_logl <$> mjoin (th_samples <$> ths)).
  { clear ths. intros g ths. revert g.
    induction ths as [|t ths IH]; intros g; [done|]. simpl.
    rewrite !fmap_app. f_equal.
    - rewrite <- list_fmap_compose. by apply list_fmap_ext.
    - apply (IH (g ∘ S)). }
  apply (Hgen Z.of_nat).
Qed.

(** The combined run has the samples of its threads. *)
Lemma combine_threads_logl (ths : list Thread) (b : bool) (run : Run) :
  combine_threads ths b = Ok run →
  logl run ≡ₚ s_logl <$> mjoin (th_samples <$> ths).
Proof.
  unfold combine_threads. intros (_ & _ & [= <-])%res_bind_Ok. simpl.
  rewrite <- labelled_samples_logl. f_equiv. apply merge_sort_Permutation.
Qed.

Lemma combine_two_runs_logl (a b : Run) (ta tb : list Thread) (flag : bool)
    (run : Run) :
  get_run_threads a = Ok ta → get_run_threads b = Ok tb →
  combine_threads (ta ++ tb) flag = Ok run →
  logl run ≡ₚ logl a ++ logl b.
Proof.
  intros Ha Hb Hrun. rewrite (combine_threads_logl _ _ _ Hrun).
  rewrite fmap_app, join_app, fmap_app.
  by rewrite (get_run_threads_samples _ _ Ha), (get_run_threads_samples _ _ Hb).
Qed.

(** ** The merge, phase by phase *)

Module MergeFacts.
Import Merge.

Section merge.
Variables (σ0 : store) (init dyn : loc) (i0 d0 : Run).
Hypothesis Hne : init ≠ dyn.
Hypothesis Hi0 : σ0 !! init = Some i0.
Hypothesis Hd0 : σ0 !! dyn = Some d0.

Local Abbreviation st := (with_run σ0 init).

Lemma st_init : st i0 = σ0.
Proof. unfold with_run. by apply list_insert_id. Qed.

Lemma st_lookup_init (i : Run) : st i !! init = Some i.
Proof.
  unfold with_run. apply list_lookup_insert_eq. by eapply lookup_lt_Some.
Qed.

Lemma st_lookup_dyn (i : Run) : st i !! dyn = Some d0.
Proof. unfold with_run. by rewrite list_lookup_insert_ne. Qed.



Lemma readr_init (i : Run) : readr init (st i) = (Ok i, st i).
Proof. unfold readr, index. by rewrite st_lookup_init. Qed.

Lemma readr_dyn (i : Run) : readr dyn (st i) = (Ok d0, st i).
Proof. unfold readr, index. by rewrite st_lookup_dyn. Qed.

Lemma setitem_init (f : Run → Run) (i : Run) :
  setitem init f (st i) = (Ok tt, st (f i)).
Proof.
  unfold setitem. rewrite bind_unfold, readr_init.
  unfold modify_state, with_run. cbn. by rewrite list_insert_insert_eq.
Qed.

Ltac step :=
  rewrite bind_unfold;
  first [ rewrite readr_init | rewrite readr_dyn | rewrite setitem_init
        | unfold lift at 1 ];
  cbn [fst snd].

(** Lines 91-95. *)
Lemma truncate_init_run (k : Z) (i : Run) :
  truncate_init init dyn k (st i) =
  if array_equal (slice_to k (logl i)) (slice_to k (logl d0))
  then (Ok tt, st (truncated k i))
  else (Raise (AssertionError site_prefix), st i).
Proof.
  unfold truncate_init. do 3 step. unfold assert_that.
  destruct (array_equal _ _); [|done].
  do 3 step. by rewrite setitem_init.
Qed.
Lemma th_first_Some (labels : list Z) (lab : Z) :
  lab ∈ labels → is_Some (th_first labels lab).
Proof.
  intros Hin. unfold th_first, np_where.
  destruct (where_from (eqb_Z lab) 0 labels) as [|j l] eqn:E; [|by eexists].
  rewrite where_from_nil in E. specialize (E lab Hin).
  unfold eqb_Z in E. by rewrite bool_decide_eq_false in E.
Qed.

Lemma th_first_lookup (labels : list Z) (lab : Z) (j : nat) :
  th_first labels lab = Some j → labels !! j = Some lab.
Proof.
  unfold th_first, np_where. rewrite where_from_head.
  intros (k & x & -> & Hk & Hx & _). unfold eqb_Z in Hx.
  rewrite bool_decide_eq_true in Hx. by subst.
Qed.

Lemma index_head {A} (l : list A) : index l 0 = match head l with
                                                 | Some x => Ok x
                                                 | None => Raise IndexError
                                                 end.
Proof. unfold index. by rewrite head_lookup. Qed.

Ltac step_in H :=
  rewrite bind_unfold in H;
  first [ rewrite readr_init in H | rewrite readr_dyn in H
        | rewrite setitem_init in H | unfold lift at 1 in H ];
  cbn [fst snd] in H.

(** Lines 100-108. *)
Lemma live_loop_run (i1 : Run) (labs : list Z) (n : nat)
    (live empty : list nat) (tmm : list (fl * fl))
    (r : res (list nat * list nat)) (σ : store) :
  live_loop init dyn n labs live empty (st (set_thread_min_max tmm i1))
    = (r, σ) →
  ∃ tmm',
    length tmm' = length tmm ∧
    σ = st (set_thread_min_max tmm' i1) ∧
    match r with
    | Ok (live', empty') =>
        live' = live ++ omap (th_first (thread_labels i1)) labs ∧
        length (omap (th_first (thread_labels i1)) labs) = length labs ∧
        empty' = empty ++ empty_inds_from (thread_labels i1) n labs ∧
        tmm' = births_from (thread_labels i1) (logl i1) n labs tmm ∧
        Forall (live_once (thread_labels i1) (logl i1) (logl d0)) labs
    | Raise e =>
        (e = IndexError ∧
         ¬ (Forall (λ lab, lab ∈ thread_labels i1) labs ∧
            (length (thread_labels i1) ≤ length (logl i1))%nat ∧
            (n + length labs ≤ length tmm)%nat)) ∨
        (e = AssertionError site_live ∧
         Exists (live_not_once (thread_labels i1) (logl i1) (logl d0)) labs)
    | OutOfFuel => False
    end.
Proof.
  revert n live empty tmm.
  induction labs as [|lab rest IH]; intros n live empty tmm H.
  { injection H as <- <-. exists tmm. split; [done|]. split; [done|]. simpl.
    rewrite !app_nil_r. by repeat split. }
  cbn [live_loop] in H. step_in H. cbn [thread_labels set_thread_min_max] in H.
  step_in H. rewrite index_head in H. fold (th_first (thread_labels i1) lab) in H.
  destruct (th_first (thread_labels i1) lab) as [th0|] eqn:Hfirst.
  2:{ injection H as <- <-.
      exists tmm. split; [done|]. split; [done|]. left. split; [done|].
      intros (Hall & _). apply Forall_cons in Hall as [Hin _].
      apply th_first_Some in Hin as [? Hin]. congruence. }
  pose proof (th_first_lookup _ _ _ Hfirst) as Hlab.
  step_in H. step_in H. cbn [logl set_thread_min_max] in H.
  unfold index at 1 in H.
  destruct (logl i1 !! th0) as [v|] eqn:Hv.
  2:{ injection H as <- <-.
      exists tmm. split; [done|]. split; [done|]. left. split; [done|].
      intros (_ & Hlen & _). apply lookup_lt_Some in Hlab.
      apply lookup_ge_None in Hv. lia. }
  assert (Hlive : live_logl_of (thread_labels i1) (logl i1) lab = Some v).
  { unfold live_logl_of. rewrite Hfirst. done. }
  step_in H. step_in H. unfold assert_that in H. case_bool_decide as Hcount.
  2:{ injection H as <- <-.
      exists tmm. split; [done|]. split; [done|]. right. split; [done|].
      left. by exists v. }
  step_in H. step_in H. cbn [thread_min_max set_thread_min_max] in H.
  unfold set_birth, index in H. destruct (tmm !! n) as [row|] eqn:Hrow.
  2:{ injection H as <- <-.
      exists tmm. split; [done|]. split; [done|]. left. split; [done|].
      intros (_ & _ & Hlen). apply lookup_ge_None in Hrow. simpl in Hlen. lia. }
  cbn [mbind res_mbind res_bind] in H. step_in H.
  change (set_thread_min_max (<[n:=(v, row.2)]> tmm)
            (set_thread_min_max tmm i1))
    with (set_thread_min_max (<[n:=(v, row.2)]> tmm) i1) in H.
  apply IH in H as (tmm' & Hlen' & Hst & Hres).
  exists tmm'. rewrite length_insert in Hlen'. split; [done|]. split; [done|].
  destruct r as [[live' empty']|e|]; [| |done].
  - destruct Hres as (-> & Hlenf & -> & -> & Hall).
    cbn [omap list_omap empty_inds_from births_from length].
    rewrite Hfirst, Hlive, Hrow. cbn [length].
    split; [by rewrite <- app_assoc|]. split; [by rewrite Hlenf|].
    split.
    { destruct (bool_decide (length _ = 1%nat)); [|done].
      by rewrite <- app_assoc. }
    split; [done|]. constructor; [by exists v | done].
  - destruct Hres as [[-> Hbad]|[-> Hbad]].
    + left. split; [done|]. intros (Hall & Hlen & Hn). apply Hbad.
      apply Forall_cons in Hall as [_ Hall]. rewrite length_insert.
      simpl in Hn. split; [done|]. split; [done | lia].
    + right. split; [done|]. by right.
Qed.

(** Lines 110-112. *)
Lemma delete_live_run (live : list nat) (i : Run) (r : res unit) (σ : store) :
  delete_live init live (st i) = (r, σ) →
  ∃ i', σ = st i' ∧ thread_min_max i' = thread_min_max i ∧
    match r with
    | Ok _ => i' = live_deleted live i ∧ is_Ok (np_delete (logl i) live)
    | Raise e => e = IndexError
    | OutOfFuel => False
    end.
Proof.
  unfold delete_live. intros H.
  step_in H. step_in H. unfold np_delete at 1 in H.
  destruct (forallb _ live); [|injection H as <- <-; by exists i].
  cbn [fst snd] in H. step_in H. step_in H. step_in H.
  cbn [nlive_array set_theta] in H. unfold np_delete at 1 in H.
  destruct (forallb _ live); [|injection H as <- <-; by eexists].
  cbn [fst snd] in H. step_in H. step_in H. step_in H.
  cbn [logl set_theta set_nlive_array] in H.
  destruct (np_delete (logl i) live) as [v| |] eqn:Hv;
    [|injection H as <- <-; eexists; split; [done|]; split; [done|];
      unfold np_delete in Hv; by destruct (forallb _ live); simplify_eq
     |unfold np_delete in Hv; by destruct (forallb _ live)].
  cbn [fst snd] in H. step_in H. step_in H. step_in H.
  cbn [thread_labels set_logl set_theta set_nlive_array] in H.
  unfold np_delete at 1 in H.
  destruct (forallb _ live); [|injection H as <- <-; by eexists].
  cbn [fst snd] in H. rewrite setitem_init in H. injection H as <- <-.
  eexists. split; [done|]. split; [done|]. split; [|by eexists].
  unfold np_delete in Hv. destruct (forallb _ live); [|done].
  by injection Hv as <-.
Qed.

Lemma index_cases {A} (l : list A) (j : nat) :
  (∃ x, index l j = Ok x ∧ l !! j = Some x) ∨ index l j = Raise IndexError.
Proof. unfold index. destruct (l !! j); [left; by eexists | by right]. Qed.

Lemma index_Z_cases {A} (l : list A) (j : Z) :
  (∃ x, index_Z l j = Ok x) ∨ index_Z l j = Raise IndexError.
Proof.
  unfold index_Z. destruct (0 <=? j).
  - destruct (index_cases l (Z.to_nat j)) as [(x & -> & _)| ->];
      [left; by eexists | by right].
  - destruct (_ <=? j); [|by right].
    destruct (index_cases l (Z.to_nat (Z.of_nat (length l) + j)))
      as [(x & -> & _)| ->]; [left; by eexists | by right].
Qed.

(** Lines 120-125: the loop reads [init] and does not write to it. *)
Lemma relabel_loop_run (i : Run) (labs : list Z) (n : nat)
    (new : list (option Z)) (r : res (list (option Z))) (σ : store) :
  relabel_loop init n labs new (st i) = (r, σ) →
  σ = st i ∧
  match r with
  | Ok new' => new' = relabelled (thread_labels i) n labs new
  | Raise e => relabel_error e
  | OutOfFuel => False
  end.
Proof.
  revert n new. induction labs as [|lab rest IH]; intros n new H.
  { by injection H as <- <-. }
  cbn [relabel_loop] in H. unfold relabel_error.
  step_in H. step_in H. step_in H.
  destruct (index_cases (thread_min_max i) n) as [(row & E & _)|E];
    rewrite E in H; clear E; [|injection H as <- <-; by auto].
  cbn [fst snd] in H. step_in H.
  destruct (index_cases (np_where (eqb_Z lab) (thread_labels i)) 0)
    as [(i0' & E & _)|E]; rewrite E in H; clear E;
    [|injection H as <- <-; by auto].
  cbn [fst snd] in H. step_in H.
  destruct (index_cases (logl i) i0') as [(l0 & E & _)|E];
    rewrite E in H; clear E; [|injection H as <- <-; by auto].
  cbn [fst snd] in H. step_in H. unfold assert_that in H.
  destruct (fl_leb row.1 l0); [|injection H as <- <-; by auto].
  cbn [fst snd] in H. step_in H. step_in H.
  destruct (index_cases (thread_min_max i) n) as [(row' & E & _)|E];
    rewrite E in H; clear E; [|injection H as <- <-; by auto].
  cbn [fst snd] in H. step_in H.
  destruct (index_Z_cases (np_where (eqb_Z lab) (thread_labels i)) (-1))
    as [(i1' & E)|E]; rewrite E in H; clear E;
    [|injection H as <- <-; by auto].
  cbn [fst snd] in H. step_in H.
  destruct (index_cases (logl i) i1') as [(l1 & E & _)|E];
    rewrite E in H; clear E; [|injection H as <- <-; by auto].
  cbn [fst snd] in H. step_in H.
  destruct (bool_decide (row'.2 = l1)); [|injection H as <- <-; by auto 6].
  cbn [fst snd] in H. by apply IH in H.
Qed.

Lemma np_delete_cases {A} (l : list A) (inds : list nat) :
  np_delete l inds = Ok (delete_from 0 inds l)
  ∨ np_delete l inds = Raise IndexError.
Proof. unfold np_delete. destruct (forallb _ inds); auto. Qed.

(** Lines 115-127. *)
Lemma drop_empty_threads_run (empty : list nat) (i : Run) (r : res unit)
    (σ : store) :
  drop_empty_threads init empty (st i) = (r, σ) →
  ∃ i', σ = st i' ∧
    match r with
    | Ok _ =>
        i' = set_thread_labels (relabel_all (thread_labels i))
               (set_thread_min_max (delete_from 0 empty (thread_min_max i)) i)
    | Raise e =>
        (∃ tmm', i' = set_thread_min_max tmm' i) ∧
        (relabel_error e ∨ e = AssertionError site_nan)
    | OutOfFuel => False
    end.
Proof.
  unfold drop_empty_threads. intros H. step_in H. step_in H.
  destruct (np_delete_cases (thread_min_max i) empty) as [E|E];
    rewrite E in H; clear E; cbn [fst snd] in H.
  2:{ injection H as <- <-. exists i. split; [done|]. split.
      - exists (thread_min_max i). by destruct i.
      - left. by left. }
  step_in H. step_in H. step_in H.
  cbn [thread_labels set_thread_min_max] in H.
  rewrite bind_unfold in H.
  destruct (relabel_loop _ _ _ _ _) as [rl σl] eqn:Hloop.
  apply relabel_loop_run in Hloop as [-> Hrl].
  destruct rl as [new'|e|]; [| |done].
  2:{ injection H as <- <-. eexists. split; [done|]. split; [by eexists|].
      by left. }
  cbn [thread_labels set_thread_min_max] in Hrl. subst new'.
  step_in H. unfold assert_that in H.
  destruct (forallb _ _).
  - cbn [fst snd] in H. rewrite setitem_init in H. injection H as <- <-.
    by eexists.
  - injection H as <- <-. eexists. split; [done|]. split; [by eexists|].
    by right.
Qed.

Lemma get_run_threads_error (r : Run) :
  match get_run_threads r with
  | Ok _ => True
  | Raise e => combine_error e
  | OutOfFuel => False
  end.
Proof.
  unfold get_run_threads, run_samples, combine_error.
  case_bool_decide; simpl; [|by auto].
  generalize 0%nat.
  induction (np_unique (thread_labels r)) as [|lab rest IH]; intros n; simpl;
    [done|].
  destruct (index_cases (thread_min_max r) n) as [(row & -> & _)| ->]; simpl;
    [|by auto].
  specialize (IH (S n)). by destruct (threads_from _ _ _ _).
Qed.

Lemma combine_threads_error (ths : list Thread) (b : bool) :
  match combine_threads ths b with
  | Ok _ => True
  | Raise e => combine_error e
  | OutOfFuel => False
  end.
Proof.
  unfold combine_threads, assert_that, combine_error.
  destruct (_ || _); simpl; auto.
Qed.

Lemma combine_error_not_site (e : exn) :
  combine_error e →
  e ≠ AssertionError site_prefix ∧ e ≠ AssertionError site_live ∧
  e ≠ AssertionError site_birth ∧ e ≠ AssertionError site_death ∧
  e ≠ AssertionError site_nan.
Proof. intros [->|[->| ->]]; by repeat split. Qed.

(** Lines 109-135. *)
Lemma merge_tail_run (live empty : list nat) (i : Run) (r : res Run)
    (σ : store) :
  merge_tail init dyn live empty (st i) = (r, σ) →
  ∃ i', σ = st i' ∧
    match r with
    | Ok run =>
        i' = tail_merged (length (thread_min_max d0)) live empty i ∧
        is_Ok (np_delete (logl i) live) ∧
        logl run ≡ₚ logl d0 ++ logl i'
    | Raise e =>
        e ≠ AssertionError site_prefix ∧ e ≠ AssertionError site_live ∧
        (e = AssertionError site_birth ∨ e = AssertionError site_death
         ∨ e = AssertionError site_nan →
         ∃ tmm', i' = set_thread_min_max tmm' (live_deleted live i))
    | OutOfFuel => False
    end.
Proof.
  unfold merge_tail. intros H. rewrite bind_unfold in H.
  destruct (delete_live _ _ _) as [rd σd] eqn:Hdel.
  apply delete_live_run in Hdel as (i1 & -> & Htmm & Hrd).
  destruct rd as [[]|e|]; [| |done].
  2:{ injection H as <- <-. exists i1. split; [done|]. subst e.
      split; [done|]. split; [done|]. by intros [|[|]]. }
  destruct Hrd as [-> Hok]. clear Htmm.
  rewrite bind_unfold in H.
  set (i2 := if bool_decide (empty = []) then live_deleted live i
             else set_thread_labels
                    (relabel_all (thread_labels (live_deleted live i)))
                    (set_thread_min_max
                       (delete_from 0 empty
                          (thread_min_max (live_deleted live i)))
                       (live_deleted live i))).
  assert (Hmid :
    (∃ e i', (if bool_decide (empty = []) then mret tt
              else drop_empty_threads init empty) (st (live_deleted live i))
             = (Raise e, st i') ∧
             (∃ tmm', i' = set_thread_min_max tmm' (live_deleted live i)) ∧
             (relabel_error e ∨ e = AssertionError site_nan)) ∨
    (if bool_decide (empty = []) then mret tt
     else drop_empty_threads init empty) (st (live_deleted live i))
    = (Ok tt, st i2)).
  { unfold i2. case_bool_decide; [by right|].
    destruct (drop_empty_threads _ _ _) as [rr σr] eqn:Hdrop.
    apply drop_empty_threads_run in Hdrop as (i' & -> & Hr).
    destruct rr as [[]|e|]; [|left|done].
    - right. by subst i'.
    - exists e, i'. by destruct Hr. }
  destruct Hmid as [(e & i' & Hmid & Hst & He)|Hmid]; rewrite Hmid in H.
  { injection H as <- <-. exists i'. split; [done|].
    split; [|split; [|done]].
    - destruct He as [[->|[->| ->]]| ->]; done.
    - destruct He as [[->|[->| ->]]| ->]; done. }
  clear Hmid. do 5 step_in H.
  pose proof (get_run_threads_error d0) as Hed.
  destruct (get_run_threads d0) as [td|e|] eqn:Htd; [| |done].
  2:{ injection H as <- <-. eexists. split; [done|].
      apply combine_error_not_site in Hed as (? & ? & ? & ? & ?).
      split; [done|]. split; [done|]. by intros [|[|]]. }
  cbn [fst snd] in H. step_in H. step_in H.
  match type of H with
  | context [get_run_threads ?x] =>
      pose proof (get_run_threads_error x) as Hei;
      destruct (get_run_threads x) as [ti|e|] eqn:Hti; [| |done]
  end.
  2:{ injection H as <- <-. eexists. split; [done|].
      apply combine_error_not_site in Hei as (? & ? & ? & ? & ?).
      split; [done|]. split; [done|]. by intros [|[|]]. }
  cbn [fst snd] in H. unfold lift in H. injection H as <- <-.
  eexists. split; [done|].
  pose proof (combine_threads_error (td ++ ti) true) as Hec.
  destruct (combine_threads (td ++ ti) true) as [run|e|] eqn:Hrun; [| |done].
  2:{ apply combine_error_not_site in Hec as (? & ? & ? & ? & ?).
      split; [done|]. split; [done|]. by intros [|[|]]. }
  split; [|split; [done|]].
  - unfold tail_merged, i2. by case_bool_decide.
  - by apply (combine_two_runs_logl _ _ td ti true).
Qed.

Lemma array_equal_true (a b : list fl) : array_equal a b = true ↔ a = b.
Proof. unfold array_equal. apply bool_decide_eq_true. Qed.

Lemma live_once_not_once (labels : list Z) (logls dl : list fl) (lab : Z) :
  live_once labels logls dl lab → live_not_once labels logls dl lab → False.
Proof. intros (v & Hv & H1) (v' & Hv' & Hn1). congruence. Qed.

Lemma Forall_Exists_live (labels : list Z) (logls dl : list fl)
    (labs : list Z) :
  Forall (live_once labels logls dl) labs →
  Exists (live_not_once labels logls dl) labs → False.
Proof.
  rewrite Forall_forall, Exists_exists. intros Hall (lab & Hin & Hbad).
  eapply live_once_not_once; [by apply Hall | done].
Qed.

Lemma np_unique_all_in (labels : list Z) :
  Forall (λ lab, lab ∈ labels) (np_unique labels).
Proof. apply Forall_forall. intros lab. by rewrite np_unique_elem. Qed.

(** Lines 82-135: every outcome of the merge, and the run it leaves in
    [init]. *)
Lemma combine_resumed_run (k : Z) (r : res Run) (σ : store) :
  combine_resumed_dyn_run init dyn k σ0 = (r, σ) →
  let i1 := truncated k i0 in
  let labs := np_unique (thread_labels i1) in
  ∃ i', σ = st i' ∧
    match r with
    | Ok run =>
        slice_to k (logl i0) = slice_to k (logl d0) ∧
        Forall (live_once (thread_labels i1) (logl i1) (logl d0)) labs ∧
        length (live_inds_of (thread_labels i1)) = length labs ∧
        i' = tail_merged (length (thread_min_max d0))
               (live_inds_of (thread_labels i1))
               (empty_inds_from (thread_labels i1) 0 labs)
               (set_thread_min_max
                  (births_from (thread_labels i1) (logl i1) 0 labs
                     (thread_min_max i0)) i1) ∧
        is_Ok (np_delete (logl i1) (live_inds_of (thread_labels i1))) ∧
        logl run ≡ₚ logl d0 ++ logl i'
    | Raise e =>
        (e = AssertionError site_prefix ∧
         slice_to k (logl i0) ≠ slice_to k (logl d0) ∧ i' = i0) ∨
        (slice_to k (logl i0) = slice_to k (logl d0) ∧
         ((e = AssertionError site_live ∧
           Exists (live_not_once (thread_labels i1) (logl i1) (logl d0)) labs ∧
           ∃ tmm', i' = set_thread_min_max tmm' i1) ∨
          (e = IndexError ∧
           ¬ ((length (thread_labels i1) ≤ length (logl i1))%nat ∧
              (length labs ≤ length (thread_min_max i0))%nat) ∧
           ∃ tmm', i' = set_thread_min_max tmm' i1) ∨
          (Forall (live_once (thread_labels i1) (logl i1) (logl d0)) labs ∧
           e ≠ AssertionError site_prefix ∧ e ≠ AssertionError site_live ∧
           (e = AssertionError site_birth ∨ e = AssertionError site_death
            ∨ e = AssertionError site_nan →
            ∃ tmm', i' = set_thread_min_max tmm'
                           (live_deleted (live_inds_of (thread_labels i1))
                              i1)))))
    | OutOfFuel => False
    end.
Proof.
  intros H i1 labs. unfold combine_resumed_dyn_run in H.
  rewrite <- st_init in H. rewrite bind_unfold, truncate_init_run in H.
  destruct (array_equal _ _) eqn:Hpre.
  2:{ injection H as <- <-. exists i0. split; [done|]. left.
      split; [done|]. split; [|done]. intros Heq.
      apply array_equal_true in Heq. congruence. }
  apply array_equal_true in Hpre. fold i1 in H.
  step_in H. rewrite bind_unfold in H. fold labs in H.
  replace i1 with (set_thread_min_max (thread_min_max i0) i1) in H at 1
    by (unfold i1, truncated; by destruct i0).
  destruct (live_loop _ _ _ _ _ _ _) as [rl σl] eqn:Hloop.
  apply live_loop_run in Hloop as (tmm' & Hlen & -> & Hrl).
  cbn [thread_labels logl set_thread_min_max] in Hrl.
  destruct rl as [[live empty]|e|]; [| |done].
  2:{ injection H as <- <-. eexists. split; [done|]. right. split; [done|].
      destruct Hrl as [[-> Hbad]|[-> Hbad]].
      - right. left. split; [done|]. split; [|by eexists].
        intros [H1 H2]. apply Hbad. split; [apply np_unique_all_in|].
        split; [done|]. simpl. done.
      - left. split; [done|]. split; [done|]. by eexists. }
  destruct Hrl as (-> & Hlenf & -> & -> & Hall). simpl in H.
  apply merge_tail_run in H as (i' & -> & Hr).
  exists i'. split; [done|].
  fold (live_inds_of (thread_labels i1)) in Hr, Hlenf.
  destruct r as [run|e|]; [| |done].
  - destruct Hr as (-> & Hok & Hperm). by repeat split.
  - destruct Hr as (Hn1 & Hn2 & Hst). right. split; [done|]. right. right.
    split; [done|]. split; [done|]. split; [done|].
    intros He. destruct (Hst He) as [tmm'' ->]. by exists tmm''.
Qed.

End merge.










Lemma slice_to_nonneg {A} (k : Z) (l : list A) :
  0 ≤ k → slice_to k l = take (Z.to_nat k) l.
Proof. intros Hk. unfold slice_to. by rewrite (proj2 (Z.leb_le 0 k)). Qed.

Lemma slice_from_nonneg {A} (k : Z) (l : list A) :
  0 ≤ k → slice_from k l = drop (Z.to_nat k) l.
Proof. intros Hk. unfold slice_from. by rewrite (proj2 (Z.leb_le 0 k)). Qed.

Lemma logl_tail_merged (T : nat) (live empty : list nat) (i : Run) :
  logl (tail_merged T live empty i) = delete_from 0 live (logl i).
Proof. reflexivity. Qed.

Lemma live_inds_of_NoDup (labels : list Z) : NoDup (live_inds_of labels).
Proof.
  unfold live_inds_of. pose proof (np_unique_NoDup labels) as Hnd.
  induction Hnd as [|lab labs Hnotin Hnd IH]; simpl; [constructor|].
  destruct (th_first labels lab) as [j|] eqn:Hj; [|done].
  constructor; [|done]. intros Hin. apply Hnotin.
  apply list_elem_of_omap in Hin as (lab' & Hlab' & Hj').
  apply th_first_lookup in Hj, Hj'. by simplify_eq.
Qed.

(** C1 (amended). When the merge of an exploratory and a dynamic run
    returns, the two runs agree on their first [k] log-likelihoods, the
    merged run has [exploratory_len + dynamic_len - k - n] samples, [n]
    being the number of threads present in the exploratory tail (one
    live-at-resume point each), and its log-likelihoods are those of the
    dynamic run together with those that remain in the exploratory run:
    they are free of duplicates exactly when these are. *)
Theorem combine_resumed_count (σ0 : list Run) (init dyn : loc) (i0 d0 : Run)
    (k : Z) (run : Run) (σ : list Run) :
  init ≠ dyn → σ0 !! init = Some i0 → σ0 !! dyn = Some d0 →
  0 ≤ k ≤ Z.of_nat (length (logl i0)) →
  combine_resumed_dyn_run init dyn k σ0 = (Ok run, σ) →
  take (Z.to_nat k) (logl i0) = take (Z.to_nat k) (logl d0) ∧
  Z.of_nat (length (logl run)) =
    Z.of_nat (length (logl i0)) + Z.of_nat (length (logl d0)) - k
    - Z.of_nat (length (np_unique (drop (Z.to_nat k) (thread_labels i0)))) ∧
  ∃ i', σ !! init = Some i' ∧
    logl i' = delete_from 0
                (live_inds_of (drop (Z.to_nat k) (thread_labels i0)))
                (drop (Z.to_nat k) (logl i0)) ∧
    logl run ≡ₚ logl d0 ++ logl i' ∧
    (NoDup (logl run) ↔
     NoDup (logl d0) ∧ (∀ x, x ∈ logl d0 → x ∉ logl i') ∧ NoDup (logl i')).
Proof.
  intros Hne Hi0 Hd0 Hk Hrun.
  destruct (combine_resumed_run σ0 init dyn i0 d0 Hne Hi0 Hd0 k _ _ Hrun)
    as (i' & -> & Hpre & _ & Hlive & -> & Hok & Hperm).
  rewrite !slice_to_nonneg in Hpre by lia. split; [done|].
  rewrite logl_tail_merged in *.
  cbn [logl truncated set_thread_min_max thread_labels] in *.
  rewrite !slice_from_nonneg in * by lia.
  destruct Hok as [l' Hl'].
  pose proof (np_delete_length _ _ _ (live_inds_of_NoDup _) Hl') as Hlen.
  assert (l' = delete_from 0
                 (live_inds_of (drop (Z.to_nat k) (thread_labels i0)))
                 (drop (Z.to_nat k) (logl i0))) as ->.
  { destruct (np_delete_cases (drop (Z.to_nat k) (logl i0))
                (live_inds_of (drop (Z.to_nat k) (thread_labels i0))));
      congruence. }
  split.
  - rewrite (Permutation_length Hperm), length_app.
    rewrite length_drop in Hlen. lia.
  - eexists. split; [by eapply st_lookup_init|].
    rewrite logl_tail_merged. cbn [logl truncated set_thread_min_max].
    rewrite !slice_from_nonneg by lia. split; [done|].
    split; [done|]. rewrite Hperm. apply NoDup_app.
Qed.

(** C7. With the exploratory and the dynamic run in two different
    objects and [resume_ndead >= 0]:
    - if the first [resume_ndead] log-likelihoods of the two runs are
      not equal, the merge raises the assertion of line 91 and nothing
      has been changed;
    - if they are equal and the live-at-resume point of some thread of
      the exploratory tail occurs in the dynamic run a number of times
      other than one, the merge raises: the assertion of line 106, or
      an [IndexError] before it when the arrays of the exploratory run
      do not fit each other;
    - if they are equal and every live-at-resume point occurs exactly
      once, neither of the two assertions stops the merge. *)
Theorem combine_resumed_checks (σ0 : list Run) (init dyn : loc) (i0 d0 : Run)
    (k : Z) :
  init ≠ dyn → σ0 !! init = Some i0 → σ0 !! dyn = Some d0 → 0 ≤ k →
  let tail_labels := drop (Z.to_nat k) (thread_labels i0) in
  let tail_logl := drop (Z.to_nat k) (logl i0) in
  let result := combine_resumed_dyn_run init dyn k σ0 in
  (take (Z.to_nat k) (logl i0) ≠ take (Z.to_nat k) (logl d0) →
   result = (Raise (AssertionError site_prefix), σ0)) ∧
  (take (Z.to_nat k) (logl i0) = take (Z.to_nat k) (logl d0) →
   Exists (live_not_once tail_labels tail_logl (logl d0))
     (np_unique tail_labels) →
   ∃ e, result.1 = Raise e ∧
        (e = AssertionError site_live ∨ e = IndexError) ∧
        ((length tail_labels ≤ length tail_logl)%nat →
         (length (np_unique tail_labels) ≤ length (thread_min_max i0))%nat →
         e = AssertionError site_live)) ∧
  (take (Z.to_nat k) (logl i0) = take (Z.to_nat k) (logl d0) →
   Forall (live_once tail_labels tail_logl (logl d0)) (np_unique tail_labels) →
   result.1 ≠ Raise (AssertionError site_prefix) ∧
   result.1 ≠ Raise (AssertionError site_live) ∧
   result.1 ≠ OutOfFuel).
Proof.
  intros Hne Hi0 Hd0 Hk tail_labels tail_logl result.
  destruct result as [r σ] eqn:Hres. unfold result in Hres.
  destruct (combine_resumed_run σ0 init dyn i0 d0 Hne Hi0 Hd0 k _ _ Hres)
    as (i' & -> & Hr).
  rewrite !slice_to_nonneg in Hr by lia.
  cbn [logl truncated thread_labels] in Hr.
  rewrite !slice_from_nonneg in Hr by lia.
  fold tail_labels tail_logl in Hr. cbn [fst].
  split; [|split].
  - intros Hpre. destruct r as [run|e|]; [| |done].
    + by destruct Hr as (? & _).
    + destruct Hr as [(-> & _ & ->)|[? _]]; [|done].
      by rewrite (st_init σ0 init i0).
  - intros Hpre Hbad. destruct r as [run|e|]; [| |done].
    + destruct Hr as (_ & Hall & _).
      destruct (Forall_Exists_live _ _ _ _ Hall Hbad).
    + exists e. split; [done|].
      destruct Hr as [(_ & ? & _)|[_ [(-> & _)|[(-> & Hwf & _)|(Hall & _)]]]].
      * done.
      * split; [by left | done].
      * split; [by right|]. intros H1 H2. by destruct Hwf.
      * destruct (Forall_Exists_live _ _ _ _ Hall Hbad).
  - intros Hpre Hall. destruct r as [run|e|]; [done| |done].
    destruct Hr as [(_ & ? & _)|[_ [(-> & Hbad & _)|[(-> & _)|(_ & ? & ? & _)]]]].
    + done.
    + destruct (Forall_Exists_live _ _ _ _ Hall Hbad).
    + done.
    + split; [congruence|]. split; [congruence | done].
Qed.

(** ** What the merge leaves, position by position

    The descriptions of the model and the notions of the statement of
    C9: [delete_from] and the positions that are left out, the live
    points and the first samples of the threads, the threads with a
    single sample, the new labels and the ranks. *)




















End MergeFacts.

(** ** Loading the runs *)

Lemma all_born_at_start_spec (r : Run) :
  all_born_at_start r = true ↔ Forall (λ b, b.1 = NInf) (thread_min_max r).
Proof.
  unfold all_born_at_start. rewrite forallb_forall, Forall_forall.
  split; intros H b Hb.
  - apply list_elem_of_In, H in Hb. by apply bool_decide_eq_true in Hb.
  - apply bool_decide_eq_true, H. by apply list_elem_of_In.
Qed.

Module ProcessingFacts.
Import Merge Processing.

Lemma readr_alloc (σ : list Run) (r : Run) (rest : list Run) :
  readr (length σ) (σ ++ r :: rest) = (Ok r, σ ++ r :: rest).
Proof. unfold readr, index. by rewrite list_lookup_middle. Qed.

(** C10. When the keyword arguments are in order and the exploratory
    run is loaded:
    - if not every thread of the exploratory run has the birth bound
      [-inf], [process_dypolychord_run] raises the assertion of line 47;
      the store then holds the loaded exploratory run as it was loaded
      and nothing else: the dynamic run has not been loaded and nothing
      has been merged;
    - if every thread has, [dynamic_goal == 0], the dynamic run and its
      information are loaded and not every thread of the dynamic run has
      the birth bound [-inf], it raises the assertion of line 56, with
      both runs in the store as they were loaded. *)
Theorem process_dypolychord_run_births
    (process_polychord_run : string → string → bool → res Run)
    (pickle_load : string → res (gmap string pyval))
    (path_join : string → string → string)
    (check_ns_run : Run → res unit)
    (file_root base_dir : string) (kw : pkwargs) (goal : pyval)
    (init_run : Run) (σ0 : list Run) :
  pk_dynamic_goal kw = Some goal →
  pk_other kw = [] →
  process_polychord_run (file_root +:+ "_init") base_dir
    (default false (pk_logl_warn_only kw)) = Ok init_run →
  let result :=
    process_dypolychord_run process_polychord_run pickle_load path_join
      check_ns_run file_root base_dir kw σ0 in
  (¬ Forall (λ b, b.1 = NInf) (thread_min_max init_run) →
   result = (Raise (AssertionError site_init_birth), σ0 ++ [init_run])) ∧
  (∀ dyn_run info,
     Forall (λ b, b.1 = NInf) (thread_min_max init_run) →
     process_polychord_run (file_root +:+ "_dyn") base_dir
       (default false (pk_logl_warn_only kw)) = Ok dyn_run →
     pickle_load (path_join base_dir (file_root +:+ "_dyn_info")) = Ok info →
     goal = PInt 0 →
     ¬ Forall (λ b, b.1 = NInf) (thread_min_max dyn_run) →
     result = (Raise (AssertionError site_dyn_birth),
               σ0 ++ [init_run; dyn_run])).
Proof.
  intros Hgoal Hother Hinit result. unfold result, process_dypolychord_run.
  clear result. rewrite Hgoal, Hother.
  split; [intros Hbad | intros dyn_run info Hgood Hdyn Hinfo -> Hbad];
    rewrite bind_unfold; unfold lift at 1;
    rewrite bind_unfold, bool_decide_eq_true_2 by done;
    cbn [mret M_ret]; rewrite bind_unfold, Hinit; unfold lift at 1;
    rewrite bind_unfold; unfold alloc at 1;
    rewrite bind_unfold, readr_alloc;
    rewrite bind_unfold; unfold lift at 1, assert_that at 1.
  - rewrite <- all_born_at_start_spec in Hbad.
    apply not_true_is_false in Hbad. by rewrite Hbad.
  - apply all_born_at_start_spec in Hgood.
    rewrite <- all_born_at_start_spec in Hbad.
    apply not_true_is_false in Hbad. rewrite Hgood.
    rewrite bind_unfold, Hdyn. unfold lift at 1.
    rewrite bind_unfold. unfold alloc at 1.
    rewrite bind_unfold, Hinfo. unfold lift at 1.
    rewrite bind_unfold. rewrite bool_decide_eq_true_2 by done.
    rewrite bind_unfold.
    replace (S (length σ0)) with (length (σ0 ++ [init_run]))
      by (rewrite length_app; simpl; lia).
    rewrite (readr_alloc (σ0 ++ [init_run]) dyn_run []).
    unfold lift, assert_that. rewrite Hbad.
    by rewrite <- app_assoc.
Qed.
End ProcessingFacts.

(** ** The merge and the loader on synthetic runs *)

Module MergeRuns.
Import Merge MergeExamples.

(** C1 (as stated). [init_b] and [dyn_b] share the exact prefix 10, 20
    (they differ at the next sample) and the merge with
    [resume_ndead = 2] returns, with 5 + 6 - 2 - 2 = 7 samples, but the
    merged run holds the log-likelihood 50 twice: the sample 50 of the
    exploratory tail is neither in the prefix nor a live point, and
    nothing compares it with the samples of the dynamic run. *)
Lemma combine_resumed_duplicates :
  take 2 (logl init_b) = take 2 (logl dyn_b) ∧
  logl init_b !! 2%nat ≠ logl dyn_b !! 2%nat ∧
  (combine_resumed_dyn_run 0%nat 1%nat 2 [init_b; dyn_b]).1 = Ok merged_b ∧
  logl merged_b = Fin <$> [10; 20; 25; 30; 40; 50; 50] ∧
  ¬ NoDup (logl merged_b).
Proof.
  split; [reflexivity|]. split; [vm_compute; discriminate|].
  split; [vm_compute; reflexivity|].
  split; [reflexivity|]. intros H.
  assert (Hb : bool_decide (NoDup (logl merged_b)) = true)
    by by apply bool_decide_eq_true.
  vm_compute in Hb. discriminate.
Qed.

(** The count of the merged run of [init_a] and [dyn_a]:
    8 + 8 - 2 - 2 = 12 samples, without duplicates. *)
Lemma combine_resumed_count_witness :
  result_a = (Ok merged_a, result_a.2) ∧
  Z.of_nat (length (logl merged_a)) = 8 + 8 - 2 - 2 ∧
  NoDup (logl merged_a).
Proof.
  assert (H : combine_resumed_dyn_run 0%nat 1%nat 2 [init_a; dyn_a]
              = (Ok merged_a, result_a.2)) by (vm_compute; reflexivity).
  split; [exact H|].
  destruct (MergeFacts.combine_resumed_count [init_a; dyn_a] 0%nat 1%nat
              init_a dyn_a 2 merged_a result_a.2)
    as (_ & Hcount & _); [done | reflexivity | reflexivity | | exact H |].
  { split; [lia | vm_compute; discriminate]. }
  split; [exact Hcount|].
  apply (bool_decide_unpack _). vm_compute. reflexivity.
Defined.

(** The live point 40 of [init_a] does not occur in [dyn_c]: the merge
    raises the assertion of line 106. *)
Lemma combine_resumed_checks_witness :
  ∃ e, result_c.1 = Raise e ∧ e = AssertionError site_live.
Proof.
  destruct (MergeFacts.combine_resumed_checks [init_a; dyn_c] 0%nat 1%nat
              init_a dyn_c 2) as (_ & Hlive & _);
    [done | reflexivity | reflexivity | lia |].
  destruct Hlive as (e & He & _ & Hwf); [reflexivity | |].
  { change (np_unique _) with [0; 1]. right. left.
    exists (Fin 40). split; [reflexivity | vm_compute; discriminate]. }
  exists e. split; [exact He|]. apply Hwf; vm_compute; lia.
Defined.

(** The first samples of the threads 0 and 1 are left out. *)
Example without_live_example :
  without_live [0; 1; 0; 1; 0; 1] [30; 40; 50; 60; 70; 80] = [50; 60; 70; 80].
Proof. vm_compute. reflexivity. Qed.

End MergeRuns.

Module ProcessingRuns.
Import Processing ProcessingExamples.

(** A thread of the loaded exploratory run starts at log-likelihood 1:
    the assertion of line 47 fails, with only that run in the store. *)
Lemma process_dypolychord_run_births_witness :
  process_dypolychord_run ex_process_polychord_run ex_pickle_load ex_path_join
    ex_check_ns_run "gauss" "chains" kw_goal1 []
  = (Raise (AssertionError site_init_birth), [init_late]).
Proof.
  destruct (ProcessingFacts.process_dypolychord_run_births
              ex_process_polychord_run ex_pickle_load ex_path_join ex_check_ns_run
              "gauss" "chains" kw_goal1 (PInt 1) init_late [])
    as [Hinit _]; [reflexivity | reflexivity | reflexivity |].
  apply Hinit. intros H.
  apply (Forall_lookup_1 _ _ 1%nat (Fin 1, Fin 4)) in H; [discriminate|].
  reflexivity.
Defined.
End ProcessingRuns.

(** * Further properties *)

(** ** The root of the file names *)

Module SettingsRootFacts.

Lemma chars_app (a b : string) :
  list_ascii_of_string (a +:+ b)
  = list_ascii_of_string a ++ list_ascii_of_string b.
Proof. induction a as [|c a IH]; simpl; [done|]. by rewrite IH. Qed.

Lemma chars_inj (a b : string) :
  list_ascii_of_string a = list_ascii_of_string b → a = b.
Proof.
  intros H. rewrite <- (string_of_list_ascii_of_string a),
    <- (string_of_list_ascii_of_string b). by rewrite H.
Qed.

(** A string between a fixed head and a fixed tail is determined by the
    whole. *)
Lemma infix_inj (a b x y : string) :
  a +:+ x +:+ b = a +:+ y +:+ b → x = y.
Proof.
  intros H. apply (f_equal list_ascii_of_string) in H.
  rewrite !chars_app in H. apply app_inv_head, app_inv_tail in H.
  by apply chars_inj.
Qed.

Lemma string_app_assoc (a b c : string) : (a +:+ b) +:+ c = a +:+ (b +:+ c).
Proof. apply chars_inj. by rewrite !chars_app, app_assoc. Qed.

Lemma suffix_inj (b x y : string) : x +:+ b = y +:+ b → x = y.
Proof. intros H. by apply (infix_inj "" b). Qed.

(** X1. [settings_root] returns exactly when the four required keywords
    are given, no unknown keyword is, and [ninit] (and, for a dynamic
    goal other than 0, [init_step]) is given whenever the dynamic goal
    is not [None].  Otherwise it raises: a [KeyError] for the first
    required keyword that is missing, in the order [prior_scale],
    [dynamic_goal], [nlive_const], [nrepeats]; else a [TypeError] for an
    unknown keyword; else the assertion of line 25 or of line 28. *)
Theorem settings_root_outcome (likelihood_name prior_name : string)
    (ndims : Z) (kw : skwargs) :
  let ninit := default PNone (sk_ninit kw) in
  let init_step := default PNone (sk_init_step kw) in
  match settings_root likelihood_name prior_name ndims kw with
  | Ok _ =>
      ∃ ps g nc nr,
        sk_prior_scale kw = Some ps ∧ sk_dynamic_goal kw = Some g ∧
        sk_nlive_const kw = Some nc ∧ sk_nrepeats kw = Some nr ∧
        sk_other kw = [] ∧
        (g ≠ PNone → ninit ≠ PNone ∧ (g ≠ PInt 0 → init_step ≠ PNone))
  | Raise (KeyError key) =>
      (key = "prior_scale" ∧ sk_prior_scale kw = None) ∨
      (key = "dynamic_goal" ∧ is_Some (sk_prior_scale kw) ∧
       sk_dynamic_goal kw = None) ∨
      (key = "nlive_const" ∧ is_Some (sk_prior_scale kw) ∧
       is_Some (sk_dynamic_goal kw) ∧ sk_nlive_const kw = None) ∨
      (key = "nrepeats" ∧ is_Some (sk_prior_scale kw) ∧
       is_Some (sk_dynamic_goal kw) ∧ is_Some (sk_nlive_const kw) ∧
       sk_nrepeats kw = None)
  | Raise TypeError =>
      is_Some (sk_prior_scale kw) ∧ is_Some (sk_dynamic_goal kw) ∧
      is_Some (sk_nlive_const kw) ∧ is_Some (sk_nrepeats kw) ∧
      sk_other kw ≠ []
  | Raise (AssertionError site) =>
      sk_other kw = [] ∧
      ∃ g, sk_dynamic_goal kw = Some g ∧ g ≠ PNone ∧
           ((site = site_ninit ∧ ninit = PNone) ∨
            (site = site_init_step ∧ ninit ≠ PNone ∧ g ≠ PInt 0 ∧
             init_step = PNone))
  | _ => False
  end.
Proof.
  intros ninit init_step. unfold settings_root.
  destruct (sk_prior_scale kw) as [ps|]; simpl; [|by left].
  destruct (sk_dynamic_goal kw) as [g|]; simpl;
    [|right; left; repeat split; by eauto].
  destruct (sk_nlive_const kw) as [nc|]; simpl;
    [|right; right; left; repeat split; by eauto].
  destruct (sk_nrepeats kw) as [nr|]; simpl;
    [|right; right; right; repeat split; by eauto].
  destruct (decide (sk_other kw = [])) as [Hother|Hother].
  2:{ rewrite (bool_decide_eq_false_2 (sk_other kw = [])) by done. simpl.
      by repeat (split; [by eauto|]). }
  rewrite (bool_decide_eq_true_2 (sk_other kw = [])) by done. simpl.
  fold ninit init_step.
  destruct (decide (g = PNone)) as [->|Hg].
  { simpl. exists ps, PNone, nc, nr. by repeat split. }
  rewrite (bool_decide_eq_false_2 (g = PNone)) by done.
  destruct (decide (ninit = PNone)) as [Hn|Hn].
  { rewrite (bool_decide_eq_true_2 (ninit = PNone)) by done. simpl.
    split; [done|]. exists g. split; [done|]. split; [done|]. by left. }
  rewrite (bool_decide_eq_false_2 (ninit = PNone)) by done. simpl.
  destruct (decide (g = PInt 0)) as [->|Hg0].
  { simpl. exists ps, (PInt 0), nc, nr. by repeat split. }
  rewrite (bool_decide_eq_false_2 (g = PInt 0)) by done.
  destruct (decide (init_step = PNone)) as [Hi|Hi].
  { rewrite (bool_decide_eq_true_2 (init_step = PNone)) by done. simpl.
    split; [done|]. exists g. split; [done|]. split; [done|]. by right. }
  rewrite (bool_decide_eq_false_2 (init_step = PNone)) by done. simpl.
  exists ps, g, nc, nr. by repeat split.
Qed.

(** X2. For a standard run ([dynamic_goal] is [None]) the root does not
    depend on [ninit] and [init_step], whether they are given or not;
    for the dynamic goal 0 it does not depend on [init_step]. *)
Theorem settings_root_ignores (likelihood_name prior_name : string)
    (ndims : Z) (ps nc nr : option pyval) (other : list string)
    (ninit ninit' init_step init_step' : option pyval) :
  settings_root likelihood_name prior_name ndims
    (mkSkwargs ps (Some PNone) nc nr ninit init_step other)
  = settings_root likelihood_name prior_name ndims
      (mkSkwargs ps (Some PNone) nc nr ninit' init_step' other) ∧
  settings_root likelihood_name prior_name ndims
    (mkSkwargs ps (Some (PInt 0)) nc nr ninit init_step other)
  = settings_root likelihood_name prior_name ndims
      (mkSkwargs ps (Some (PInt 0)) nc nr ninit init_step' other).
Proof.
  unfold settings_root. simpl.
  destruct ps as [ps|], nc as [nc|], nr as [nr|]; simpl; try done.
Qed.

(** X3. Two settings that pass the checks of [settings_root] and differ
    only in the integer [ninit] (with a dynamic goal), or only in
    [ndims], do not share a root. *)
Theorem settings_root_separates (likelihood_name prior_name : string)
    (ps g nc nr init_step : option pyval) (root : string) :
  (∀ (ndims n1 n2 : Z),
     settings_root likelihood_name prior_name ndims
       (mkSkwargs ps g nc nr (Some (PInt n1)) init_step []) = Ok root →
     settings_root likelihood_name prior_name ndims
       (mkSkwargs ps g nc nr (Some (PInt n2)) init_step []) = Ok root →
     g ≠ Some PNone → n1 = n2) ∧
  (∀ (ninit : option pyval) (d1 d2 : Z),
     settings_root likelihood_name prior_name d1
       (mkSkwargs ps g nc nr ninit init_step []) = Ok root →
     settings_root likelihood_name prior_name d2
       (mkSkwargs ps g nc nr ninit init_step []) = Ok root →
     d1 = d2).
Proof.
  unfold settings_root. simpl.
  destruct ps as [ps|], g as [g|], nc as [nc|], nr as [nr|]; simpl;
    try (split; intros; discriminate).
  split.
  - intros ndims n1 n2 H1 H2 Hg.
    rewrite (bool_decide_eq_false_2 (g = PNone)) in H1, H2 by congruence.
    simpl in H1, H2. apply (inj pretty).
    destruct (bool_decide (g = PInt 0));
      [|destruct (default PNone init_step)]; simpl in H1, H2;
      try discriminate; rewrite <- H2 in H1; clear H2;
      injection H1 as H1; rewrite !string_app_assoc in H1;
      repeat (apply (inj (String.app _)) in H1);
      by apply suffix_inj in H1.
  - intros ninit d1 d2 H1 H2. apply (inj pretty).
    destruct (bool_decide (g = PNone));
      [|destruct (default PNone ninit);
        (destruct (bool_decide (g = PInt 0));
         [|destruct (default PNone init_step)])];
      simpl in H1, H2; try discriminate; rewrite <- H2 in H1; clear H2;
      injection H1 as H1; rewrite !string_app_assoc in H1;
      repeat (apply (inj (String.app _)) in H1);
      by apply suffix_inj in H1.
Qed.
End SettingsRootFacts.

(** ** The driver: configuration errors and the standard run *)

Module DriverMore.
Import Driver.
Section driver_more.
Context {World : Type}.
Variable run_polychord : Settings → World → res Output * World.
Variable process_polychord_run : string → World → res Run.
Variable get_logx : list Z → list Q.
Variable rel_posterior_mass : list Q → list fl → list Q.
Variable double_mul : Q → Z → Q.
Variable double_div : Q → Z → Q.
Variable copyfile : string → string → World → res unit * World.
Variable remove : string → World → res unit * World.
Variable save_info : Settings → Output → option Z → World → res unit * World.
Variable comm_rank : Z.

Local Abbreviation run_dynamic :=
  (run_dynamic_polychord World run_polychord process_polychord_run get_logx
     rel_posterior_mass double_mul double_div copyfile remove save_info
     comm_rank).
Local Abbreviation run_standard :=
  (run_standard_polychord World run_polychord save_info comm_rank).

Lemma read_at (l : loc) (σ : state World) (s : Settings) :
  heap World σ !! l = Some s → read World l σ = (Ok s, σ).
Proof.
  intros H. apply (proj2 (index_Ok _ _ _)) in H. unfold read. by rewrite H.
Qed.

(** X4. [run_dynamic_polychord] refuses a wrong configuration before it
    does anything: with an unknown keyword argument it raises
    [TypeError], with a live-point schedule already in the settings the
    assertion of line 65, with [read_resume] set the assertion of line
    66, and in each case the settings store and the world are as they
    were (no copy of the settings, no sampler call, no file written). *)
Theorem run_dynamic_polychord_config_error (fuel : nat) (pc_settings_in : loc)
    (kw : kwargs) (σ : state World) (s_in : Settings) :
  heap World σ !! pc_settings_in = Some s_in →
  (kw_other kw ≠ [] →
   run_dynamic fuel pc_settings_in kw σ = (Raise TypeError, σ)) ∧
  (kw_other kw = [] → nlives s_in ≠ ∅ →
   run_dynamic fuel pc_settings_in kw σ
   = (Raise (AssertionError "__init__.py:65"), σ)) ∧
  (kw_other kw = [] → nlives s_in = ∅ → read_resume s_in = true →
   run_dynamic fuel pc_settings_in kw σ
   = (Raise (AssertionError "__init__.py:66"), σ)).
Proof.
  intros Hin. unfold run_dynamic_polychord.
  split; [|split].
  - intros Hother. rewrite bind_unfold, (read_at _ _ _ Hin).
    rewrite bind_unfold, bool_decide_eq_false_2 by done. done.
  - intros Hother Hnl. rewrite bind_unfold, (read_at _ _ _ Hin).
    rewrite bind_unfold, bool_decide_eq_true_2 by done. cbn [mret M_ret].
    rewrite bind_unfold, (read_at _ _ _ Hin).
    rewrite bind_unfold, bool_decide_eq_false_2 by done. done.
  - intros Hother Hnl Hrr. rewrite bind_unfold, (read_at _ _ _ Hin).
    rewrite bind_unfold, bool_decide_eq_true_2 by done. cbn [mret M_ret].
    rewrite bind_unfold, (read_at _ _ _ Hin).
    rewrite bind_unfold, bool_decide_eq_true_2 by done.
    unfold lift at 1, assert_that at 1.
    rewrite bind_unfold, Hrr. done.
Qed.

(** X5. [run_standard_polychord] never writes to the settings store.
    With a live-point schedule in the settings it raises the assertion
    of line 32 before the sampler is called; otherwise it calls the
    sampler once on the caller's settings, passes on an exception of
    the sampler as it is, and saves the information of the run on rank
    0 only. *)
Theorem run_standard_polychord_outcome (pc_settings : loc)
    (other : list string) (σ : state World) (s : Settings) :
  heap World σ !! pc_settings = Some s →
  let r := run_standard pc_settings other σ in
  heap World r.2 = heap World σ ∧
  (nlives s ≠ ∅ → r = (Raise (AssertionError "__init__.py:32"), σ)) ∧
  (nlives s = ∅ →
   match run_polychord s (world World σ) with
   | (Ok output, w) =>
       if comm_rank =? 0 then
         r = ((save_info s output None w).1,
              mkState World (heap World σ) (save_info s output None w).2)
       else r = (Ok tt, mkState World (heap World σ) w)
   | (Raise e, w) => r = (Raise e, mkState World (heap World σ) w)
   | (OutOfFuel, w) => r = (OutOfFuel, mkState World (heap World σ) w)
   end).
Proof.
  intros Hin r.
  assert (Heq : r =
    if bool_decide (nlives s = ∅) then
      match run_polychord s (world World σ) with
      | (Ok output, w) =>
          if comm_rank =? 0 then
            ((save_info s output None w).1,
             mkState World (heap World σ) (save_info s output None w).2)
          else (Ok tt, mkState World (heap World σ) w)
      | (Raise e, w) => (Raise e, mkState World (heap World σ) w)
      | (OutOfFuel, w) => (OutOfFuel, mkState World (heap World σ) w)
      end
    else (Raise (AssertionError "__init__.py:32"), σ)).
  { unfold r, run_standard_polychord.
    rewrite bind_unfold, (read_at _ _ _ Hin). rewrite bind_unfold.
    unfold lift at 1, assert_that at 1.
    destruct (bool_decide (nlives s = ∅)); [|done].
    rewrite bind_unfold, (read_at _ _ _ Hin). rewrite bind_unfold.
    unfold ext at 1.
    destruct (run_polychord s (world World σ)) as [[output|e|] w]; [|done..].
    destruct (comm_rank =? 0); [|done].
    rewrite bind_unfold. unfold read at 1. cbn [heap].
    rewrite (proj2 (index_Ok _ _ _) Hin). unfold ext. cbn [world heap].
    by destruct (save_info s output None w) as [x w']. }
  clearbody r. subst r.
  destruct (decide (nlives s = ∅)) as [Hnl|Hnl].
  - rewrite bool_decide_eq_true_2 by done.
    destruct (run_polychord s (world World σ)) as [[output|e|] w];
      [|by repeat split..].
    by destruct (comm_rank =? 0).
  - rewrite bool_decide_eq_false_2 by done. by repeat split.
Qed.
End driver_more.
End DriverMore.

(** ** The exploration loop, iteration by iteration *)

Module LoopFacts.
Import Driver.
Section loop.
Context {World : Type}.
Variable run_polychord : Settings → World → res Output * World.
Variable process_polychord_run : string → World → res Run.
Variable copyfile : string → string → World → res unit * World.

Local Abbreviation explore_iter :=
  (explore_iter World run_polychord process_polychord_run copyfile).
Local Abbreviation explore_loop :=
  (explore_loop World run_polychord process_polychord_run copyfile).

Lemma read_heap (l : loc) (h : list Settings) (w : World) (s : Settings) :
  h !! l = Some s → read World l (mkState World h w) = (Ok s, mkState World h w).
Proof.
  intros H. apply (proj2 (index_Ok _ _ _)) in H. unfold read. cbn [heap].
  by rewrite H.
Qed.

Lemma setattr_heap (l : loc) (f : Settings → Settings) (h : list Settings)
    (w : World) (s : Settings) :
  h !! l = Some s →
  setattr World l f (mkState World h w)
  = (Ok tt, mkState World (<[l := f s]> h) w).
Proof.
  intros H. unfold setattr. by rewrite bind_unfold, (read_heap _ _ _ _ H).
Qed.

Lemma lookup_insert_same (l : loc) (h : list Settings) (s s' : Settings) :
  h !! l = Some s → <[l := s']> h !! l = Some s'.
Proof.
  intros H. apply list_lookup_insert_eq. by eapply lookup_lt_Some.
Qed.

Lemma next_add_points_index (h : list Z) (x : Z) (ap : bool) :
  (if (2 <=? length (h ++ [x]))%nat then
     a ← index_Z (h ++ [x]) (-1);
     b ← index_Z (h ++ [x]) (-2);
     Ok (if a =? b + 1 then false else ap)
   else Ok ap)
  = Ok (next_add_points (h ++ [x]) ap).
Proof.
  unfold next_add_points. rewrite reverse_snoc.
  destruct h as [|y h _] using rev_ind.
  - reflexivity.
  - replace (2 <=? _)%nat with true
      by (symmetry; apply Nat.leb_le; rewrite !length_app; simpl; lia).
    rewrite DriverFacts.index_Z_last, <- app_assoc. cbn [app].
    rewrite DriverFacts.index_Z_last_but_one, reverse_snoc. done.
Qed.

(** One iteration, step by step. *)
Lemma explore_iter_eq (pc_settings : loc) (ninit init_step : Z)
    (vs : loop_vars) (h : list Settings) (w0 : World) (s0 : Settings) :
  h !! pc_settings = Some s0 →
  let s1 := call_settings init_step (v_step_ndead vs) s0 in
  let hp := <[pc_settings := s1]> h in
  let root := base_dir s1 +:+ "/" +:+ file_root s1 in
  explore_iter pc_settings ninit init_step vs (mkState World h w0) =
  match run_polychord s1 w0 with
  | (Ok out, w) =>
      let step := ndead out - nlive s1 in
      match process_polychord_run root w with
      | Ok run =>
          if negb (bool_decide
                     (Z.of_nat (length (thread_labels run)) = ndead out))
          then (Raise (AssertionError "__init__.py:87"), mkState World hp w)
          else if negb (bool_decide
                          (Z.of_nat (length (np_unique (thread_labels run)))
                           = ninit))
          then (Raise (AssertionError "__init__.py:88"), mkState World hp w)
          else
            match copyfile
                    (base_dir s1 +:+ "/" +:+ file_root s1 +:+ ".resume")
                    (base_dir s1 +:+ "/" +:+ file_root s1 +:+ "_"
                       +:+ pretty step +:+ ".resume") w with
            | (Ok _, w') =>
                (Ok (mkVars (v_step_ndead vs ++ [step])
                       (<[ndead out := run]> (v_runs_at_resumes vs))
                       (next_add_points (v_step_ndead vs ++ [step])
                          (v_add_points vs))
                       (Some out)),
                 mkState World hp w')
            | (Raise e, w') => (Raise e, mkState World hp w')
            | (OutOfFuel, w') => (OutOfFuel, mkState World hp w')
            end
      | Raise e => (Raise e, mkState World hp w)
      | OutOfFuel => (OutOfFuel, mkState World hp w)
      end
  | (Raise e, w) => (Raise e, mkState World hp w)
  | (OutOfFuel, w) => (OutOfFuel, mkState World hp w)
  end.
Proof.
  intros Hin s1 hp root. unfold Driver.explore_iter.
  rewrite bind_unfold.
  assert (Hfirst :
    (if bool_decide (length (v_step_ndead vs) = 1%nat)
     then setattr World pc_settings (set_read_resume true) else mret tt)
      (mkState World h w0)
    = (Ok tt, mkState World
                (<[pc_settings :=
                     if bool_decide (length (v_step_ndead vs) = 1%nat)
                     then set_read_resume true s0 else s0]> h) w0)).
  { case_bool_decide; [by apply setattr_heap|].
    by rewrite list_insert_id. }
  rewrite Hfirst. clear Hfirst.
  rewrite bind_unfold.
  rewrite (setattr_heap _ _ _ _ _ (lookup_insert_same _ _ _ _ Hin)).
  rewrite list_insert_insert_eq. fold (call_settings init_step (v_step_ndead vs) s0).
  fold s1 hp.
  assert (Hs1 : hp !! pc_settings = Some s1)
    by (by eapply lookup_insert_same).
  rewrite bind_unfold, (read_heap _ _ _ _ Hs1). rewrite bind_unfold.
  unfold ext at 1. cbn [world heap].
  destruct (run_polychord s1 w0) as [[out|e|] w]; [|done..].
  rewrite bind_unfold, (read_heap _ _ _ _ Hs1). rewrite bind_unfold.
  unfold ext at 1. cbn [world heap]. fold root.
  destruct (process_polychord_run root w) as [run|e|]; [|done..].
  rewrite bind_unfold. unfold lift at 1, assert_that at 1.
  destruct (bool_decide (Z.of_nat (length (thread_labels run)) = ndead out));
    [|done].
  rewrite bind_unfold. unfold lift at 1, assert_that at 1.
  destruct (bool_decide (Z.of_nat (length (np_unique (thread_labels run)))
                         = ninit)); [|done].
  cbn [negb]. rewrite bind_unfold. unfold lift at 1.
  rewrite DriverFacts.index_Z_last. rewrite bind_unfold.
  unfold ext at 1. cbn [world heap].
  destruct (copyfile _ _ w) as [[[]|e|] w']; [|done..].
  rewrite bind_unfold.
  match goal with
  | |- context [(if (2 <=? ?n)%nat then ?a else ?b) ?σ] =>
      replace ((if (2 <=? n)%nat then a else b) σ)
        with (lift (S := state World)
                (Ok (next_add_points
                       (v_step_ndead vs ++ [ndead out - nlive s1])
                       (v_add_points vs))) σ)
  end; [done|].
  rewrite <- next_add_points_index. unfold lift.
  destruct (2 <=? _)%nat; [|done].
  rewrite !bind_unfold. unfold lift.
  rewrite !DriverFacts.index_Z_last. cbn [mbind res_mbind res_bind].
  by destruct (index_Z _ (-2)) as [b|e|].
Qed.
(** X6. An iteration of the exploration loop on a settings object [s0]
    calls the sampler with the cap [(len(step_ndead) + 1) * init_step],
    with [read_resume] set when the history has exactly one entry, and
    with the other attributes of [s0]; whatever follows, the object is
    left with these settings.  An exception of the sampler or of the
    loader is passed on; when the number of thread labels of the loaded
    run is not the reported dead count the assertion of line 87 fails,
    when the number of distinct labels is not [ninit] that of line 88,
    and in these cases no checkpoint copy is written: the world is as
    the sampler left it. *)
Theorem explore_iter_outcome (pc_settings : loc) (ninit init_step : Z)
    (vs : loop_vars) (h : list Settings) (w0 : World) (s0 : Settings) :
  h !! pc_settings = Some s0 →
  let s1 := call_settings init_step (v_step_ndead vs) s0 in
  let hp := <[pc_settings := s1]> h in
  let result := explore_iter pc_settings ninit init_step vs
                  (mkState World h w0) in
  heap World result.2 = hp ∧
  max_ndead s1 = (Z.of_nat (length (v_step_ndead vs)) + 1) * init_step ∧
  read_resume s1
    = (if bool_decide (length (v_step_ndead vs) = 1%nat) then true
       else read_resume s0) ∧
  (file_root s1, base_dir s1, nlive s1, nlives s1, write_resume s1)
    = (file_root s0, base_dir s0, nlive s0, nlives s0, write_resume s0) ∧
  (∀ e w, run_polychord s1 w0 = (Raise e, w) →
          result = (Raise e, mkState World hp w)) ∧
  (∀ out w, run_polychord s1 w0 = (Ok out, w) →
     match process_polychord_run (base_dir s1 +:+ "/" +:+ file_root s1) w with
     | Ok run =>
         (Z.of_nat (length (thread_labels run)) ≠ ndead out →
          result = (Raise (AssertionError "__init__.py:87"),
                    mkState World hp w)) ∧
         (Z.of_nat (length (thread_labels run)) = ndead out →
          Z.of_nat (length (np_unique (thread_labels run))) ≠ ninit →
          result = (Raise (AssertionError "__init__.py:88"),
                    mkState World hp w)) ∧
         (∀ vs' σ', result = (Ok vs', σ') →
            v_step_ndead vs' = v_step_ndead vs ++ [ndead out - nlive s0] ∧
            v_runs_at_resumes vs' !! ndead out = Some run ∧
            v_output vs' = Some out)
     | Raise e => result = (Raise e, mkState World hp w)
     | OutOfFuel => result = (OutOfFuel, mkState World hp w)
     end).
Proof.
  intros Hin s1 hp result.
  pose proof (explore_iter_eq pc_settings ninit init_step vs h w0 s0 Hin)
    as Heq.
  cbv zeta in Heq. fold s1 hp result in Heq.
  assert (Hs1 : (file_root s1, base_dir s1, nlive s1, nlives s1,
                 write_resume s1)
                = (file_root s0, base_dir s0, nlive s0, nlives s0,
                   write_resume s0)).
  { unfold s1, call_settings. by case_bool_decide. }
  assert (Hnl : nlive s1 = nlive s0) by by injection Hs1.
  split; [|split; [done|split; [|split; [done|split]]]].
  - rewrite Heq.
    destruct (run_polychord s1 w0) as [[out|e|] w]; [|done..].
    destruct (process_polychord_run _ w) as [run|e|]; [|done..].
    destruct (negb _); [done|]. destruct (negb _); [done|].
    by destruct (copyfile _ _ w) as [[[]|e|] w'].
  - unfold s1, call_settings. by case_bool_decide.
  - intros e w Hrun. by rewrite Heq, Hrun.
  - intros out w Hrun. rewrite Heq, Hrun.
    destruct (process_polychord_run _ w) as [run|e|]; [|done..].
    split; [|split].
    + intros Hbad. by rewrite bool_decide_eq_false_2.
    + intros Hgood Hbad. rewrite bool_decide_eq_true_2 by done.
      cbn [negb]. by rewrite bool_decide_eq_false_2.
    + intros vs' σ'. destruct (negb _); [done|]. destruct (negb _); [done|].
      destruct (copyfile _ _ w) as [[[]|e|] w']; [|done..].
      intros [= <- <-]. cbn [v_step_ndead v_runs_at_resumes v_output].
      split; [by case_bool_decide|]. split; [|done]. apply lookup_insert_eq.
Qed.

Lemma next_add_points_false (h : list Z) (x : Z) :
  next_add_points (h ++ [x]) true = false
  ↔ ends_plus_one (h ++ [x]).
Proof.
  unfold next_add_points. rewrite reverse_snoc.
  destruct h as [|y h _] using rev_ind.
  - simpl. split; [done|]. by intros ?%DriverFacts.ends_plus_one_short.
  - rewrite reverse_snoc, DriverFacts.ends_plus_one_snoc.
    destruct (x =? y + 1) eqn:E.
    + apply Z.eqb_eq in E. by split.
    + apply Z.eqb_neq in E. by split.
Qed.

Lemma same_static_call (init_step : Z) (hist : list Z) (s : Settings) :
  same_static s (call_settings init_step hist s).
Proof. unfold call_settings. by case_bool_decide. Qed.

(** Whenever the exploration loop returns, it has made at least one
    and at most [fuel] iterations, each of which appended one count to
    the step history; the history it returns ends with two counts [a]
    and [a + 1], and no shorter history on the way did: the loop stops
    at the first such history.  The settings object of the loop is the
    only one that is changed, and only in [read_resume] and
    [max_ndead]. *)
Lemma explore_loop_post (fuel : nat) (pc_settings : loc)
    (ninit init_step : Z) (vs vs' : loop_vars) (h : list Settings)
    (w : World) (s0 : Settings) (σ' : state World) :
  h !! pc_settings = Some s0 →
  v_add_points vs = true →
  explore_loop fuel pc_settings ninit init_step vs (mkState World h w)
    = (Ok vs', σ') →
  ∃ ext s',
    ext ≠ [] ∧ (length ext ≤ fuel)%nat ∧
    v_step_ndead vs' = v_step_ndead vs ++ ext ∧
    v_add_points vs' = false ∧
    ends_plus_one (v_step_ndead vs') ∧
    (∀ e1 e2, ext = e1 ++ e2 → e1 ≠ [] → e2 ≠ [] →
              ¬ ends_plus_one (v_step_ndead vs ++ e1)) ∧
    heap World σ' = <[pc_settings := s']> h ∧ same_static s0 s'.
Proof.
  revert vs h w s0.
  induction fuel as [|fuel IH]; intros vs h w s0 Hin Hap Hloop;
    cbn [Driver.explore_loop] in Hloop; rewrite Hap in Hloop; [done|].
  rewrite bind_unfold, (explore_iter_eq _ _ _ _ _ _ _ Hin) in Hloop.
  cbv zeta in Hloop.
  set (s1 := call_settings init_step (v_step_ndead vs) s0) in *.
  destruct (run_polychord s1 w) as [[out|e|] w1]; [|done..].
  destruct (process_polychord_run _ w1) as [run|e|]; [|done..].
  destruct (negb _); [done|]. destruct (negb _); [done|].
  destruct (copyfile _ _ w1) as [[[]|e|] w2]; [|done..].
  set (x := ndead out - nlive s1) in *.
  set (vs1 := mkVars _ _ _ _) in Hloop.
  destruct (v_add_points vs1) eqn:Hap1.
  - assert (Hin1 : <[pc_settings := s1]> h !! pc_settings = Some s1)
      by (by eapply lookup_insert_same).
    destruct (IH vs1 _ w2 s1 Hin1 Hap1 Hloop)
      as (ext & s' & Hne & Hlen & Hext & Hap' & Hend & Hmin & Hheap & Hst).
    exists (x :: ext), s'. cbn [v_step_ndead vs1] in Hext, Hmin.
    split; [done|]. split; [simpl; lia|].
    split; [by rewrite Hext, <- app_assoc|]. split; [done|].
    split; [done|]. split; [|split].
    + intros e1 e2 Hsplit He1 He2. destruct e1 as [|y e1]; [done|].
      injection Hsplit as <- ->. destruct e1 as [|z e1].
      * intros Hbad. apply next_add_points_false in Hbad.
        cbn [v_add_points vs1] in Hap1. rewrite Hap in Hap1.
        simpl in Hbad. congruence.
      * change (x :: z :: e1) with ([x] ++ z :: e1). rewrite app_assoc.
        by apply (Hmin (z :: e1) e2).
    + by rewrite Hheap, list_insert_insert_eq.
    + pose proof (same_static_call init_step (v_step_ndead vs) s0) as Hc.
      fold s1 in Hc. unfold same_static in *.
      destruct Hst as (-> & -> & -> & -> & ->). exact Hc.
  - assert (Hend : ends_plus_one (v_step_ndead vs ++ [x])).
    { apply next_add_points_false. cbn [v_add_points vs1] in Hap1.
      by rewrite Hap in Hap1. }
    destruct fuel; cbn [Driver.explore_loop] in Hloop;
      rewrite Hap1 in Hloop; injection Hloop as <- <-;
      (exists [x], s1; split; [done|]; split; [simpl; lia|];
       split; [done|]; split; [done|];
       split; [done|];
       split; [|split; [done | apply same_static_call]];
       intros e1 e2 Hsplit He1 He2;
       destruct e1 as [|? [|]], e2; by simplify_eq).
Qed.

(** X7. Whenever the exploration loop of the driver, started with the
    empty history, returns, it has made at least two and at most [fuel]
    iterations, each of which appended one count to the step history;
    the history ends with two counts [a] and [a + 1], and no shorter
    history on the way did: the loop stops at the first such history.
    The settings object of the loop is the only one that is changed,
    and only in [read_resume] and [max_ndead]. *)
Theorem explore_loop_returns (fuel : nat) (pc_settings : loc)
    (ninit init_step : Z) (vs' : loop_vars) (h : list Settings)
    (w : World) (s0 : Settings) (σ' : state World) :
  h !! pc_settings = Some s0 →
  explore_loop fuel pc_settings ninit init_step (mkVars [] ∅ true None)
    (mkState World h w) = (Ok vs', σ') →
  (2 ≤ length (v_step_ndead vs') ≤ fuel)%nat ∧
  v_add_points vs' = false ∧
  ends_plus_one (v_step_ndead vs') ∧
  (∀ k, (0 < k < length (v_step_ndead vs'))%nat →
        ¬ ends_plus_one (take k (v_step_ndead vs'))) ∧
  ∃ s', heap World σ' = <[pc_settings := s']> h ∧
        file_root s' = file_root s0 ∧ base_dir s' = base_dir s0 ∧
        nlive s' = nlive s0 ∧ nlives s' = nlives s0 ∧
        write_resume s' = write_resume s0.
Proof.
  intros Hin Hloop.
  destruct (explore_loop_post fuel pc_settings ninit init_step
              (mkVars [] ∅ true None) vs' h w s0 σ' Hin eq_refl Hloop)
    as (ext & s' & Hne & Hlen & Hext & Hap & Hend & Hmin & Hheap & Hst).
  cbn [v_step_ndead app] in Hext, Hmin. rewrite Hext in *.
  split; [|split; [done|split; [done|split; [|by exists s']]]].
  - split; [|done]. destruct ext as [|a [|b ext]]; [done| |simpl; lia].
    by apply DriverFacts.ends_plus_one_short in Hend.
  - intros k Hk. apply (Hmin (take k ext) (drop k ext)).
    + by rewrite take_drop.
    + intros Hnil%(f_equal length). rewrite length_take in Hnil.
      simpl in Hnil. lia.
    + intros Hnil%(f_equal length). rewrite length_drop in Hnil.
      simpl in Hnil. lia.
Qed.

(** X8. When every sub-run is cut off by its cap (the sampler reports
    the cap plus the live count), the step history is the list of the
    caps, and the exploration loop started with an empty history can
    only return if [init_step = 1], and then it returns after the
    second iteration with the history [1, 2]: for any other [init_step]
    it never returns, whatever the fuel. *)
Theorem explore_loop_capped (fuel : nat) (pc_settings : loc)
    (ninit init_step : Z) (vs' : loop_vars) (h : list Settings) (w : World)
    (s0 : Settings) (σ' : state World) :
  (∀ s w out w', run_polychord s w = (Ok out, w') →
                 ndead out = max_ndead s + nlive s) →
  h !! pc_settings = Some s0 →
  explore_loop fuel pc_settings ninit init_step (mkVars [] ∅ true None)
    (mkState World h w) = (Ok vs', σ') →
  init_step = 1 ∧ v_step_ndead vs' = [1; 2].
Proof.
  intros Hcap Hin Hloop.
  assert (Hgen : ∀ fuel n vs h w s0 vs' σ',
            h !! pc_settings = Some s0 →
            v_add_points vs = true →
            v_step_ndead vs = caps init_step n →
            explore_loop fuel pc_settings ninit init_step vs
              (mkState World h w) = (Ok vs', σ') →
            ∃ m, v_step_ndead vs' = caps init_step m).
  { clear Hin Hloop. intros fuel'.
    induction fuel' as [|fuel' IH]; intros n vs h' w' s0' vs'' σ'' Hin Hap Hn Hloop;
      cbn [Driver.explore_loop] in Hloop; rewrite Hap in Hloop; [done|].
    rewrite bind_unfold, (explore_iter_eq _ _ _ _ _ _ _ Hin) in Hloop.
    cbv zeta in Hloop.
    set (s1 := call_settings init_step (v_step_ndead vs) s0') in *.
    destruct (run_polychord s1 w') as [[out|e|] w1] eqn:Hrun; [|done..].
    apply Hcap in Hrun.
    destruct (process_polychord_run _ w1) as [run|e|]; [|done..].
    destruct (negb _); [done|]. destruct (negb _); [done|].
    destruct (copyfile _ _ w1) as [[[]|e|] w2]; [|done..].
    set (vs1 := mkVars _ _ _ _) in Hloop.
    assert (Hn1 : v_step_ndead vs1 = caps init_step (S n)).
    { cbn [v_step_ndead vs1]. rewrite Hn. unfold caps.
      rewrite seq_S, fmap_app. f_equal. simpl. f_equal.
      rewrite Hrun. unfold s1, call_settings.
      rewrite Hn. unfold caps. rewrite length_fmap, length_seq.
      case_bool_decide; simpl; lia. }
    destruct (v_add_points vs1) eqn:Hap1.
    - assert (Hin1 : <[pc_settings := s1]> h' !! pc_settings = Some s1)
        by (by eapply lookup_insert_same).
      by apply (IH (S n) vs1 _ w2 s1 vs'' σ'' Hin1 Hap1 Hn1).
    - destruct fuel'; cbn [Driver.explore_loop] in Hloop;
        rewrite Hap1 in Hloop; injection Hloop as <- <-; by exists (S n). }
  destruct (Hgen fuel 0%nat (mkVars [] ∅ true None) _ _ _ _ _ Hin
              eq_refl eq_refl Hloop) as [m Hm].
  destruct (explore_loop_post fuel pc_settings ninit init_step
              (mkVars [] ∅ true None) vs' h w s0 σ' Hin eq_refl Hloop)
    as (ext & s' & Hne & _ & Hext & _ & Hend & Hmin & _).
  cbn [v_step_ndead app] in Hext, Hmin. rewrite Hext in Hm, Hend.
  subst ext.
  assert (Hstep : ∀ k, ends_plus_one (caps init_step (S (S k)))
                       ↔ init_step = 1).
  { intros k. unfold caps. rewrite !seq_S, !fmap_app. simpl.
    rewrite DriverFacts.ends_plus_one_snoc. lia. }
  destruct m as [|[|m]].
  - done.
  - by apply DriverFacts.ends_plus_one_short in Hend.
  - apply Hstep in Hend as Hone. split; [done|].
    destruct m as [|m]; [by rewrite Hext, Hone|]. exfalso.
    apply (Hmin (caps init_step 2)
             ((λ j, (Z.of_nat j + 1) * init_step) <$> seq 2 (S m))).
    + unfold caps. by rewrite <- fmap_app.
    + done.
    + done.
    + by apply Hstep.
Qed.


(** X18. The exploration loop on settings with [ninit] live points
    returns only if [ninit >= 1]: with a negative [ninit] the assertion
    of line 88 cannot hold, and with [ninit = 0] the loaded runs are
    empty, every recorded count is 0 and the history never ends with
    [a, a + 1].  So the division by [ninit] of line 112 is never a
    division by zero. *)
Theorem explore_loop_ninit (fuel : nat) (pc_settings : loc)
    (ninit init_step : Z) (vs' : loop_vars) (h : list Settings) (w : World)
    (s0 : Settings) (σ' : state World) :
  h !! pc_settings = Some s0 →
  nlive s0 = ninit →
  explore_loop fuel pc_settings ninit init_step (mkVars [] ∅ true None)
    (mkState World h w) = (Ok vs', σ') →
  1 ≤ ninit.
Proof.
  intros Hin Hnl Hloop.
  destruct (decide (1 ≤ ninit)) as [|Hsmall]; [done|]. exfalso.
  assert (Hgen : ∀ fuel vs h w s0 vs' σ',
            h !! pc_settings = Some s0 → nlive s0 = ninit →
            v_add_points vs = true →
            Forall (λ x, x = 0) (v_step_ndead vs) →
            explore_loop fuel pc_settings ninit init_step vs
              (mkState World h w) = (Ok vs', σ') →
            Forall (λ x, x = 0) (v_step_ndead vs')).
  { clear Hin Hnl Hloop. intros fuel'.
    induction fuel' as [|fuel' IH];
      intros vs h' w' s0' vs'' σ'' Hin Hnl Hap Hzero Hloop;
      cbn [Driver.explore_loop] in Hloop; rewrite Hap in Hloop; [done|].
    rewrite bind_unfold, (explore_iter_eq _ _ _ _ _ _ _ Hin) in Hloop.
    cbv zeta in Hloop.
    pose proof (same_static_call init_step (v_step_ndead vs) s0')
      as (_ & _ & Hnl1 & _).
    set (s1 := call_settings init_step (v_step_ndead vs) s0') in *.
    destruct (run_polychord s1 w') as [[out|e|] w1]; [|done..].
    destruct (process_polychord_run _ w1) as [run|e|]; [|done..].
    destruct (bool_decide (Z.of_nat (length (thread_labels run)) = ndead out))
      eqn:Hlen; [|done].
    destruct (bool_decide (Z.of_nat (length (np_unique (thread_labels run)))
                           = ninit)) eqn:Hcount; [|done].
    cbn [negb] in Hloop.
    apply bool_decide_eq_true in Hlen, Hcount.
    assert (Hempty : thread_labels run = []).
    { destruct (thread_labels run) as [|x l] eqn:E; [done|].
      assert (Hx : x ∈ np_unique (x :: l)) by (apply np_unique_elem; by left).
      destruct (np_unique (x :: l)); [by apply elem_of_nil in Hx|].
      simpl in Hcount. lia. }
    rewrite Hempty in Hlen, Hcount. simpl in Hlen, Hcount.
    destruct (copyfile _ _ w1) as [[[]|e|] w2]; [|done..].
    set (vs1 := mkVars _ _ _ _) in Hloop.
    assert (Hzero1 : Forall (λ x, x = 0) (v_step_ndead vs1)).
    { cbn [v_step_ndead vs1]. apply Forall_app. split; [done|].
      constructor; [|done]. rewrite Hnl1, Hnl. lia. }
    destruct (v_add_points vs1) eqn:Hap1.
    - assert (Hin1 : <[pc_settings := s1]> h' !! pc_settings = Some s1)
        by (by eapply lookup_insert_same).
      by apply (IH vs1 _ w2 s1 vs'' σ'' Hin1 (eq_trans Hnl1 Hnl) Hap1 Hzero1).
    - destruct fuel'; cbn [Driver.explore_loop] in Hloop;
        rewrite Hap1 in Hloop; by injection Hloop as <- <-. }
  pose proof (Hgen fuel (mkVars [] ∅ true None) _ _ _ _ _ Hin Hnl eq_refl
                (Forall_nil_2 _) Hloop) as Hzero.
  destruct (explore_loop_post fuel pc_settings ninit init_step
              (mkVars [] ∅ true None) vs' h w s0 σ' Hin eq_refl Hloop)
    as (_ & _ & _ & _ & _ & _ & (pre & a & Hend) & _).
  rewrite Hend in Hzero. apply Forall_app in Hzero as [_ Hzero].
  apply Forall_cons in Hzero as [-> Hzero].
  apply Forall_cons in Hzero as [Hone _]. lia.
Qed.

End loop.
End LoopFacts.


(** ** The dynamic run as a whole *)

Module DriverRun.
Import Driver.
Section driver_run.
Context {World : Type}.
Variable run_polychord : Settings → World → res Output * World.
Variable process_polychord_run : string → World → res Run.
Variable get_logx : list Z → list Q.
Variable rel_posterior_mass : list Q → list fl → list Q.
Variable double_mul : Q → Z → Q.
Variable double_div : Q → Z → Q.
Variable copyfile : string → string → World → res unit * World.
Variable remove : string → World → res unit * World.
Variable save_info : Settings → Output → option Z → World → res unit * World.
Variable comm_rank : Z.

Local Abbreviation run_dynamic :=
  (run_dynamic_polychord World run_polychord process_polychord_run get_logx
     rel_posterior_mass double_mul double_div copyfile remove save_info
     comm_rank).

Lemma read_inv (l : loc) (σ σ' : state World) (s : Settings) :
  read World l σ = (Ok s, σ') → heap World σ !! l = Some s ∧ σ' = σ.
Proof. unfold read. intros [= H <-]. by apply index_Ok in H. Qed.

Lemma setattr_inv (l : loc) (f : Settings → Settings) (σ σ' : state World)
    (u : unit) :
  setattr World l f σ = (Ok u, σ') →
  ∃ s, heap World σ !! l = Some s ∧
       σ' = mkState World (<[l := f s]> (heap World σ)) (world World σ).
Proof.
  unfold setattr. intros (s & σ1 & [Hs ->]%read_inv & H)%bind_Ok.
  exists s. split; [done|]. unfold modify_state in H. by simplify_eq.
Qed.

Lemma deepcopy_inv (l l' : loc) (σ σ' : state World) :
  deepcopy World l σ = (Ok l', σ') →
  ∃ s, heap World σ !! l = Some s ∧ l' = length (heap World σ) ∧
       σ' = mkState World (heap World σ ++ [s]) (world World σ).
Proof.
  unfold deepcopy. intros (s & σ1 & [Hs ->]%read_inv & H)%bind_Ok.
  exists s. split; [done|].
  apply bind_Ok in H as (σ2 & σ3 & [= <- <-] & H).
  apply bind_Ok in H as (u & σ3 & [= <-] & [= <- <-]). done.
Qed.

Lemma ext_inv {A} (f : World → res A * World) (σ σ' : state World) (r : res A) :
  ext World f σ = (r, σ') →
  ∃ w', f (world World σ) = (r, w') ∧ σ' = mkState World (heap World σ) w'.
Proof.
  unfold ext. destruct (f _) as [r' w'] eqn:E. intros [= <- <-]. by exists w'.
Qed.

Lemma remove_resumes_heap (prefix : string) (l : list Z) (σ σ' : state World)
    (r : res unit) :
  remove_resumes World remove prefix l σ = (r, σ') →
  heap World σ' = heap World σ.
Proof.
  revert σ. induction l as [|x l IH]; intros σ; cbn [remove_resumes].
  - by intros [= _ <-].
  - rewrite bind_unfold.
    destruct (ext World _ σ) as [[[]|e|] σ1] eqn:E;
      apply ext_inv in E as (w' & _ & ->).
    + intros H%IH. by rewrite H.
    + intros [= _ <-]. done.
    + intros [= _ <-]. done.
Qed.

Lemma insert_end (h : list Settings) (s s' : Settings) :
  <[length h := s']> (h ++ [s]) = h ++ [s'].
Proof.
  replace (length h) with (length h + 0)%nat at 1 by lia.
  by rewrite insert_app_r.
Qed.

Lemma lookup_end (h : list Settings) (s s' : Settings) :
  (h ++ [s]) !! length h = Some s' → s' = s.
Proof.
  rewrite list_lookup_middle by done. congruence.
Qed.

Lemma lookup_before (h t : list Settings) (l : loc) (s s' : Settings) :
  h !! l = Some s → (h ++ t) !! l = Some s' → s' = s.
Proof.
  intros H H'. rewrite (lookup_app_l_Some _ _ _ _ H) in H'. congruence.
Qed.

(** The steps of a dynamic run that succeeds. *)
Lemma run_dynamic_inv (fuel : nat) (pc_settings_in : loc)
    (kw : kwargs) (h : list Settings) (w : World) (s_in : Settings)
    (σ' : state World) :
  h !! pc_settings_in = Some s_in →
  run_dynamic fuel pc_settings_in kw (mkState World h w) = (Ok tt, σ') →
  let ninit := default 10 (kw_ninit kw) in
  let init_step := default ninit (kw_init_step kw) in
  let dyn_nlive_step := default 1 (kw_dyn_nlive_step kw) in
  let nlive_const := default (nlive s_in) (kw_nlive_const kw) in
  let s_init :=
    mkSettings (file_root s_in +:+ "_init") (base_dir s_in) ninit ∅ false
      true (max_ndead s_in) in
  ∃ vs s1 w1 init_run nlives_array peak_start_ind nlives_dict resume_ndead
    w2 dyn_output w3,
    let w_rel := rel_posterior_mass (get_logx (nlive_array init_run))
                   (logl init_run) in
    let s_dyn :=
      mkSettings (file_root s_in) (base_dir s_in) dyn_nlive_step nlives_dict
        true (write_resume s_in) (max_ndead s_in) in
    let s2 := set_file_root (file_root s_in +:+ "_dyn") s_dyn in
    explore_loop World run_polychord process_polychord_run copyfile fuel
      (length h) ninit init_step (mkVars [] ∅ true None)
      (mkState World (h ++ [s_init]) w)
    = (Ok vs, mkState World (h ++ [s1]) w1) ∧
    same_static s_init s1 ∧
    process_polychord_run (base_dir s1 +:+ "/" +:+ file_root s1) w1
    = Ok init_run ∧
    scale_w_rel double_mul double_div w_rel (max_ndead s_in)
      (length (logl init_run))
      nlive_const ninit = Ok nlives_array ∧
    peak_start nlives_array ninit = Ok peak_start_ind ∧
    make_nlives_dict (clamp_before nlives_array peak_start_ind ninit)
      (logl init_run) (length w_rel) dyn_nlive_step ninit
      = Ok nlives_dict ∧
    resume_select (v_step_ndead vs) peak_start_ind = Ok resume_ndead ∧
    copyfile
      (base_dir s_dyn +:+ "/" +:+ file_root s_dyn +:+ "_init_"
         +:+ pretty resume_ndead +:+ ".resume")
      (base_dir s_dyn +:+ "/" +:+ file_root s_dyn +:+ "_dyn.resume") w1
    = (Ok tt, w2) ∧
    run_polychord s2 w2 = (Ok dyn_output, w3) ∧
    heap World σ' = h ++ [s1; s2] ∧
    if comm_rank =? 0 then
      ∃ w4,
        remove_resumes World remove
          (base_dir s_in +:+ "/" +:+ file_root s_in) (v_step_ndead vs)
          (mkState World (h ++ [s1; s2]) w3)
        = (Ok tt, mkState World (h ++ [s1; s2]) w4) ∧
        save_info s2 dyn_output (Some resume_ndead) w4
        = (Ok tt, world World σ')
    else world World σ' = w3.
Proof.
  intros Hin Hrun ninit init_step dyn_nlive_step nlive_const s_init.
  unfold run_dynamic_polychord in Hrun.
  fold ninit dyn_nlive_step in Hrun. fold init_step nlive_const in Hrun.
  apply bind_Ok in Hrun as (s & σ1 & [Hs ->]%read_inv & Hrun).
  cbn [heap] in Hs. assert (s = s_in) as -> by congruence. clear Hs.
  apply bind_Ok in Hrun as (u & σ1 & Hkw & Hrun).
  assert (σ1 = mkState World h w) as ->.
  { destruct (bool_decide _); [by injection Hkw|done]. }
  clear Hkw u.
  apply bind_Ok in Hrun as (s & σ1 & [Hs ->]%read_inv & Hrun).
  cbn [heap] in Hs. assert (s = s_in) as -> by congruence. clear Hs.
  apply bind_Ok in Hrun as (u & σ1 & [Hnl ->]%lift_Ok & Hrun).
  apply assert_that_Ok, bool_decide_eq_true in Hnl. clear u.
  apply bind_Ok in Hrun as (u & σ1 & [Hrr ->]%lift_Ok & Hrun).
  apply assert_that_Ok, negb_true_iff in Hrr. clear u.
  (* the exploratory settings *)
  apply bind_Ok in Hrun as (pc & σ1 & (s & Hs & -> & ->)%deepcopy_inv & Hrun).
  cbn [heap world] in Hs, Hrun.
  assert (s = s_in) as -> by congruence. clear Hs.
  apply bind_Ok in Hrun as (s & σ2 & [Hs ->]%read_inv & Hrun).
  cbn [heap] in Hs. apply (lookup_before _ _ _ _ _ Hin) in Hs as ->.
  do 4 (apply bind_Ok in Hrun as (u & σ2 & (s & Hs & ->)%setattr_inv & Hrun);
        cbn [heap world] in Hs, Hrun; apply lookup_end in Hs as ->;
        rewrite insert_end in Hrun; clear u).
  assert (Hinit : set_read_resume false
                    (set_write_resume true
                       (set_nlive ninit
                          (set_file_root (file_root s_in +:+ "_init") s_in)))
                  = s_init).
  { unfold s_init. destruct s_in. simpl in *. by subst. }
  rewrite Hinit in Hrun. clear Hinit.
  (* the loop *)
  apply bind_Ok in Hrun as (vs & [h1 w1] & Hloop & Hrun).
  assert (Hpc : (h ++ [s_init]) !! length h = Some s_init)
    by (by rewrite list_lookup_middle).
  destruct (LoopFacts.explore_loop_post _ _ _ _ _ _ _
              (mkVars [] ∅ true None) _ _ _ _ _ Hpc eq_refl Hloop)
    as (_ & s1 & _ & _ & _ & _ & _ & _ & Hh1 & Hst).
  cbn [heap] in Hh1. rewrite insert_end in Hh1. subst h1. clear Hpc.
  apply bind_Ok in Hrun as (s & σ1 & [Hs ->]%read_inv & Hrun).
  cbn [heap] in Hs. apply lookup_end in Hs as ->.
  apply bind_Ok in Hrun as (init_run & σ1 & (w' & Hload & ->)%ext_inv & Hrun).
  cbn [heap world] in Hload, Hrun. injection Hload as Hload <-.
  (* the dynamic settings *)
  assert (Hin1 : ∀ t, (h ++ t) !! pc_settings_in = Some s_in)
    by (intros t; by apply lookup_app_l_Some).
  apply bind_Ok in Hrun as (pc' & σ1 & (s & Hs & -> & ->)%deepcopy_inv & Hrun).
  cbn [heap world] in Hs, Hrun. rewrite Hin1 in Hs. injection Hs as <-.
  rewrite length_app in Hrun. cbn [length] in Hrun.
  rewrite <- app_assoc in Hrun. cbn [app] in Hrun.
  apply bind_Ok in Hrun as (s & σ1 & [Hs ->]%read_inv & Hrun).
  cbn [heap] in Hs. rewrite Hin1 in Hs. injection Hs as <-.
  apply bind_Ok in Hrun as (nlives_array & σ1 & [Hscale ->]%lift_Ok & Hrun).
  apply bind_Ok in Hrun as (peak & σ1 & [Hpeak ->]%lift_Ok & Hrun).
  apply bind_Ok in Hrun as (dict & σ1 & [Hdict ->]%lift_Ok & Hrun).
  apply bind_Ok in Hrun as (resume_ndead & σ1 & [Hres ->]%lift_Ok & Hrun).
  assert (Hat : ∀ a b, (h ++ [a; b]) !! (length h + 1)%nat = Some b)
    by (intros a b; rewrite lookup_app_r by lia;
        by replace (length h + 1 - length h)%nat with 1%nat by lia).
  assert (Hset : ∀ a b c, <[(length h + 1)%nat := c]> (h ++ [a; b])
                          = h ++ [a; c])
    by (intros a b c; by rewrite insert_app_r).
  do 3 (apply bind_Ok in Hrun as (u & σ1 & (s & Hs & ->)%setattr_inv & Hrun);
        cbn [heap world] in Hs, Hrun; rewrite Hat in Hs; injection Hs as <-;
        rewrite Hset in Hrun; clear u).
  assert (Hdyn : set_read_resume true
                   (set_nlives dict (set_nlive dyn_nlive_step s_in))
                 = mkSettings (file_root s_in) (base_dir s_in) dyn_nlive_step
                     dict true (write_resume s_in) (max_ndead s_in))
    by done.
  rewrite Hdyn in Hrun. clear Hdyn.
  set (s_dyn := mkSettings (file_root s_in) _ _ _ _ _ _) in Hrun.
  apply bind_Ok in Hrun as (s & σ1 & [Hs ->]%read_inv & Hrun).
  cbn [heap] in Hs. rewrite Hat in Hs. injection Hs as <-.
  apply bind_Ok in Hrun as (u & σ1 & (w2 & Hcopy & ->)%ext_inv & Hrun).
  cbn [heap world] in Hcopy, Hrun. destruct u.
  apply bind_Ok in Hrun as (s & σ1 & [Hs ->]%read_inv & Hrun).
  cbn [heap] in Hs. rewrite Hin1 in Hs. injection Hs as <-.
  apply bind_Ok in Hrun as (u & σ1 & (s & Hs & ->)%setattr_inv & Hrun).
  cbn [heap world] in Hs, Hrun. rewrite Hat in Hs. injection Hs as <-.
  rewrite Hset in Hrun. clear u.
  set (s2 := set_file_root _ s_dyn) in Hrun.
  apply bind_Ok in Hrun as (s & σ1 & [Hs ->]%read_inv & Hrun).
  cbn [heap] in Hs. rewrite Hat in Hs. injection Hs as <-.
  apply bind_Ok in Hrun as (dyn_output & σ1 & (w3 & Hsample & ->)%ext_inv
                            & Hrun).
  cbn [heap world] in Hsample, Hrun.
  exists vs, s1, w1, init_run, nlives_array, peak, dict, resume_ndead, w2,
    dyn_output, w3.
  cbv zeta. fold s_dyn s2.
  split; [done|]. split; [done|]. split; [done|]. split; [done|].
  split; [done|]. split; [done|]. split; [done|]. split; [done|].
  split; [done|].
  destruct (comm_rank =? 0).
  - apply bind_Ok in Hrun as (s & σ1 & [Hs ->]%read_inv & Hrun).
    cbn [heap] in Hs. rewrite Hin1 in Hs. injection Hs as <-.
    apply bind_Ok in Hrun as (u & [h4 w4] & Hrm & Hrun). destruct u.
    pose proof (remove_resumes_heap _ _ _ _ _ Hrm) as Hh4.
    cbn [heap] in Hh4. subst h4.
    apply bind_Ok in Hrun as (s & σ1 & [Hs ->]%read_inv & Hrun).
    cbn [heap] in Hs. rewrite Hat in Hs. injection Hs as <-.
    apply ext_inv in Hrun as (w5 & Hsave & ->). cbn [heap world] in *.
    split; [done|]. by exists w4.
  - injection Hrun as <-. by split.
Qed.

(** X9. The settings of a dynamic run that succeeds.  The caller's
    objects are as before and two objects have been added.  The first
    is the settings of the exploratory run: the caller's with the file
    root extended by [_init], [ninit] live points, no schedule and
    [write_resume] set.  The second is the settings of the dynamic
    run: the caller's with the file root extended by [_dyn],
    [dyn_nlive_step] live points, [read_resume] set, and as schedule
    the dictionary that [make_nlives_dict] returns for the exploratory
    run [init_run].  This is the run that [process_polychord_run]
    loads, from the root of the exploratory run, in the world that the
    exploration loop has left; the allocation is the relative
    posterior mass of this run, scaled by [scale_w_rel] with the
    rounded arithmetic of the doubles, and clamped before the index
    that [peak_start] finds. *)
Theorem run_dynamic_polychord_settings (fuel : nat) (pc_settings_in : loc)
    (kw : kwargs) (h : list Settings) (w : World) (s_in : Settings)
    (σ' : state World) :
  h !! pc_settings_in = Some s_in →
  run_dynamic fuel pc_settings_in kw (mkState World h w) = (Ok tt, σ') →
  let ninit := default 10 (kw_ninit kw) in
  let init_step := default ninit (kw_init_step kw) in
  let dyn_nlive_step := default 1 (kw_dyn_nlive_step kw) in
  let nlive_const := default (nlive s_in) (kw_nlive_const kw) in
  ∃ vs s1 w1 init_run nlives_array peak_start_ind nlives_dict,
    let w_rel := rel_posterior_mass (get_logx (nlive_array init_run))
                   (logl init_run) in
    explore_loop World run_polychord process_polychord_run copyfile fuel
      (length h) ninit init_step (mkVars [] ∅ true None)
      (mkState World (h ++ [Logged.exploratory_settings s_in ninit]) w)
    = (Ok vs, mkState World (h ++ [s1]) w1) ∧
    process_polychord_run
      (base_dir s_in +:+ "/" +:+ (file_root s_in +:+ "_init")) w1
    = Ok init_run ∧
    scale_w_rel double_mul double_div w_rel (max_ndead s_in)
      (length (logl init_run)) nlive_const ninit = Ok nlives_array ∧
    peak_start nlives_array ninit = Ok peak_start_ind ∧
    make_nlives_dict (clamp_before nlives_array peak_start_ind ninit)
      (logl init_run) (length w_rel) dyn_nlive_step ninit
      = Ok nlives_dict ∧
    (file_root s1, base_dir s1, nlive s1, nlives s1, write_resume s1)
      = (file_root s_in +:+ "_init", base_dir s_in, ninit, ∅, true) ∧
    heap World σ'
      = h ++ [s1;
              mkSettings (file_root s_in +:+ "_dyn") (base_dir s_in)
                dyn_nlive_step nlives_dict true (write_resume s_in)
                (max_ndead s_in)].
Proof.
  intros Hin Hrun ninit init_step dyn_nlive_step nlive_const.
  destruct (run_dynamic_inv _ _ _ _ _ _ _ Hin Hrun)
    as (vs & s1 & w1 & init_run & arr & peak & dict & resume_ndead & w2
        & dyn_output & w3 & Hloop & Hst & Hload & Hscale & Hpeak & Hdict
        & _ & _ & _ & Hheap & _).
  exists vs, s1, w1, init_run, arr, peak, dict. cbv zeta.
  destruct Hst as (Hfr & Hbd & Hnl & Hnls & Hwr).
  cbn [file_root base_dir nlive nlives write_resume] in *.
  split; [done|]. split; [by rewrite <- Hbd, <- Hfr|].
  split; [done|]. split; [done|]. split; [done|]. split; [|done].
  by rewrite Hfr, Hbd, Hnl, Hnls, Hwr.
Qed.
End driver_run.
End DriverRun.


(** ** Loading a dynamic run: the keyword arguments and the output *)

Module ProcessingMore.
Import Merge Processing.
Section processing_more.
Variable process_polychord_run : string → string → bool → res Run.
Variable pickle_load : string → res (gmap string pyval).
Variable path_join : string → string → string.
Variable check_ns_run : Run → res unit.

Local Abbreviation process_run :=
  (process_dypolychord_run process_polychord_run pickle_load path_join
     check_ns_run).

(** X10. [process_dypolychord_run] checks its keyword arguments before
    it loads anything: without [dynamic_goal] it raises [KeyError],
    also when there are unknown keyword arguments as well; with
    [dynamic_goal] and an unknown keyword argument it raises
    [TypeError]; in both cases the store of runs is as it was. *)
Theorem process_dypolychord_run_kwargs (file_root base_dir : string)
    (kw : pkwargs) (σ0 : store) :
  (pk_dynamic_goal kw = None →
   process_run file_root base_dir kw σ0
   = (Raise (KeyError "dynamic_goal"), σ0)) ∧
  (pk_dynamic_goal kw ≠ None → pk_other kw ≠ [] →
   process_run file_root base_dir kw σ0 = (Raise TypeError, σ0)).
Proof.
  unfold process_dypolychord_run. split.
  - intros ->. by rewrite bind_unfold.
  - intros Hgoal Hother. destruct (pk_dynamic_goal kw) as [goal|]; [|done].
    rewrite bind_unfold. unfold lift at 1.
    by rewrite bind_unfold, bool_decide_eq_false_2.
Qed.

Lemma readr_inv (l : loc) (σ σ' : store) (r : Run) :
  readr l σ = (Ok r, σ') → σ !! l = Some r ∧ σ' = σ.
Proof. unfold readr. intros [= H <-]. by apply index_Ok in H. Qed.

Lemma alloc_inv (r : Run) (l : loc) (σ σ' : store) :
  alloc r σ = (Ok l, σ') → l = length σ ∧ σ' = σ ++ [r].
Proof. unfold alloc. by intros [= <- <-]. Qed.

Lemma combine_resumed_with_Ok (init dyn : loc) (v : pyval) (σ σ' : store)
    (r : Run) :
  combine_resumed_with init dyn v σ = (Ok r, σ') →
  ∃ k, combine_resumed_dyn_run init dyn k σ = (Ok r, σ').
Proof.
  destruct v as [|n|s]; cbn [combine_resumed_with].
  - intros (i & σ1 & [_ ->]%readr_inv & H)%bind_Ok.
    apply bind_Ok in H as (d & σ1 & [_ ->]%readr_inv & H).
    apply bind_Ok in H as (u & σ1 & [_ ->]%lift_Ok & H). by exists 0.
  - intros H. by exists n.
  - done.
Qed.

(** X11. The output of a run that [process_dypolychord_run] returns is
    the loaded information of the dynamic run with six entries written
    over it: the file root, the directory and the dynamic goal of the
    call, the likelihood calls of the two loaded runs as [init_nlike]
    and [dyn_nlike], and as [nlike] their sum, less [resume_nlike] when
    the information has an entry [resume_ndead]; every other entry is
    as loaded.  The run returned has passed [check_ns_run]. *)
Theorem process_dypolychord_run_output (file_root base_dir : string)
    (kw : pkwargs) (σ0 σ : store) (run : Run) :
  process_run file_root base_dir kw σ0 = (Ok run, σ) →
  ∃ goal init_run dyn_run info a b,
    pk_dynamic_goal kw = Some goal ∧
    process_polychord_run (file_root +:+ "_init") base_dir
      (default false (pk_logl_warn_only kw)) = Ok init_run ∧
    process_polychord_run (file_root +:+ "_dyn") base_dir
      (default false (pk_logl_warn_only kw)) = Ok dyn_run ∧
    pickle_load (path_join base_dir (file_root +:+ "_dyn_info")) = Ok info ∧
    get_int (output init_run) "nlike" = Ok a ∧
    get_int (output dyn_run) "nlike" = Ok b ∧
    check_ns_run run = Ok tt ∧
    output run !! "file_root" = Some (PStr file_root) ∧
    output run !! "base_dir" = Some (PStr base_dir) ∧
    output run !! "dynamic_goal" = Some goal ∧
    output run !! "init_nlike" = Some (PInt a) ∧
    output run !! "dyn_nlike" = Some (PInt b) ∧
    match info !! "resume_ndead" with
    | None => output run !! "nlike" = Some (PInt (a + b))
    | Some _ => ∃ c, get_int info "resume_nlike" = Ok c ∧
                     output run !! "nlike" = Some (PInt (a + b - c))
    end ∧
    ∀ key, key ∉ written_keys → output run !! key = info !! key.
Proof.
  intros Hrun. unfold process_dypolychord_run in Hrun.
  apply bind_Ok in Hrun as (goal & σ1 & [Hgoal ->]%lift_Ok & Hrun).
  destruct (pk_dynamic_goal kw) as [goal'|]; [|done].
  injection Hgoal as ->.
  apply bind_Ok in Hrun as (u & σ1 & Hkw & Hrun).
  assert (σ1 = σ0) as ->.
  { destruct (bool_decide _); [by injection Hkw|done]. }
  clear u Hkw.
  apply bind_Ok in Hrun as (init_run & σ1 & [Hinit ->]%lift_Ok & Hrun).
  apply bind_Ok in Hrun as (init & σ1 & [-> ->]%alloc_inv & Hrun).
  apply bind_Ok in Hrun as (i & σ1 & [_ ->]%readr_inv & Hrun).
  apply bind_Ok in Hrun as (u & σ1 & [_ ->]%lift_Ok & Hrun). clear u i.
  apply bind_Ok in Hrun as (dyn_run & σ1 & [Hdyn ->]%lift_Ok & Hrun).
  apply bind_Ok in Hrun as (dyn & σ1 & [-> ->]%alloc_inv & Hrun).
  apply bind_Ok in Hrun as (info & σ1 & [Hinfo ->]%lift_Ok & Hrun).
  apply bind_Ok in Hrun as (u & σ1 & Hchk & Hrun).
  assert (σ1 = (σ0 ++ [init_run]) ++ [dyn_run]) as ->.
  { destruct (bool_decide _); [|by injection Hchk].
    apply bind_Ok in Hchk as (d & σ2 & [_ ->]%readr_inv & Hchk).
    by apply lift_Ok in Hchk as [_ ->]. }
  clear u Hchk.
  rewrite length_app in Hrun. cbn [length] in Hrun.
  rewrite <- app_assoc in Hrun. cbn [app] in Hrun.
  set (σi := σ0 ++ [init_run; dyn_run]) in Hrun.
  assert (Hi0 : σi !! length σ0 = Some init_run)
    by (by apply list_lookup_middle).
  assert (Hd0 : σi !! (length σ0 + 1)%nat = Some dyn_run).
  { unfold σi. rewrite lookup_app_r by lia.
    by replace (length σ0 + 1 - length σ0)%nat with 1%nat by lia. }
  assert (Hne : length σ0 ≠ (length σ0 + 1)%nat) by lia.
  apply bind_Ok in Hrun as ([run' info'] & σ1 & Hcomb & Hrun).
  (* the store and the information after the combination *)
  assert (Hcomb' : ∃ i' a b,
    σ1 !! length σ0 = Some i' ∧ output i' = output init_run ∧
    σ1 !! (length σ0 + 1)%nat = Some dyn_run ∧
    get_int (output init_run) "nlike" = Ok a ∧
    get_int (output dyn_run) "nlike" = Ok b ∧
    (∀ key, key ≠ "nlike" → info' !! key = info !! key) ∧
    match info !! "resume_ndead" with
    | None => info' !! "nlike" = Some (PInt (a + b))
    | Some _ => ∃ c, get_int info "resume_nlike" = Ok c ∧
                     info' !! "nlike" = Some (PInt (a + b - c))
    end).
  { unfold combine_runs in Hcomb.
    destruct (info !! "resume_ndead") as [v|].
    - apply bind_Ok in Hcomb as (r & σ2 & Hmerge & Hcomb).
      apply combine_resumed_with_Ok in Hmerge as [k Hmerge].
      destruct (MergeFacts.combine_resumed_run σi _ _ _ _ Hne Hi0 Hd0
                  _ _ _ Hmerge) as (j & -> & _ & _ & _ & Hj & _).
      apply bind_Ok in Hcomb as (j' & σ2 & [Hj' ->]%readr_inv & Hcomb).
      rewrite (MergeFacts.st_lookup_init _ _ _ Hi0) in Hj'.
      injection Hj' as <-.
      assert (Hout : output j = output init_run) by by rewrite Hj.
      apply bind_Ok in Hcomb as (a & σ2 & [Ha ->]%lift_Ok & Hcomb).
      rewrite Hout in Ha.
      apply bind_Ok in Hcomb as (d' & σ2 & [Hd' ->]%readr_inv & Hcomb).
      rewrite (MergeFacts.st_lookup_dyn _ _ _ _ Hne Hd0) in Hd'.
      injection Hd' as <-.
      apply bind_Ok in Hcomb as (b & σ2 & [Hb ->]%lift_Ok & Hcomb).
      apply bind_Ok in Hcomb as (c & σ2 & [Hc ->]%lift_Ok & Hcomb).
      injection Hcomb as _ <- <-.
      exists j, a, b.
      split; [by apply (MergeFacts.st_lookup_init _ _ _ Hi0)|].
      split; [done|].
      split; [by apply (MergeFacts.st_lookup_dyn _ _ _ _ Hne Hd0)|].
      split; [done|]. split; [done|]. split.
      + intros key Hkey. by rewrite lookup_insert_ne.
      + exists c. split; [done|]. apply lookup_insert_eq.
    - apply bind_Ok in Hcomb as (i & σ2 & [Hi ->]%readr_inv & Hcomb).
      apply bind_Ok in Hcomb as (d & σ2 & [Hd ->]%readr_inv & Hcomb).
      apply bind_Ok in Hcomb as (r & σ2 & [_ ->]%lift_Ok & Hcomb).
      apply bind_Ok in Hcomb as (i'' & σ2 & [Hi'' ->]%readr_inv & Hcomb).
      apply bind_Ok in Hcomb as (a & σ2 & [Ha ->]%lift_Ok & Hcomb).
      apply bind_Ok in Hcomb as (d' & σ2 & [Hd' ->]%readr_inv & Hcomb).
      apply bind_Ok in Hcomb as (b & σ2 & [Hb ->]%lift_Ok & Hcomb).
      injection Hcomb as _ <- <-.
      assert (i'' = init_run) as ->
        by (pose proof (eq_trans (eq_sym Hi0) Hi'') as Heq; by injection Heq).
      assert (d' = dyn_run) as ->
        by (pose proof (eq_trans (eq_sym Hd0) Hd') as Heq; by injection Heq).
      exists init_run, a, b. do 5 (split; [done|]). split.
      + intros key Hkey. by rewrite lookup_insert_ne.
      + apply lookup_insert_eq. }
  destruct Hcomb' as (i' & a & b & Hi' & Hout & Hd' & Ha & Hb & Hkeep & Hnlike).
  clear Hcomb.
  apply bind_Ok in Hrun as (i & σ2 & [Hi ->]%readr_inv & Hrun).
  assert (i = i') as ->
    by (pose proof (eq_trans (eq_sym Hi') Hi) as Heq; by injection Heq).
  clear Hi.
  apply bind_Ok in Hrun as (a' & σ2 & [Ha' ->]%lift_Ok & Hrun).
  rewrite Hout in Ha'. assert (a' = a) as -> by congruence. clear Ha'.
  apply bind_Ok in Hrun as (d & σ2 & [Hd ->]%readr_inv & Hrun).
  assert (d = dyn_run) as ->
    by (pose proof (eq_trans (eq_sym Hd') Hd) as Heq; by injection Heq).
  clear Hd.
  apply bind_Ok in Hrun as (b' & σ2 & [Hb' ->]%lift_Ok & Hrun).
  assert (b' = b) as -> by congruence. clear Hb'.
  apply bind_Ok in Hrun as (u & σ2 & [Hcheck ->]%lift_Ok & Hrun).
  destruct u. injection Hrun as <- <-.
  exists goal, init_run, dyn_run, info, a, b.
  do 7 (split; [done|]). cbn [output set_output].
  split; [by rewrite !lookup_insert_ne, lookup_insert_eq by done|].
  split; [by rewrite !lookup_insert_ne, lookup_insert_eq by done|].
  split; [by rewrite !lookup_insert_ne, lookup_insert_eq by done|].
  split; [by rewrite !lookup_insert_ne, lookup_insert_eq by done|].
  split; [by rewrite lookup_insert_eq|].
  split.
  - destruct (info !! "resume_ndead").
    + destruct Hnlike as (c & Hc & Hl). exists c. split; [done|].
      by rewrite !lookup_insert_ne by done.
    + by rewrite !lookup_insert_ne by done.
  - intros key Hkey. unfold written_keys in Hkey.
    rewrite !not_elem_of_cons in Hkey.
    destruct Hkey as (? & ? & ? & ? & ? & ? & _).
    rewrite !lookup_insert_ne by done. by apply Hkeep.
Qed.
End processing_more.
End ProcessingMore.


(** ** The schedule: when there is no peak, and short runs *)

Module ScheduleMore.

Lemma peak_start_flat (nlives_array : list Q) (ninit : Z) :
  peak_start nlives_array ninit = Raise IndexError ↔
  ∀ x, x ∈ nlives_array → (x <= inject_Z ninit)%Q.
Proof.
  unfold peak_start, np_where.
  destruct (where_from _ 0 nlives_array) as [|i l] eqn:E; simpl.
  - split; [|done]. intros _ x Hx. apply Qltb_ge.
    by apply (proj1 (where_from_nil _ _ _) E).
  - split; [done|]. intros Hall. exfalso.
    assert (Hnil : where_from (λ x, Qltb (inject_Z ninit) x) 0 nlives_array
                   = []).
    { apply where_from_nil. intros x Hx. apply Qltb_ge. by apply Hall. }
    congruence.
Qed.

(** X12. The search for the start of the peak fails, with
    [IndexError] and with nothing else, exactly when no entry of the
    array exceeds [ninit]. *)
Theorem peak_start_none (nlives_array : list Q) (ninit : Z) :
  (peak_start nlives_array ninit = Raise IndexError ↔
   ∀ x, x ∈ nlives_array → (x <= inject_Z ninit)%Q) ∧
  (∀ e, peak_start nlives_array ninit = Raise e → e = IndexError) ∧
  peak_start nlives_array ninit ≠ OutOfFuel.
Proof.
  split; [apply peak_start_flat|].
  unfold peak_start. destruct (head _); [done|].
  split; [by intros e [= <-] | done].
Qed.

(** The exact product and quotient have the signs that the rounded
    ones have. *)
Lemma Qle_scaled_nonpos (w : Q) (c : Z) :
  (0 <= w)%Q → c ≤ 0 → (w * inject_Z c <= 0)%Q.
Proof.
  destruct w as [a b]. unfold Qle, Qmult, inject_Z. simpl. nia.
Qed.

Lemma Qle_scaled_nonneg (w : Q) (c : Z) :
  (0 <= w)%Q → 0 ≤ c → (0 <= w * inject_Z c)%Q.
Proof.
  destruct w as [a b]. unfold Qle, Qmult, inject_Z. simpl. nia.
Qed.

Lemma Qle_quotient_nonpos (x : Q) (d : Z) :
  (x <= 0)%Q → 0 < d → (x / inject_Z d <= 0)%Q.
Proof.
  intros Hx Hd. unfold Qdiv.
  assert (H2 : (0 <= / inject_Z d)%Q).
  { apply Qinv_le_0_compat. unfold Qle, inject_Z. simpl. lia. }
  set (y := (/ inject_Z d)%Q) in *.
  destruct x as [a b], y as [a' b']. unfold Qle, Qmult in *. simpl in *. nia.
Qed.

(** X13. Rounding keeps the sign of a product and of a quotient.  For
    every such arithmetic, with non-negative relative masses and
    [ninit >= 0], the scaled allocation has no entry above [ninit], so
    that the search for the peak raises [IndexError],
    - when [max_ndead] is positive and not more than the number of
      samples of the exploratory run, and
    - when [max_ndead] is not positive, [ninit] is positive and
      [nlive_const] is not more than [ninit]. *)
Theorem schedule_without_peak (double_mul double_div : Q → Z → Q)
    (w_rel : list Q) (max_ndead_in : Z) (n : nat) (nlive_const ninit : Z) :
  (∀ w c, (0 <= w)%Q → c ≤ 0 → (double_mul w c <= 0)%Q) →
  (∀ w c, (0 <= w)%Q → 0 ≤ c → (0 <= double_mul w c)%Q) →
  (∀ x d, (x <= 0)%Q → 0 < d → (double_div x d <= 0)%Q) →
  Forall (λ w, (0 <= w)%Q) w_rel →
  0 ≤ ninit →
  0 < max_ndead_in ≤ Z.of_nat n
  ∨ (max_ndead_in ≤ 0 ∧ 0 < ninit ∧ nlive_const ≤ ninit) →
  ∃ nlives_array,
    scale_w_rel double_mul double_div w_rel max_ndead_in n nlive_const ninit
    = Ok nlives_array ∧
    length nlives_array = length w_rel ∧
    peak_start nlives_array ninit = Raise IndexError.
Proof.
  intros Hneg Hpos Hdiv Hw Hninit Hcase. unfold scale_w_rel.
  assert (H0 : (0 <= inject_Z ninit)%Q)
    by (unfold Qle, inject_Z; simpl; lia).
  destruct Hcase as [Hm|(Hm & Hp & Hc)].
  - replace (0 <? max_ndead_in) with true by (symmetry; apply Z.ltb_lt; lia).
    eexists. split; [done|]. split; [by rewrite length_fmap|].
    apply peak_start_flat. intros x (w & -> & Hin)%list_elem_of_fmap.
    rewrite Forall_forall in Hw. apply Qle_trans with 0%Q; [|done].
    apply Hneg; [by apply Hw | lia].
  - replace (0 <? max_ndead_in) with false
      by (symmetry; apply Z.ltb_ge; lia).
    eexists. split; [done|]. split; [by rewrite length_fmap|].
    apply peak_start_flat. intros x (w & -> & Hin)%list_elem_of_fmap.
    rewrite Forall_forall in Hw. apply Qle_trans with 0%Q; [|done].
    apply Hdiv; [|done]. apply Hneg; [|lia]. apply Hpos; [by apply Hw | lia].
Qed.

(** X14. The schedule for a stride of zero and for short runs: with
    [dyn_nlive_step = 0] the stride positions cannot be computed and
    [ZeroDivisionError] is raised; with a stride for which there are
    fewer than two stride positions (among them every negative stride)
    the schedule is the seed entry alone, whatever the arrays hold. *)
Theorem make_nlives_dict_short (nlives_array : list Q) (logl : list fl)
    (n_w : nat) (dyn_nlive_step ninit : Z) :
  (dyn_nlive_step = 0 →
   make_nlives_dict nlives_array logl n_w dyn_nlive_step ninit
   = Raise ZeroDivisionError) ∧
  (dyn_nlive_step ≠ 0 → Z.of_nat n_w `div` dyn_nlive_step ≤ 1 →
   make_nlives_dict nlives_array logl n_w dyn_nlive_step ninit
   = Ok {[ seed_key := ninit ]}).
Proof.
  unfold make_nlives_dict, stride_steps. split.
  - by intros ->.
  - intros Hne Hdiv.
    replace (dyn_nlive_step =? 0) with false
      by (symmetry; by apply Z.eqb_neq).
    cbn [mbind res_mbind res_bind].
    rewrite length_fmap, length_seq.
    replace (Z.to_nat (Z.of_nat n_w `div` dyn_nlive_step) - 1)%nat
      with 0%nat by lia.
    by rewrite take_0.
Qed.
End ScheduleMore.

(** ** The merge: which samples the merged run holds *)

Module MergeMore.
Import Merge.

Lemma delete_from_elem {A} (l : list A) (inds : list nat) (i j : nat) (x : A) :
  l !! j = Some x → (i + j)%nat ∉ inds → x ∈ delete_from i inds l.
Proof.
  revert i j. induction l as [|y l IH]; intros i j Hj Hnot; [done|].
  simpl. destruct j as [|j].
  - injection Hj as ->. rewrite Nat.add_0_r in Hnot.
    rewrite bool_decide_eq_false_2 by done. by left.
  - simpl in Hj. assert (x ∈ delete_from (S i) inds l).
    { apply (IH (S i) j Hj). by replace (S i + j)%nat with (i + S j)%nat by lia. }
    case_bool_decide; [done | by right].
Qed.

Lemma delete_from_subset {A} (l : list A) (inds : list nat) (i : nat) (x : A) :
  x ∈ delete_from i inds l → x ∈ l.
Proof.
  revert i. induction l as [|y l IH]; intros i; simpl; [done|].
  destruct (bool_decide _).
  - intros Hx%IH. by right.
  - intros [->|Hx%IH]%elem_of_cons; [by left | by right].
Qed.

Lemma slice_split {A} (k : Z) (l : list A) :
  slice_to k l ++ slice_from k l = l.
Proof. unfold slice_to, slice_from. destruct (0 <=? k); apply take_drop. Qed.

(** X15. When the merge returns, the merged run holds the
    log-likelihood values of the two runs and no others: no sample of
    the exploratory run is lost (those that are cut off or deleted are
    in the dynamic run), and none is invented. *)
Theorem combine_resumed_values (σ0 : list Run) (init dyn : loc) (i0 d0 : Run)
    (k : Z) (run : Run) (σ : list Run) :
  init ≠ dyn → σ0 !! init = Some i0 → σ0 !! dyn = Some d0 →
  combine_resumed_dyn_run init dyn k σ0 = (Ok run, σ) →
  ∀ x, x ∈ logl run ↔ x ∈ logl i0 ∨ x ∈ logl d0.
Proof.
  intros Hne Hi0 Hd0 Hrun x.
  destruct (MergeFacts.combine_resumed_run σ0 init dyn i0 d0 Hne Hi0 Hd0
              k _ _ Hrun)
    as (i' & _ & Hpre & Hlive & _ & -> & _ & Hperm).
  rewrite Hperm, elem_of_app, MergeFacts.logl_tail_merged.
  cbn [logl truncated set_thread_min_max thread_labels] in *.
  set (L := slice_from k (logl i0)) in *.
  set (T := slice_from k (thread_labels i0)) in *.
  split.
  - intros [Hx|Hx]; [by right|]. left.
    apply delete_from_subset in Hx. rewrite <- (slice_split k (logl i0)).
    apply elem_of_app. by right.
  - intros [Hx|Hx]; [|by left].
    rewrite <- (slice_split k (logl i0)) in Hx.
    apply elem_of_app in Hx as [Hx|Hx].
    + left. rewrite Hpre in Hx. unfold slice_to in Hx.
      destruct (0 <=? k); by apply (subseteq_take _ _ _ Hx).
    + fold L in Hx. apply list_elem_of_lookup in Hx as [j Hj].
      destruct (decide (j ∈ live_inds_of T)) as [Hin|Hnot].
      * left. unfold live_inds_of in Hin.
        apply list_elem_of_omap in Hin as (lab & Hlab & Hfirst).
        rewrite Forall_forall in Hlive.
        destruct (Hlive lab Hlab) as (v & Hv & Hone).
        unfold live_logl_of in Hv. rewrite Hfirst in Hv. simpl in Hv.
        assert (v = x) as -> by congruence.
        destruct (np_where (eqb_fl x) (logl d0)) as [|m ms] eqn:E; [done|].
        assert (Hm : m ∈ np_where (eqb_fl x) (logl d0))
          by (rewrite E; by left).
        unfold np_where in Hm.
        apply where_from_elem in Hm as (m' & y & _ & Hy & Heq).
        unfold eqb_fl in Heq. apply bool_decide_eq_true in Heq as ->.
        by eapply list_elem_of_lookup_2.
      * right. by apply (delete_from_elem _ _ 0 j).
Qed.
End MergeMore.


(** ** The calls of a dynamic run, in order *)

Module FileLog.
Import Driver Logged.
Section file_log.
Context {World : Type}.
Variable run_polychord : Settings → World → res Output * World.
Variable process_polychord_run : string → World → res Run.
Variable get_logx : list Z → list Q.
Variable rel_posterior_mass : list Q → list fl → list Q.
Variable double_mul : Q → Z → Q.
Variable double_div : Q → Z → Q.
Variable copyfile : string → string → World → res unit * World.
Variable remove : string → World → res unit * World.
Variable save_info : Settings → Output → option Z → World → res unit * World.
Variable comm_rank : Z.

Local Abbreviation LWorld := (World * list io_op)%type.
Local Abbreviation run_logged :=
  (run_dynamic_polychord_logged World run_polychord process_polychord_run
     get_logx rel_posterior_mass double_mul double_div copyfile remove
     save_info comm_rank).
Local Abbreviation loop_logged :=
  (explore_loop LWorld (log_run_polychord World run_polychord)
     (log_process_polychord_run World process_polychord_run)
     (log_copyfile World copyfile)).

Lemma call_settings_call_of (init_step : Z) (hist : list Z) (s0 : Settings) :
  read_resume s0 = bool_decide (2 ≤ length hist)%nat →
  call_settings init_step hist s0 = call_of init_step s0 (length hist).
Proof.
  intros Hrr. unfold call_settings, call_of.
  destruct s0 as [fr bd nl nls rr wr md]. cbn in Hrr. subst rr.
  destruct (decide (length hist = 1%nat)) as [H1|H1].
  - rewrite (bool_decide_eq_true_2 (length hist = 1%nat)) by done.
    rewrite H1. reflexivity.
  - rewrite (bool_decide_eq_false_2 (length hist = 1%nat)) by done.
    unfold set_max_ndead. cbn. f_equal.
    destruct (decide (2 ≤ length hist)%nat).
    + rewrite !bool_decide_eq_true_2 by lia. done.
    + rewrite !bool_decide_eq_false_2 by lia. done.
Qed.

Lemma loop_ops_ext (call call' : nat → Settings) (src : string)
    (dst : Z → string) (k : nat) (steps : list Z) :
  (∀ j, call j = call' j) →
  loop_ops call src dst k steps = loop_ops call' src dst k steps.
Proof.
  intros Hcall. revert k. induction steps as [|n steps IH]; intros k; [done|].
  simpl. by rewrite Hcall, IH.
Qed.

(** The calls of the exploration loop. *)
Lemma explore_loop_log (fuel : nat) (pc_settings : loc) (ninit init_step : Z)
    (vs vs' : loop_vars) (h h' : list Settings) (wl wl' : LWorld)
    (s0 : Settings) :
  h !! pc_settings = Some s0 →
  read_resume s0 = bool_decide (2 ≤ length (v_step_ndead vs))%nat →
  v_add_points vs = true →
  loop_logged fuel pc_settings ninit init_step vs (mkState LWorld h wl)
    = (Ok vs', mkState LWorld h' wl') →
  ∃ ext,
    v_step_ndead vs' = v_step_ndead vs ++ ext ∧
    wl'.2 = wl.2 ++
      loop_ops (call_of init_step s0)
        (base_dir s0 +:+ "/" +:+ file_root s0 +:+ ".resume")
        (λ n, base_dir s0 +:+ "/" +:+ file_root s0 +:+ "_" +:+ pretty n
                +:+ ".resume")
        (length (v_step_ndead vs)) ext.
Proof.
  revert vs h wl s0.
  induction fuel as [|fuel IH]; intros vs h wl s0 Hin Hrr Hap Hloop;
    cbn [Driver.explore_loop] in Hloop; rewrite Hap in Hloop; [done|].
  rewrite bind_unfold, (LoopFacts.explore_iter_eq _ _ _ _ _ _ _ _ _ _ Hin)
    in Hloop.
  cbv zeta in Hloop. rewrite (call_settings_call_of _ _ _ Hrr) in Hloop.
  set (s1 := call_of init_step s0 (length (v_step_ndead vs))) in *.
  unfold log_run_polychord at 1 in Hloop.
  destruct (run_polychord s1 wl.1) as [[out|e|] w1]; [|done..].
  destruct (log_process_polychord_run _ _ _ _) as [run|e|]; [|done..].
  destruct (negb _); [done|]. destruct (negb _); [done|].
  unfold log_copyfile at 1 in Hloop. cbn [fst snd] in Hloop.
  destruct (copyfile _ _ w1) as [[[]|e|] w2]; [|done..].
  set (x := ndead out - nlive s1) in *.
  set (vs1 := mkVars _ _ _ _) in Hloop.
  assert (Hlen1 : length (v_step_ndead vs1) = S (length (v_step_ndead vs))).
  { cbn [v_step_ndead vs1]. rewrite length_app. simpl. lia. }
  destruct (v_add_points vs1) eqn:Hap1.
  - assert (Hin1 : <[pc_settings := s1]> h !! pc_settings = Some s1)
      by (by eapply LoopFacts.lookup_insert_same).
    assert (Hrr1 : read_resume s1
                   = bool_decide (2 ≤ length (v_step_ndead vs1))%nat).
    { rewrite Hlen1. unfold s1, call_of. cbn [read_resume].
      repeat case_bool_decide; try done; lia. }
    destruct (IH vs1 _ _ s1 Hin1 Hrr1 Hap1 Hloop) as (ext & Hext & Hlog).
    exists (x :: ext). rewrite Hlen1 in Hlog.
    cbn [v_step_ndead vs1 snd] in Hext, Hlog.
    split; [by rewrite Hext, <- app_assoc|].
    rewrite Hlog, <- !app_assoc. cbn [app loop_ops].
    do 3 f_equal; by apply loop_ops_ext.
  - destruct fuel; cbn [Driver.explore_loop] in Hloop;
      rewrite Hap1 in Hloop; injection Hloop as <- <- <-;
      (exists [x]; split; [done|]; cbn [snd loop_ops];
       by rewrite <- app_assoc).
Qed.

(** The removals at the end. *)
Lemma remove_resumes_log (prefix : string) (l : list Z)
    (h h' : list Settings) (wl wl' : LWorld) :
  remove_resumes LWorld (log_remove World remove) prefix l
    (mkState LWorld h wl) = (Ok tt, mkState LWorld h' wl') →
  wl'.2 = wl.2 ++
    ((λ n, Removed (prefix +:+ "_init_" +:+ pretty n +:+ ".resume")) <$> l).
Proof.
  revert wl. induction l as [|x l IH]; intros wl; cbn [remove_resumes].
  - intros [= <- <-]. by rewrite app_nil_r.
  - rewrite bind_unfold. unfold ext at 1, log_remove at 1.
    cbn [world heap].
    destruct (remove _ wl.1) as [[[]|e|] w1]; [|done..].
    intros H%IH. rewrite H. cbn [snd fmap list_fmap].
    by rewrite <- app_assoc.
Qed.

Lemma loop_ops_names (s_in : Settings) (ninit init_step : Z) (k : nat)
    (steps : list Z) :
  let s_init := exploratory_settings s_in ninit in
  loop_ops (call_of init_step s_init)
    (base_dir s_init +:+ "/" +:+ file_root s_init +:+ ".resume")
    (λ n, base_dir s_init +:+ "/" +:+ file_root s_init +:+ "_" +:+ pretty n
            +:+ ".resume") k steps
  = loop_ops (call_of init_step s_init)
      ((base_dir s_in +:+ "/" +:+ file_root s_in) +:+ "_init.resume")
      (checkpoint s_in) k steps.
Proof.
  intros s_init. revert k.
  induction steps as [|n steps IH]; intros k; [done|].
  cbn [loop_ops]. rewrite IH. unfold checkpoint, s_init, exploratory_settings.
  cbn [base_dir file_root].
  by rewrite !SettingsRootFacts.string_app_assoc.
Qed.

(** X16. The calls of a dynamic run that succeeds, in order.  First the
    exploration: for each entry of the step history a call of the
    sampler on the exploratory settings, with the cap
    [(k + 1) * init_step] at the iteration [k] (from 0) and
    [read_resume] set from the second call on, followed by a
    checkpoint copy of the resume file, named after the entry.  Then
    the copy of one of these checkpoints, the one that the resume
    selector chose, to the resume file of the dynamic run, and the call
    of the sampler on the dynamic settings.  Then, on rank 0 only, the
    removal of every checkpoint that was written, by the names they
    were written under, and the call of [save_info]. *)
Theorem run_dynamic_polychord_calls (fuel : nat) (pc_settings_in : loc)
    (kw : kwargs) (h : list Settings) (w : World) (log0 : list io_op)
    (s_in : Settings) (σ' : state LWorld) :
  h !! pc_settings_in = Some s_in →
  run_logged fuel pc_settings_in kw (mkState LWorld h (w, log0))
    = (Ok tt, σ') →
  let ninit := default 10 (kw_ninit kw) in
  let init_step := default ninit (kw_init_step kw) in
  let root := base_dir s_in +:+ "/" +:+ file_root s_in in
  ∃ step_ndead resume_ndead nlives_dict dyn_output,
    let s2 := mkSettings (file_root s_in +:+ "_dyn") (base_dir s_in)
                (default 1 (kw_dyn_nlive_step kw)) nlives_dict true
                (write_resume s_in) (max_ndead s_in) in
    resume_ndead ∈ step_ndead ∧
    (world LWorld σ').2
    = log0
      ++ loop_ops (call_of init_step (exploratory_settings s_in ninit))
           (root +:+ "_init.resume") (checkpoint s_in) 0 step_ndead
      ++ [Copied (checkpoint s_in resume_ndead) (root +:+ "_dyn.resume");
          Sampled s2]
      ++ (if comm_rank =? 0
          then ((λ n, Removed (checkpoint s_in n)) <$> step_ndead)
               ++ [Saved s2 dyn_output (Some resume_ndead)]
          else []).
Proof.
  intros Hin Hrun ninit init_step root.
  unfold run_dynamic_polychord_logged in Hrun.
  destruct (DriverRun.run_dynamic_inv _ _ _ _ _ _ _ _ _ _ _ _ _ _ _ _ _
              Hin Hrun)
    as (vs & s1 & w1 & init_run & arr & peak & dict & resume_ndead & w2
        & dyn_output & w3 & Hloop & _ & _ & _ & _ & _ & Hres & Hcopy
        & Hsample & _ & Hend).
  cbv zeta in *. fold ninit init_step in Hloop.
  fold (exploratory_settings s_in ninit) in Hloop.
  assert (Hpc : (h ++ [exploratory_settings s_in ninit]) !! length h
                = Some (exploratory_settings s_in ninit))
    by (by rewrite list_lookup_middle).
  destruct (explore_loop_log _ _ _ _ (mkVars [] ∅ true None) _ _ _ _ _ _
              Hpc eq_refl eq_refl Hloop) as (ext & Hext & Hlog1).
  cbn [v_step_ndead app snd length] in Hext, Hlog1.
  rewrite (loop_ops_names s_in ninit init_step) in Hlog1.
  rewrite <- Hext in Hlog1. fold root in Hlog1.
  exists (v_step_ndead vs), resume_ndead, dict, dyn_output. split.
  - unfold resume_select in Hres. destruct (last _); [|done].
    apply index_Ok in Hres. by eapply list_elem_of_lookup_2.
  - assert (Hlog2 : w2.2 = w1.2 ++ [Copied (checkpoint s_in resume_ndead)
                                      (root +:+ "_dyn.resume")]).
    { unfold log_copyfile in Hcopy. cbn [base_dir file_root] in Hcopy.
      destruct (copyfile _ _ w1.1) as [r w']. injection Hcopy as _ <-.
      cbn [snd]. unfold checkpoint, root.
      by rewrite !SettingsRootFacts.string_app_assoc. }
    unfold log_run_polychord in Hsample.
    destruct (run_polychord _ w2.1) as [r w'] eqn:Hs. injection Hsample as _ <-.
    destruct (comm_rank =? 0).
    + destruct Hend as (w4 & Hrm & Hsave).
      apply remove_resumes_log in Hrm.
      unfold log_save_info in Hsave.
      destruct (save_info _ _ _ w4.1) as [r' w'']. injection Hsave as _ <-.
      assert (Hnames :
        (λ n, Removed ((base_dir s_in +:+ "/" +:+ file_root s_in) +:+ "_init_"
                         +:+ pretty n +:+ ".resume")) <$> v_step_ndead vs
        = (λ n, Removed (checkpoint s_in n)) <$> v_step_ndead vs).
      { apply list_fmap_ext. intros _ n _. unfold checkpoint.
        by rewrite !SettingsRootFacts.string_app_assoc. }
      cbn [snd] in *. rewrite Hrm, Hlog2, Hlog1, Hnames.
      by rewrite <- !app_assoc.
    + rewrite Hend. cbn [snd]. rewrite Hlog2, Hlog1.
      by rewrite <- !app_assoc.
Qed.

Lemma deepcopy_heap (l : loc) (h : list Settings) (wl : LWorld) (s : Settings) :
  h !! l = Some s →
  deepcopy LWorld l (mkState LWorld h wl)
  = (Ok (length h), mkState LWorld (h ++ [s]) wl).
Proof.
  intros H. unfold deepcopy. by rewrite bind_unfold, (LoopFacts.read_heap _ _ _ _ H).
Qed.

(** X17. When the exploration has succeeded and its run is loaded, and
    no entry of the scaled allocation, as the rounded arithmetic of the
    doubles gives it, exceeds [ninit], the dynamic run raises
    [IndexError].  By then the sampler has been called and a
    checkpoint written for every entry of the step history, and nothing
    is removed: the checkpoint copies are left behind, and the store
    holds the exploratory settings and a copy of the caller's
    settings. *)
Theorem run_dynamic_polychord_no_peak (fuel : nat) (pc_settings_in : loc)
    (kw : kwargs) (h h1 : list Settings) (w : World) (log0 : list io_op)
    (wl1 : LWorld) (s_in : Settings) (vs : loop_vars) (init_run : Run)
    (nlives_array : list Q) :
  let ninit := default 10 (kw_ninit kw) in
  let init_step := default ninit (kw_init_step kw) in
  let nlive_const := default (nlive s_in) (kw_nlive_const kw) in
  let root := base_dir s_in +:+ "/" +:+ file_root s_in in
  h !! pc_settings_in = Some s_in →
  kw_other kw = [] → nlives s_in = ∅ → read_resume s_in = false →
  loop_logged fuel (length h) ninit init_step (mkVars [] ∅ true None)
    (mkState LWorld (h ++ [exploratory_settings s_in ninit]) (w, log0))
    = (Ok vs, mkState LWorld h1 wl1) →
  process_polychord_run
    (base_dir s_in +:+ "/" +:+ (file_root s_in +:+ "_init")) wl1.1
    = Ok init_run →
  scale_w_rel double_mul double_div
    (rel_posterior_mass (get_logx (nlive_array init_run)) (logl init_run))
    (max_ndead s_in) (length (logl init_run)) nlive_const ninit
    = Ok nlives_array →
  (∀ x, x ∈ nlives_array → (x <= inject_Z ninit)%Q) →
  run_logged fuel pc_settings_in kw (mkState LWorld h (w, log0))
    = (Raise IndexError, mkState LWorld (h1 ++ [s_in]) wl1) ∧
  length h1 = S (length h) ∧
  wl1.2 = log0
          ++ loop_ops (call_of init_step (exploratory_settings s_in ninit))
               (root +:+ "_init.resume") (checkpoint s_in) 0
               (v_step_ndead vs).
Proof.
  intros ninit init_step nlive_const root Hin Hother Hnl Hrr Hloop Hload
    Hscale Hflat.
  subst ninit init_step nlive_const root.
  set (ninit := default 10 (kw_ninit kw)) in *.
  assert (Hpc : (h ++ [exploratory_settings s_in ninit]) !! length h
                = Some (exploratory_settings s_in ninit))
    by (by rewrite list_lookup_middle).
  destruct (LoopFacts.explore_loop_post _ _ _ _ _ _ _
              (mkVars [] ∅ true None) _ _ _ _ _ Hpc eq_refl Hloop)
    as (_ & s1 & _ & _ & _ & _ & _ & _ & Hh1 & Hfr & Hbd & _).
  cbn [heap] in Hh1. rewrite DriverRun.insert_end in Hh1. subst h1.
  cbn [exploratory_settings file_root base_dir] in Hfr, Hbd.
  destruct (explore_loop_log _ _ _ _ (mkVars [] ∅ true None) _ _ _ _ _ _
              Hpc eq_refl eq_refl Hloop) as (steps & Hext & Hlog1).
  cbn [v_step_ndead app snd length] in Hext, Hlog1.
  rewrite (loop_ops_names s_in ninit) in Hlog1.
  rewrite <- Hext in Hlog1.
  split; [|split; [rewrite length_app; simpl; lia | done]].
  unfold run_dynamic_polychord_logged, run_dynamic_polychord.
  fold ninit.
  rewrite bind_unfold, (LoopFacts.read_heap _ _ _ _ Hin).
  rewrite bind_unfold, bool_decide_eq_true_2 by done. cbn [mret M_ret].
  rewrite bind_unfold, (LoopFacts.read_heap _ _ _ _ Hin).
  rewrite bind_unfold. unfold lift at 1, assert_that at 1.
  rewrite bool_decide_eq_true_2 by done.
  rewrite bind_unfold. unfold lift at 1, assert_that at 1.
  rewrite Hrr. cbn [negb].
  rewrite bind_unfold, (deepcopy_heap _ _ _ _ Hin).
  assert (Hin1 : ∀ t, (h ++ t) !! pc_settings_in = Some s_in)
    by (intros t; by apply lookup_app_l_Some).
  rewrite bind_unfold, (LoopFacts.read_heap _ _ _ _ (Hin1 _)).
  do 4 (rewrite bind_unfold,
          (LoopFacts.setattr_heap _ _ _ _ _ (list_lookup_middle _ [] _ _ eq_refl)),
          DriverRun.insert_end).
  assert (Hinit : set_read_resume false
                    (set_write_resume true
                       (set_nlive ninit
                          (set_file_root (file_root s_in +:+ "_init") s_in)))
                  = exploratory_settings s_in ninit).
  { unfold exploratory_settings. destruct s_in. simpl in *. by subst. }
  rewrite Hinit. clear Hinit.
  rewrite bind_unfold, Hloop.
  rewrite bind_unfold,
    (LoopFacts.read_heap _ _ _ _ (list_lookup_middle _ [] _ _ eq_refl)).
  rewrite bind_unfold. unfold ext at 1. cbn [world heap].
  unfold log_process_polychord_run at 1. rewrite Hbd, Hfr, Hload.
  rewrite bind_unfold, (deepcopy_heap _ _ _ _ (Hin1 _)).
  rewrite <- !app_assoc.
  rewrite bind_unfold, (LoopFacts.read_heap _ _ _ _ (Hin1 _)).
  rewrite bind_unfold. unfold lift at 1. rewrite Hscale.
  rewrite bind_unfold. unfold lift at 1.
  by rewrite (proj2 (ScheduleMore.peak_start_flat _ _) Hflat).
Qed.

End file_log.
End FileLog.

(** ** The further properties on the synthetic runs *)

Module MoreRuns.
Import Driver Synthetic MoreExamples.

(** Two roots of the same settings: the same [ninit] and the same
    number of dimensions. *)
Lemma settings_root_separates_witness :
  settings_root "gauss" "uniform" 2
    (mkSkwargs (Some (PInt 5)) (Some (PInt 1)) (Some (PInt 200))
       (Some (PInt 5)) (Some (PInt 10)) (Some (PInt 10)) [])
  = Ok "gauss_uniform_5_dg1_10init_10is_2d_200nlive_5nrepeats" ∧
  10 = 10 ∧ 2 = 2.
Proof.
  assert (H : settings_root "gauss" "uniform" 2
                (mkSkwargs (Some (PInt 5)) (Some (PInt 1)) (Some (PInt 200))
                   (Some (PInt 5)) (Some (PInt 10)) (Some (PInt 10)) [])
              = Ok "gauss_uniform_5_dg1_10init_10is_2d_200nlive_5nrepeats")
    by (vm_compute; reflexivity).
  destruct (SettingsRootFacts.settings_root_separates "gauss" "uniform"
              (Some (PInt 5)) (Some (PInt 1)) (Some (PInt 200))
              (Some (PInt 5)) (Some (PInt 10))
              "gauss_uniform_5_dg1_10init_10is_2d_200nlive_5nrepeats")
    as [Hninit Hdims].
  split; [exact H|]. split.
  - apply (Hninit 2 10 10 H H). discriminate.
  - apply (Hdims (Some (PInt 10)) 2 2 H H).
Defined.

(** An unknown keyword argument: [TypeError], and nothing has been
    done. *)
Lemma run_dynamic_polychord_config_error_witness :
  syn_run_dynamic_polychord 3 0%nat (mkKwargs None (Some 50) None None ["nlive"])
    (mkState nat [settings_in] 0%nat)
  = (Raise TypeError, mkState nat [settings_in] 0%nat).
Proof.
  destruct (DriverMore.run_dynamic_polychord_config_error syn_run_polychord
              syn_process_polychord_run syn_get_logx syn_rel_posterior_mass
              syn_double_mul syn_double_div syn_copyfile syn_remove
              syn_save_info 0 3 0%nat
              (mkKwargs None (Some 50) None None ["nlive"])
              (mkState nat [settings_in] 0%nat) settings_in eq_refl)
    as [Hkw _].
  apply Hkw. discriminate.
Defined.

(** The standard run on the synthetic sampler leaves the settings as
    they were. *)
Lemma run_standard_polychord_outcome_witness :
  heap nat
    (run_standard_polychord nat syn_run_polychord syn_save_info 0 0%nat []
       (mkState nat [settings_in] 0%nat)).2
  = [settings_in].
Proof.
  destruct (DriverMore.run_standard_polychord_outcome syn_run_polychord
              syn_save_info 0 0%nat [] (mkState nat [settings_in] 0%nat)
              settings_in eq_refl) as [Hheap _].
  exact Hheap.
Defined.

(** The third iteration of the synthetic exploration: the sampler is
    called with the cap 150. *)
Lemma explore_iter_outcome_witness :
  heap nat (syn_explore_iter 1%nat 10 50 vars2 state2).2
  = [settings_in; mkSettings "gauss_init" "chains" 10 ∅ true true 150].
Proof.
  destruct (LoopFacts.explore_iter_outcome syn_run_polychord
              syn_process_polychord_run syn_copyfile 1%nat 10 50 vars2
              [settings_in; mkSettings "gauss_init" "chains" 10 ∅ true true 100]
              2%nat (mkSettings "gauss_init" "chains" 10 ∅ true true 100)
              eq_refl) as [Hheap _].
  exact Hheap.
Defined.

(** The synthetic exploration returns after three iterations. *)
Lemma explore_loop_returns_witness :
  let r := syn_explore_loop 3 1%nat 10 50 (mkVars [] ∅ true None)
             (mkState nat
                [settings_in;
                 mkSettings "gauss_init" "chains" 10 ∅ false true 0] 0%nat) in
  ends_plus_one (v_step_ndead (value_of vars2 r.1)).
Proof.
  intros r.
  destruct (LoopFacts.explore_loop_returns syn_run_polychord
              syn_process_polychord_run syn_copyfile 3 1%nat 10 50
              (value_of vars2 r.1)
              [settings_in; mkSettings "gauss_init" "chains" 10 ∅ false true 0]
              0%nat (mkSettings "gauss_init" "chains" 10 ∅ false true 0)
              r.2 eq_refl)
    as (_ & _ & Hend & _); [vm_compute; reflexivity|].
  exact Hend.
Defined.

(** The capped sampler with a step of 1: the loop returns after two
    iterations. *)
Lemma explore_loop_capped_witness :
  let r := explore_loop nat capped_run_polychord capped_process_polychord_run
             syn_copyfile 5 0%nat 2 1 (mkVars [] ∅ true None)
             (mkState nat [capped_settings] 0%nat) in
  v_step_ndead (value_of vars2 r.1) = [1; 2].
Proof.
  intros r.
  destruct (LoopFacts.explore_loop_capped capped_run_polychord
              capped_process_polychord_run syn_copyfile 5 0%nat 2 1
              (value_of vars2 r.1) [capped_settings] 0%nat capped_settings
              r.2) as [_ Hhist].
  - intros s w out w' [= <- _]. reflexivity.
  - reflexivity.
  - vm_compute. reflexivity.
  - exact Hhist.
Defined.

(** The settings that the synthetic dynamic run leaves. *)
Lemma run_dynamic_polychord_settings_witness :
  ∃ s1 dict,
    heap nat (syn_run_dynamic_polychord 3 0%nat no_kwargs
                (mkState nat [settings_in] 0%nat)).2
    = [settings_in; s1;
       mkSettings "gauss_dyn" "chains" 1 dict true false 1000].
Proof.
  destruct (DriverRun.run_dynamic_polychord_settings syn_run_polychord
              syn_process_polychord_run syn_get_logx syn_rel_posterior_mass
              syn_double_mul syn_double_div syn_copyfile syn_remove
              syn_save_info 0 3 0%nat no_kwargs
              [settings_in] 0%nat settings_in
              (syn_run_dynamic_polychord 3 0%nat no_kwargs
                 (mkState nat [settings_in] 0%nat)).2 eq_refl)
    as (vs & s1 & w1 & init_run & arr & peak & dict & _ & _ & _ & _ & _ & _
        & Hheap);
    [vm_compute; reflexivity|].
  exists s1, dict. exact Hheap.
Defined.

(** The calls of the synthetic dynamic run on rank 0: three sampler
    calls and checkpoints in the exploration, and the three checkpoints
    are removed at the end. *)
Lemma run_dynamic_polychord_calls_witness :
  ∃ step_ndead resume_ndead nlives_dict dyn_output,
    let s2 := mkSettings "gauss_dyn" "chains" 1 nlives_dict true false 1000 in
    resume_ndead ∈ step_ndead ∧
    (world (nat * list io_op) logged_result.2).2
    = Logged.loop_ops
        (Logged.call_of 50 (Logged.exploratory_settings settings_in 10))
        "chains/gauss_init.resume" (Logged.checkpoint settings_in) 0
        step_ndead
      ++ [Copied (Logged.checkpoint settings_in resume_ndead)
            "chains/gauss_dyn.resume"; Sampled s2]
      ++ ((λ n, Removed (Logged.checkpoint settings_in n)) <$> step_ndead)
      ++ [Saved s2 dyn_output (Some resume_ndead)].
Proof.
  destruct (FileLog.run_dynamic_polychord_calls syn_run_polychord
              syn_process_polychord_run syn_get_logx syn_rel_posterior_mass
              syn_double_mul syn_double_div syn_copyfile syn_remove
              syn_save_info 0 3 0%nat no_kwargs
              [settings_in] 0%nat [] settings_in logged_result.2 eq_refl)
    as (steps & rn & dict & out & Hin & Hlog); [vm_compute; reflexivity|].
  exists steps, rn, dict, out. split; [exact Hin | exact Hlog].
Defined.

(** Without [dynamic_goal]: [KeyError], also with an unknown keyword. *)
Lemma process_dypolychord_run_kwargs_witness :
  Processing.process_dypolychord_run ok_process_polychord_run ok_pickle_load
    ProcessingExamples.ex_path_join ProcessingExamples.ex_check_ns_run
    "gauss" "chains" (mkPkwargs None None ["nlive"]) []
  = (Raise (KeyError "dynamic_goal"), []).
Proof.
  destruct (ProcessingMore.process_dypolychord_run_kwargs
              ok_process_polychord_run ok_pickle_load
              ProcessingExamples.ex_path_join
              ProcessingExamples.ex_check_ns_run "gauss" "chains"
              (mkPkwargs None None ["nlive"]) []) as [Hkey _].
  apply Hkey. reflexivity.
Defined.

(** The output of the processed synthetic run: 300 + 500 - 120
    likelihood calls, and the entry [seed] as loaded. *)
Lemma process_dypolychord_run_output_witness :
  let run := value_of init_ok ok_result.1 in
  output run !! "nlike" = Some (PInt 680) ∧
  output run !! "seed" = Some (PInt 7).
Proof.
  intros run.
  destruct (ProcessingMore.process_dypolychord_run_output
              ok_process_polychord_run ok_pickle_load
              ProcessingExamples.ex_path_join
              ProcessingExamples.ex_check_ns_run "gauss" "chains"
              ProcessingExamples.kw_goal1 [] ok_result.2 run)
    as (goal & i & d & info & a & b & _ & Hi & Hd & Hinfo & Ha & Hb & _ & _
        & _ & _ & _ & _ & Hnlike & Hkeep); [vm_compute; reflexivity|].
  injection Hi as <-. injection Hd as <-. injection Hinfo as <-.
  injection Ha as <-. injection Hb as <-.
  destruct Hnlike as (c & [= <-] & Hnlike).
  split; [exact Hnlike|].
  rewrite Hkeep; [reflexivity|]. vm_compute.
  intros H. repeat (apply elem_of_cons in H as [H|H]; [discriminate|]).
  by apply elem_of_nil in H.
Defined.

(** No peak when the budget is used up by the exploratory run, on the
    exact arithmetic. *)
Lemma schedule_without_peak_witness :
  ∃ nlives_array,
    scale_w_rel syn_double_mul syn_double_div [1 # 2; 1 # 2]%Q 2 2 200 10
    = Ok nlives_array ∧
    length nlives_array = 2%nat ∧
    peak_start nlives_array 10 = Raise IndexError.
Proof.
  apply (ScheduleMore.schedule_without_peak syn_double_mul syn_double_div
           [1 # 2; 1 # 2]%Q 2 2 200 10).
  - apply ScheduleMore.Qle_scaled_nonpos.
  - apply ScheduleMore.Qle_scaled_nonneg.
  - apply ScheduleMore.Qle_quotient_nonpos.
  - repeat constructor; discriminate.
  - lia.
  - left. lia.
Defined.

(** A run of three samples and a stride of 2: one stride position. *)
Lemma make_nlives_dict_short_witness :
  make_nlives_dict [10; 12; 30]%Q (Fin <$> [1; 2; 3]) 3 2 10
  = Ok {[ seed_key := 10 ]}.
Proof.
  destruct (ScheduleMore.make_nlives_dict_short [10; 12; 30]%Q
              (Fin <$> [1; 2; 3]) 3 2 10) as [_ Hshort].
  apply Hshort; [lia | vm_compute; discriminate].
Defined.

(** The values of the merged run of [init_a] and [dyn_a]: the sample
    80 of the exploratory run is in it. *)
Lemma combine_resumed_values_witness :
  Fin 80 ∈ logl MergeExamples.merged_a.
Proof.
  apply (MergeMore.combine_resumed_values
           [MergeExamples.init_a; MergeExamples.dyn_a] 0%nat 1%nat
           MergeExamples.init_a MergeExamples.dyn_a 2 MergeExamples.merged_a
           MergeExamples.result_a.2);
    [done | reflexivity | reflexivity | vm_compute; reflexivity |].
  left. apply (list_elem_of_lookup_2 _ 7%nat). reflexivity.
Defined.

(** The synthetic run with a budget that the exploration uses up:
    [IndexError], after three sampler calls and three checkpoints. *)
Lemma run_dynamic_polychord_no_peak_witness :
  Logged.run_dynamic_polychord_logged nat syn_run_polychord
    syn_process_polychord_run syn_get_logx syn_rel_posterior_mass
    syn_double_mul syn_double_div syn_copyfile syn_remove
    syn_save_info 0 3 0%nat no_kwargs
    (mkState (nat * list io_op) [settings_small] (0%nat, []))
  = (Raise IndexError,
     mkState (nat * list io_op)
       (heap (nat * list io_op) small_loop.2 ++ [settings_small])
       (world (nat * list io_op) small_loop.2)).
Proof.
  destruct (FileLog.run_dynamic_polychord_no_peak syn_run_polychord
              syn_process_polychord_run syn_get_logx syn_rel_posterior_mass
              syn_double_mul syn_double_div syn_copyfile syn_remove
              syn_save_info 0 3 0%nat no_kwargs
              [settings_small] (heap (nat * list io_op) small_loop.2) 0%nat []
              (world (nat * list io_op) small_loop.2) settings_small
              (value_of vars2 small_loop.1) (run_of 111) small_array)
    as [Hrun _].
  - reflexivity.
  - reflexivity.
  - reflexivity.
  - reflexivity.
  - vm_compute. reflexivity.
  - vm_compute. reflexivity.
  - vm_compute. reflexivity.
  - intros x Hx%list_elem_of_In.
    assert (Hall : forallb (λ y, Qle_bool y (inject_Z 10)) small_array = true)
      by (vm_compute; reflexivity).
    rewrite forallb_forall in Hall. by apply Qle_bool_iff, Hall.
  - exact Hrun.
Defined.

(** The synthetic exploration returns, with [ninit = 10]. *)
Lemma explore_loop_ninit_witness :
  let r := syn_explore_loop 3 1%nat 10 50 (mkVars [] ∅ true None)
             (mkState nat
                [settings_in;
                 mkSettings "gauss_init" "chains" 10 ∅ false true 0] 0%nat) in
  r.1 = Ok (value_of vars2 r.1) ∧ 1 ≤ 10.
Proof.
  intros r.
  assert (H : r = (Ok (value_of vars2 r.1), r.2)) by (vm_compute; reflexivity).
  split; [by rewrite H at 1|].
  apply (LoopFacts.explore_loop_ninit syn_run_polychord
           syn_process_polychord_run syn_copyfile 3 1%nat 10 50
           (value_of vars2 r.1)
           [settings_in; mkSettings "gauss_init" "chains" 10 ∅ false true 0]
           0%nat (mkSettings "gauss_init" "chains" 10 ∅ false true 0) r.2
           eq_refl eq_refl H).
Defined.
End MoreRuns.
